(** * vscode-epubcheck: the EPUBCheck runner and the diagnostics mapper

    A shallow embedding of [EpubCheckRunner] (epubcheckRunner.ts) and
    [DiagnosticsProvider] (diagnosticsProvider.ts), with the properties of
    the design document stated over it.

    Conventions of the embedding.
    - JavaScript strings are [string], one character per code unit;
      [.length] is [String.length].
    - The line and the column of a location are JavaScript numbers, as
      [JSON.parse] delivers them: IEEE 754 binary64 values, on which the
      mapper subtracts, adds and compares ([JsNumber], over the Standard
      Library's [SpecFloat]).
    - The other numbers of the code (exit code, counter, timeout, clock)
      are integers: [Z], or [nat] for the loop counter.
    - A statement that may throw returns [Try A]; [try { } catch { }] is a
      [match] on it.
    - The one unbounded loop ([getUniquePath]) takes fuel and returns
      [option]: [None] is "out of fuel", and [getUniquePath_total] shows
      that it never happens.
    - The file system is a finite map from absolute paths to file contents,
      together with the renames and the removals that the operating system
      refuses. Paths are normalised: no trailing slash, no empty segment. *)

From stdpp Require Import gmap strings list fin_maps pretty.
From Stdlib Require Import ZArith Lia Ascii String SpecFloat.

Local Open Scope string_scope.
Local Open Scope Z_scope.

(** ** Statements that may throw *)

Inductive Try (A : Type) : Type :=
  | Ok (a : A)
  | Threw (e : string).
Arguments Ok {A} a.
Arguments Threw {A} e.

Global Instance try_ret : MRet Try := λ A a, Ok a.
Global Instance try_bind : MBind Try := λ A B k m,
  match m with
  | Ok a => k a
  | Threw e => Threw e
  end.

Definition threw {A : Type} (m : Try A) : bool :=
  match m with Ok _ => false | Threw _ => true end.

(** ** JavaScript numbers *)

Module JsNumber.

(** A number is a binary64 value: 53 bits of precision, infinities at
    exponent 1024. *)
Definition number : Type := spec_float.

Definition prec : Z := 53.
Definition emax : Z := 1024.

(** The number an integer literal denotes: the nearest binary64 value,
    ties to even. *)
Definition of_Z (z : Z) : number := binary_normalize prec emax z 0 false.
Definition of_nat (n : nat) : number := of_Z (Z.of_nat n).

Definition zero : number := S754_zero false.
Definition one : number := of_Z 1.

(** [x + y], [x - y], [x < y], [x <= y] *)
Definition add (x y : number) : number := SFadd prec emax x y.
Definition sub (x y : number) : number := SFsub prec emax x y.
Definition ltb (x y : number) : bool := SFltb x y.
Definition leb (x y : number) : bool := SFleb x y.

(** [Math.max(x, y)]: NaN when either is NaN, and [+0] above [-0]. *)
Definition Math_max (x y : number) : number :=
  match SFcompare x y with
  | None => S754_nan
  | Some Lt => y
  | Some Gt => x
  | Some Eq => match x with S754_zero true => y | _ => x end
  end.

(** The integer a number is, when it is one. *)
Definition to_integer (x : number) : option Z :=
  match x with
  | S754_zero _ => Some 0
  | S754_finite s m e =>
      if bool_decide (0 ≤ e) then Some (cond_Zopp s (Z.pos m * 2 ^ e))
      else if bool_decide (Z.pos m mod 2 ^ (- e) = 0)
           then Some (cond_Zopp s (Z.pos m / 2 ^ (- e)))
           else None
  | _ => None
  end.

(** [a[i]]: the element when [i] is an index of the array, [undefined]
    for every other number. *)
Definition array_get {A : Type} (a : list A) (i : number) : option A :=
  match to_integer i with
  | Some z => if bool_decide (0 ≤ z) then a !! Z.to_nat z else None
  | None => None
  end.

End JsNumber.

(** ** Node's [path] module, on normalised POSIX paths *)

Module Path.

(** [split_last c s = Some (b, t)] when [s = b ++ c ++ t] and [c] does not
    occur in [t]. *)
Fixpoint split_last (c : ascii) (s : string) : option (string * string) :=
  match s with
  | EmptyString => None
  | String a r =>
      match split_last c r with
      | Some (b, t) => Some (String a b, t)
      | None => if Ascii.eqb a c then Some (EmptyString, r) else None
      end
  end.

Fixpoint strip_suffix (suf s : string) : option string :=
  if String.eqb s suf then Some EmptyString
  else match s with
       | EmptyString => None
       | String a r => String a <$> strip_suffix suf r
       end.

Definition basename (p : string) : string :=
  match split_last "/"%char p with
  | Some (_, t) => t
  | None => p
  end.

Definition dirname (p : string) : string :=
  match split_last "/"%char p with
  | Some (EmptyString, _) => "/"
  | Some (d, _) => d
  | None => "."
  end.

Definition extname (p : string) : string :=
  let b := basename p in
  if String.eqb b ".." then ""
  else match split_last "."%char b with
       | Some (EmptyString, _) => ""
       | Some (_, e) => "." +:+ e
       | None => ""
       end.

(** [path.basename(p, ext)] *)
Definition basename_ext (p ext : string) : string :=
  let b := basename p in
  if String.eqb ext "" then b
  else match strip_suffix ext b with
       | Some EmptyString => b
       | Some stem => stem
       | None => b
       end.

Definition join (dir name : string) : string :=
  if String.eqb dir "/" then "/" +:+ name
  else if String.eqb dir "" || String.eqb dir "." then name
  else dir +:+ "/" +:+ name.

End Path.

(** ** The file system *)

Record FS : Type := mkFS {
  files : gmap string string;
  refused : gset (string * string);
  locked : gset string;
}.

Definition existsSync (fs : FS) (p : string) : bool :=
  bool_decide (is_Some (files fs !! p)).

Definition readFileSync (fs : FS) (p : string) : Try string :=
  match files fs !! p with
  | Some c => Ok c
  | None => Threw "ENOENT"
  end.

(** Removing a file fails when there is none, and when the operating
    system refuses ([locked]). *)
Definition unlinkSync (fs : FS) (p : string) : Try FS :=
  match files fs !! p with
  | Some _ =>
      if bool_decide (p ∈ locked fs) then Threw "EPERM"
      else Ok (mkFS (delete p (files fs)) (refused fs) (locked fs))
  | None => Threw "ENOENT"
  end.

Definition renameSync (fs : FS) (src dst : string) : Try FS :=
  match files fs !! src with
  | None => Threw "ENOENT"
  | Some c =>
      if bool_decide ((src, dst) ∈ refused fs) then Threw "EACCES"
      else Ok (mkFS (<[dst := c]> (delete src (files fs))) (refused fs)
                 (locked fs))
  end.

(** ** types/epubcheck.ts *)

Record EpubCheckLocation : Type := mkLocation {
  loc_path : string;
  loc_line : JsNumber.number;
  loc_column : JsNumber.number;
  loc_context : option string;
}.

(** [severity] is the string of the JSON document: the declared type lists
    five values, the parser does not enforce it. *)
Record EpubCheckMessage : Type := mkMessage {
  msg_ID : string;
  msg_severity : string;
  msg_message : string;
  msg_additionalLocations : Z;
  msg_locations : list EpubCheckLocation;
  msg_suggestion : option string;
}.

Record EpubCheckChecker : Type := mkChecker {
  chk_name : string;
  chk_version : option string;
  chk_checkerVersion : option string;
}.

(** The optional [publication] and [items] members are never read by the
    runner or the mapper and are left out. *)
Record EpubCheckResult : Type := mkResult {
  res_checker : EpubCheckChecker;
  res_messages : list EpubCheckMessage;
}.

Record ValidationResult : Type := mkValidation {
  success : bool;
  epubDir_of : string;
  epubCheckResult : option EpubCheckResult;
  error : option string;
  epubOutputPath : option string;
}.

(** ** The part of the vscode API the mapper uses *)

Inductive DiagnosticSeverity : Type :=
  | SevError
  | SevWarning
  | SevInformation
  | SevHint.

Record Position : Type := mkPos {
  pos_line : JsNumber.number;
  pos_character : JsNumber.number;
}.
Record Range : Type := mkRng { rng_start : Position; rng_end : Position }.

Record Diagnostic : Type := mkDiagnostic {
  diag_range : Range;
  diag_message : string;
  diag_severity : DiagnosticSeverity;
  diag_code : string;
  diag_source : string;
}.

(** [new vscode.Position(line, character)] rejects negative arguments. *)
Definition newPosition (l c : JsNumber.number) : Try Position :=
  if JsNumber.ltb l JsNumber.zero then Threw "illegal argument: line"
  else if JsNumber.ltb c JsNumber.zero then Threw "illegal argument: character"
  else Ok (mkPos l c).

Definition pos_isBefore (a b : Position) : bool :=
  if JsNumber.ltb (pos_line a) (pos_line b) then true
  else if JsNumber.ltb (pos_line b) (pos_line a) then false
  else JsNumber.ltb (pos_character a) (pos_character b).

(** [new vscode.Range(start, end)] orders its two ends. *)
Definition newRange (s e : Position) : Range :=
  if pos_isBefore s e then mkRng s e else mkRng e s.

(** ** diagnosticsProvider.ts *)

Module DiagnosticsProvider.
Import JsNumber.

Definition mapSeverity (severity : string) : DiagnosticSeverity :=
  if String.eqb severity "FATAL" then SevError
  else if String.eqb severity "ERROR" then SevError
  else if String.eqb severity "WARNING" then SevWarning
  else if String.eqb severity "USAGE" then SevInformation
  else if String.eqb severity "INFO" then SevHint
  else SevError.

(** [s.split('\n')] *)
Fixpoint split_newline (s : string) : list string :=
  match s with
  | EmptyString => [EmptyString]
  | String c r =>
      if Ascii.eqb c "010"%char then EmptyString :: split_newline r
      else match split_newline r with
           | h :: t => String c h :: t
           | [] => [String c EmptyString]
           end
  end.

Definition readFileLines (fs : FS) (filePath : string) : option (list string) :=
  match readFileSync fs filePath with
  | Ok content => Some (split_newline content)
  | Threw _ => None
  end.

(** [fileLines[line].length]: reading [length] of [undefined] throws. *)
Definition line_length (fileLines : list string) (line : number)
    : Try number :=
  match array_get fileLines line with
  | Some s => Ok (of_nat (String.length s))
  | None => Threw "TypeError"
  end.

Definition createDiagnostic (message : EpubCheckMessage)
    (location : EpubCheckLocation) (fileLines : option (list string))
    : Try Diagnostic :=
  let line := Math_max zero (sub (loc_line location) one) in
  let column := Math_max zero (sub (loc_column location) one) in
  endColumn ←
    match fileLines with
    | Some ls =>
        if ltb line (of_nat (List.length ls)) then line_length ls line
        else Ok (add column one)
    | None => Ok (add column one)
    end;
  let endColumn :=
    if leb endColumn column then add column one else endColumn in
  start ← newPosition line column;
  stop ← newPosition line endColumn;
  let range := newRange start stop in
  let severity := mapSeverity (msg_severity message) in
  let diagnosticMessage :=
    match msg_suggestion message with
    | Some sug =>
        if String.eqb sug "" then msg_message message
        else msg_message message +:+ String "010"%char "Suggestion: " +:+ sug
    | None => msg_message message
    end in
  Ok (mkDiagnostic range diagnosticMessage severity (msg_ID message) "EPUBCheck").

End DiagnosticsProvider.

(** ** The child process, as the runner observes it *)

Record SpawnError : Type := mkSpawnError {
  err_code : option string;
  err_killed : bool;
  err_message : string;
}.

(** What happens between [spawn] and the end of the run, in order: the
    external tool changes the file system, writes to its standard error,
    and Node emits ['error'] and ['close']. *)
Inductive ProcEvent : Type :=
  | ToolStep (f : FS → FS)
  | StderrData (data : string)
  | ErrorEvent (err : SpawnError)
  | CloseEvent (code : option Z).

(** configuration.ts, as read by the runner *)
Record Settings : Type := mkSettings {
  jarPath : string;
  javaPath : string;
  timeout : Z;
}.

(** The promise under construction: [st_settled] is its value once
    [resolve] has been called; later calls of [resolve] change nothing. *)
Record RunState : Type := mkState {
  st_stderr : string;
  st_timedOut : bool;
  st_settled : option ValidationResult;
  st_fs : FS;
}.

Definition resolve (r : ValidationResult) (st : RunState) : RunState :=
  match st_settled st with
  | Some _ => st
  | None => mkState (st_stderr st) (st_timedOut st) (Some r) (st_fs st)
  end.

Definition with_fs (st : RunState) (fs : FS) : RunState :=
  mkState (st_stderr st) (st_timedOut st) (st_settled st) fs.

Definition nl : string := String "010"%char EmptyString.
Definition dquote : string := String "034"%char EmptyString.

(** The white space of [String.prototype.trim] among the characters a
    [string] holds here: tab, line feed, vertical tab, form feed, carriage
    return, space and no-break space. *)
Definition isWhiteSpace (c : ascii) : bool :=
  Ascii.is_space c || Ascii.eqb c "160"%char.

(** [s.trim()] *)
Fixpoint trimStart (s : string) : string :=
  match s with
  | String c r => if isWhiteSpace c then trimStart r else s
  | EmptyString => EmptyString
  end.

Definition trim (s : string) : string :=
  String.rev (trimStart (String.rev (trimStart s))).

(** [!x] for [x : string | undefined] *)
Definition falsy (x : option string) : bool :=
  match x with
  | None => true
  | Some s => String.eqb s ""
  end.

Section Handlers.

Variable on_close : option Z → RunState → option RunState.
Variable on_error : SpawnError → RunState → RunState.

Definition deliver1 (ev : ProcEvent) (st : RunState) : option RunState :=
  match ev with
  | ToolStep f => Some (with_fs st (f (st_fs st)))
  | StderrData data =>
      Some (mkState (st_stderr st +:+ data) (st_timedOut st)
              (st_settled st) (st_fs st))
  | ErrorEvent err => Some (on_error err st)
  | CloseEvent code => on_close code st
  end.

Fixpoint deliver (evs : list ProcEvent) (st : RunState) : option RunState :=
  match evs with
  | [] => Some st
  | ev :: rest => st' ← deliver1 ev st; deliver rest st'
  end.

End Handlers.

(** ** epubcheckRunner.ts *)

Module EpubCheckRunner.

Definition getDefaultEpubPath (epubDir : string) : string :=
  let folderName := Path.basename epubDir in
  Path.join (Path.dirname epubDir) (folderName +:+ ".epub").

Definition cleanupTmpFile (fs : FS) (filePath : string) : FS :=
  if existsSync fs filePath then
    match unlinkSync fs filePath with
    | Ok fs' => fs'
    | Threw _ => fs
    end
  else fs.

Definition candidate (dir base ext : string) (counter : nat) : string :=
  Path.join dir (base +:+ " (" +:+ pretty counter +:+ ")" +:+ ext).

(** The [do { } while (fs.existsSync(candidate))] loop. *)
Fixpoint getUniquePath_loop (fs : FS) (dir base ext : string)
    (fuel counter : nat) : option string :=
  match fuel with
  | O => None
  | S fuel' =>
      let cand := candidate dir base ext counter in
      if existsSync fs cand
      then getUniquePath_loop fs dir base ext fuel' (S counter)
      else Some cand
  end.

Definition getUniquePath (fs : FS) (filePath : string) : option string :=
  if negb (existsSync fs filePath) then Some filePath
  else
    let dir := Path.dirname filePath in
    let ext := Path.extname filePath in
    let base := Path.basename_ext filePath ext in
    getUniquePath_loop fs dir base ext (S (size (files fs))) 2.

Definition protectExistingEpub (epubPath : option string) (now : Z) (fs : FS)
    : option string * FS :=
  match epubPath with
  | None => (None, fs)
  | Some p =>
      if String.eqb p "" || negb (existsSync fs p) then (None, fs)
      else
        let dir := Path.dirname p in
        let tmpName := ".epubcheck-protect-" +:+ pretty now +:+ Path.extname p in
        let tmpPath := Path.join dir tmpName in
        match renameSync fs p tmpPath with
        | Ok fs' => (Some tmpPath, fs')
        | Threw _ => (None, fs)
        end
  end.

Definition restoreProtectedEpub (protectedPath : option string)
    (targetPath : string) (fs : FS) : option FS :=
  match protectedPath with
  | None => Some fs
  | Some pp =>
      if String.eqb pp "" || negb (existsSync fs pp) then Some fs
      else
        restorePath ← getUniquePath fs targetPath;
        match renameSync fs pp restorePath with
        | Ok fs' => Some fs'
        | Threw _ =>
            if negb (existsSync fs targetPath) then
              match renameSync fs pp targetPath with
              | Ok fs' => Some fs'
              | Threw _ => Some fs
              end
            else Some fs
        end
  end.

Definition findGeneratedEpub (epubDir : string) (targetPath : option string)
    (protectedPath : option string) (fs : FS) : option (option string * FS) :=
  match targetPath with
  | None => Some (None, fs)
  | Some tp =>
      if String.eqb tp "" then Some (None, fs)
      else
        let folderName := Path.basename epubDir in
        let insidePath := Path.join epubDir (folderName +:+ ".epub") in
        if existsSync fs insidePath then
          match renameSync fs insidePath tp with
          | Threw _ =>
              fs' ← restoreProtectedEpub protectedPath tp fs;
              Some (Some insidePath, fs')
          | Ok fs1 =>
              fs' ← restoreProtectedEpub protectedPath tp fs1;
              Some (Some tp, fs')
          end
        else if existsSync fs tp then
          fs' ← restoreProtectedEpub protectedPath tp fs;
          Some (Some tp, fs')
        else
          fs' ← restoreProtectedEpub protectedPath tp fs;
          Some (None, fs')
  end.

Section Run.

(** [JSON.parse] followed by the cast to [EpubCheckResult]: it throws on
    text that is not JSON, and on a document whose [messages] the
    handler could not traverse. *)
Variable JSON_parse : string → Try EpubCheckResult.
(** [spawn(command, args, { timeout })]: the run of the child. *)
Variable spawn : string → list string → Z → list ProcEvent.
(** [os.tmpdir()] *)
Variable tmpdir : string.
Variable cfg : Settings.

Definition timeoutMessage : string :=
  "EPUBCheck timed out after " +:+ pretty (timeout cfg)
  +:+ " seconds. You can increase the timeout in settings (epubcheck.timeout).".

Definition javaNotFoundMessage : string :=
  "Java not found at " +:+ dquote +:+ javaPath cfg +:+ dquote +:+ ". "
  +:+ "Please install Java 11 or above, or configure the path in settings (epubcheck.javaPath)."
  +:+ nl +:+ nl +:+ "Download Java: https://adoptium.net/".

Definition failure (epubDir msg : string) : ValidationResult :=
  mkValidation false epubDir None (Some msg) None.

Definition isErrorSeverity (m : EpubCheckMessage) : bool :=
  String.eqb (msg_severity m) "FATAL" || String.eqb (msg_severity m) "ERROR".

Definition parseFailureMessage (stderr : string) (code : option Z) : string :=
  let errorMsg := "EPUBCheck failed to produce valid output." in
  let errorMsg :=
    if String.eqb stderr "" then errorMsg
    else errorMsg +:+ nl +:+ "Details: " +:+ trim stderr in
  match code with
  | Some c =>
      if bool_decide (c ≠ 0) then errorMsg +:+ nl +:+ "Exit code: " +:+ pretty c
      else errorMsg
  | None => errorMsg
  end.

(** [proc.on('close', ...)] of [run] *)
Definition run_on_close (epubDir : string) (save : bool)
    (jsonTmpFile : string) (defaultEpubPath protectedPath : option string)
    (code : option Z) (st : RunState) : option RunState :=
  if st_timedOut st || bool_decide (code = None) then
    let fs1 := cleanupTmpFile (st_fs st) jsonTmpFile in
    Some (resolve (failure epubDir timeoutMessage) (with_fs st fs1))
  else
    match jsonContent ← readFileSync (st_fs st) jsonTmpFile;
          JSON_parse jsonContent with
    | Ok result =>
        let fs1 := cleanupTmpFile (st_fs st) jsonTmpFile in
        let hasErrors := existsb isErrorSeverity (res_messages result) in
        '(epubOutputPath, fs2) ←
          (if save
           then findGeneratedEpub epubDir defaultEpubPath protectedPath fs1
           else Some (None, fs1));
        Some (resolve
                (mkValidation (negb hasErrors) epubDir (Some result) None
                   epubOutputPath)
                (with_fs st fs2))
    | Threw _ =>
        let fs1 := cleanupTmpFile (st_fs st) jsonTmpFile in
        let errorMsg := parseFailureMessage (st_stderr st) code in
        Some (resolve (failure epubDir errorMsg) (with_fs st fs1))
    end.

(** [proc.on('error', ...)] of [run] *)
Definition run_on_error (epubDir jsonTmpFile : string) (err : SpawnError)
    (st : RunState) : RunState :=
  let st := with_fs st (cleanupTmpFile (st_fs st) jsonTmpFile) in
  if bool_decide (err_code err = Some "ENOENT") then
    resolve (failure epubDir javaNotFoundMessage) st
  else if bool_decide (err_code err = Some "ETIMEDOUT") || err_killed err then
    mkState (st_stderr st) true (st_settled st) (st_fs st)
  else
    resolve (failure epubDir ("Failed to run EPUBCheck: " +:+ err_message err)) st.

Definition run (epubDir : string) (save : bool) (now_json now_protect : Z)
    (fs : FS) : option (option ValidationResult * FS) :=
  let jsonTmpFile :=
    Path.join tmpdir ("epubcheck-" +:+ pretty now_json +:+ ".json") in
  let defaultEpubPath :=
    if save then Some (getDefaultEpubPath epubDir) else None in
  let '(protectedPath, fs1) :=
    if save then protectExistingEpub defaultEpubPath now_protect fs
    else (None, fs) in
  let args :=
    (["-jar"; jarPath cfg; "-mode"; "exp"; epubDir; "--json"; jsonTmpFile]
     ++ (if save then ["--save"] else []))%list in
  let proc := spawn (javaPath cfg) args (timeout cfg * 1000) in
  st ← deliver
         (run_on_close epubDir save jsonTmpFile defaultEpubPath protectedPath)
         (run_on_error epubDir jsonTmpFile)
         proc (mkState "" false None fs1);
  Some (st_settled st, st_fs st).

(** [proc.on('close', ...)] of [generateOnly] *)
Definition generateOnly_on_close (epubDir defaultPath : string)
    (protectedPath : option string) (code : option Z) (st : RunState)
    : option RunState :=
  if st_timedOut st || bool_decide (code = None) then
    Some (resolve (failure epubDir timeoutMessage) st)
  else if bool_decide (code = Some 0) || bool_decide (code = Some 1) then
    '(finalPath, fs1) ←
      findGeneratedEpub epubDir (Some defaultPath) protectedPath (st_fs st);
    let error :=
      if falsy finalPath && bool_decide (code = Some 1) then
        Some "EPUBCheck aborted EPUB generation due to validation errors. Fix the errors and try again."
      else if falsy finalPath then
        Some "EPUBCheck did not generate an EPUB file."
      else None in
    Some (resolve
            (mkValidation (bool_decide (finalPath ≠ None)) epubDir None error
               finalPath)
            (with_fs st fs1))
  else
    let shown := match code with Some c => pretty c | None => "null" end in
    Some (resolve
            (failure epubDir
               ("EPUBCheck failed with exit code " +:+ shown +:+ "." +:+ nl
                +:+ st_stderr st))
            st).

(** [proc.on('error', ...)] of [generateOnly] *)
Definition generateOnly_on_error (epubDir : string) (err : SpawnError)
    (st : RunState) : RunState :=
  if bool_decide (err_code err = Some "ENOENT") then
    resolve (failure epubDir javaNotFoundMessage) st
  else if bool_decide (err_code err = Some "ETIMEDOUT") || err_killed err then
    mkState (st_stderr st) true (st_settled st) (st_fs st)
  else
    resolve (failure epubDir ("Failed to run EPUBCheck: " +:+ err_message err)) st.

Definition generateOnly (epubDir : string) (now_protect : Z) (fs : FS)
    : option (option ValidationResult * FS) :=
  let defaultPath := getDefaultEpubPath epubDir in
  let '(protectedPath, fs1) :=
    protectExistingEpub (Some defaultPath) now_protect fs in
  let args := ["-jar"; jarPath cfg; "-mode"; "exp"; epubDir; "--save"] in
  let proc := spawn (javaPath cfg) args (timeout cfg * 1000) in
  st ← deliver
         (generateOnly_on_close epubDir defaultPath protectedPath)
         (generateOnly_on_error epubDir)
         proc (mkState "" false None fs1);
  Some (st_settled st, st_fs st).

End Run.

End EpubCheckRunner.


(** ** JavaScript's [Map] with string keys: insertion order, unique keys *)

Module JsMap.

Definition t (V : Type) : Type := list (string * V).

Fixpoint get {V : Type} (m : t V) (k : string) : option V :=
  match m with
  | [] => None
  | (k', v) :: rest => if String.eqb k' k then Some v else get rest k
  end.

Definition has {V : Type} (m : t V) (k : string) : bool :=
  match get m k with
  | Some _ => true
  | None => false
  end.

(** [m.set(k, v)]: an existing key keeps its place. *)
Fixpoint set {V : Type} (m : t V) (k : string) (v : V) : t V :=
  match m with
  | [] => [(k, v)]
  | (k', v') :: rest =>
      if String.eqb k' k then (k', v) :: rest else (k', v') :: set rest k v
  end.

End JsMap.

(** ** diagnosticsProvider.ts: [updateDiagnostics] *)

Module DiagnosticsCollection.
Import DiagnosticsProvider.

(** The two maps of one pass. A cached value [None] is a file that could
    not be read. *)
Record Pass : Type := mkPass {
  diagnosticsMap : JsMap.t (list Diagnostic);
  fileLinesCache : JsMap.t (option (list string));
}.

Section Update.

(** [vscode.Uri.file(p).toString()] *)
Variable uri_of_file : string → string.
Variable fs : FS.

(** The body of the innermost loop. *)
Definition visit_location (epubDir : string) (message : EpubCheckMessage)
    (location : EpubCheckLocation) (st : Pass) : Try Pass :=
  let filePath := Path.join epubDir (loc_path location) in
  let fileUri := uri_of_file filePath in
  let dmap :=
    if negb (JsMap.has (diagnosticsMap st) fileUri)
    then JsMap.set (diagnosticsMap st) fileUri []
    else diagnosticsMap st in
  let cache :=
    if negb (JsMap.has (fileLinesCache st) filePath)
    then JsMap.set (fileLinesCache st) filePath (readFileLines fs filePath)
    else fileLinesCache st in
  let fileLines :=
    match JsMap.get cache filePath with
    | Some lines => lines
    | None => None
    end in
  diagnostic ← createDiagnostic message location fileLines;
  match JsMap.get dmap fileUri with
  | Some diagnostics =>
      Ok (mkPass (JsMap.set dmap fileUri (diagnostics ++ [diagnostic])%list)
            cache)
  | None => Threw "TypeError"
  end.

Fixpoint visit_locations (epubDir : string) (message : EpubCheckMessage)
    (locations : list EpubCheckLocation) (st : Pass) : Try Pass :=
  match locations with
  | [] => Ok st
  | location :: rest =>
      st' ← visit_location epubDir message location st;
      visit_locations epubDir message rest st'
  end.

Fixpoint visit_messages (epubDir : string)
    (messages : list EpubCheckMessage) (st : Pass) : Try Pass :=
  match messages with
  | [] => Ok st
  | message :: rest =>
      st' ← visit_locations epubDir message (msg_locations message) st;
      visit_messages epubDir rest st'
  end.

Fixpoint visit_results (results : list ValidationResult) (st : Pass)
    : Try Pass :=
  match results with
  | [] => Ok st
  | result :: rest =>
      match epubCheckResult result with
      | None => visit_results rest st
      | Some checked =>
          st' ← visit_messages (epubDir_of result) (res_messages checked) st;
          visit_results rest st'
      end
  end.

(** The diagnostic collection is a map from URI strings to lists of
    diagnostics; [updateDiagnostics] clears it and sets one entry per
    key of [diagnosticsMap]. *)
Definition updateDiagnostics (results : list ValidationResult)
    (collection : JsMap.t (list Diagnostic))
    : Try (JsMap.t (list Diagnostic)) :=
  let cleared : JsMap.t (list Diagnostic) := [] in
  st ← visit_results results (mkPass [] []);
  Ok (fold_left (λ c entry, JsMap.set c entry.1 entry.2)
        (diagnosticsMap st) cleared).

End Update.

End DiagnosticsCollection.

(** ** statusBar.ts *)

Module StatusBar.

(** The status bar item: its text, and whether it has the error
    background. *)
Record Item : Type := mkItem {
  text : string;
  errorBackground : bool;
}.

Definition setIdle : Item := mkItem "$(book) EPUBCheck" false.

Definition setRunning : Item :=
  mkItem "$(loading~spin) EPUBCheck: Running..." false.

Definition setSuccess (epubCount : nat) : Item :=
  let label :=
    if bool_decide (1 < epubCount)%nat then pretty epubCount +:+ " EPUBs"
    else "EPUB" in
  mkItem ("$(check) EPUBCheck: " +:+ label +:+ " OK") false.

(** [n error(s)] / [n warning(s)] *)
Definition plural (n : nat) (noun : string) : string :=
  pretty n +:+ " " +:+ noun +:+ (if bool_decide (n ≠ 1%nat) then "s" else "").

Definition setErrors (errorCount warningCount : nat) : Item :=
  let parts :=
    ((if bool_decide (0 < errorCount)%nat
      then [plural errorCount "error"] else [])
     ++ (if bool_decide (0 < warningCount)%nat
         then [plural warningCount "warning"] else []))%list in
  let summary :=
    if bool_decide (0 < List.length parts)%nat then String.concat ", " parts
    else "Failed" in
  mkItem ("$(error) EPUBCheck: " +:+ summary) true.

End StatusBar.

(** ** extension.ts: what is shown after a batch of runs *)

Inductive Notification : Type :=
  | ShowInformation (msg : string)
  | ShowWarning (msg : string)
  | ShowError (msg : string).

Module Extension.

Record Counts : Type := mkCounts {
  totalErrors : nat;
  totalWarnings : nat;
  hasExecutionError : bool;
}.

(** The inner loop of [countMessages], over the messages of one result. *)
Definition count_message (acc : Counts) (msg : EpubCheckMessage) : Counts :=
  let locationCount := Nat.max 1 (List.length (msg_locations msg)) in
  if String.eqb (msg_severity msg) "FATAL"
     || String.eqb (msg_severity msg) "ERROR"
  then mkCounts (totalErrors acc + locationCount) (totalWarnings acc)
         (hasExecutionError acc)
  else if String.eqb (msg_severity msg) "WARNING"
  then mkCounts (totalErrors acc) (totalWarnings acc + locationCount)
         (hasExecutionError acc)
  else acc.

Definition count_result (acc : Counts) (result : ValidationResult) : Counts :=
  match epubCheckResult result with
  | None =>
      if negb (falsy (error result))
      then mkCounts (totalErrors acc) (totalWarnings acc) true
      else acc
  | Some checked => fold_left count_message (res_messages checked) acc
  end.

Definition countMessages (results : list ValidationResult) : Counts :=
  fold_left count_result results (mkCounts 0 0 false).

Definition updateStatusBar (results : list ValidationResult) : StatusBar.Item :=
  let counts := countMessages results in
  if negb (hasExecutionError counts) && bool_decide (totalErrors counts = 0%nat)
  then StatusBar.setSuccess (List.length results)
  else StatusBar.setErrors (totalErrors counts) (totalWarnings counts).

Definition showSummary (results : list ValidationResult) : Notification :=
  let counts := countMessages results in
  if bool_decide (totalErrors counts = 0%nat)
     && bool_decide (totalWarnings counts = 0%nat)
  then ShowInformation "EPUBCheck: Validation passed with no errors or warnings."
  else
    let parts :=
      ((if bool_decide (0 < totalErrors counts)%nat
        then [StatusBar.plural (totalErrors counts) "error"] else [])
       ++ (if bool_decide (0 < totalWarnings counts)%nat
           then [StatusBar.plural (totalWarnings counts) "warning"] else []))%list in
    ShowWarning ("EPUBCheck: Found " +:+ String.concat " and " parts
                 +:+ ". See Problems panel for details.").

End Extension.

(** ** epubDetector.ts *)

Module EpubDetector.

Definition epubMimetype : string := "application/epub+zip".

Definition isEpubDirectory (fs : FS) (dirPath : string) : bool :=
  let mimetypePath := Path.join dirPath "mimetype" in
  if negb (existsSync fs mimetypePath) then false
  else match readFileSync fs mimetypePath with
       | Ok content => String.eqb (trim content) epubMimetype
       | Threw _ => false
       end.

(** [mimetypeFiles] are the paths that [findFiles('**/mimetype', ...)]
    returned. *)
Definition detectEpubDirectories (fs : FS) (mimetypeFiles : list string)
    : list string :=
  fold_left
    (λ epubDirs fsPath,
       match readFileSync fs fsPath with
       | Ok content =>
           if String.eqb (trim content) epubMimetype
           then (epubDirs ++ [Path.dirname fsPath])%list
           else epubDirs
       | Threw _ => epubDirs
       end)
    mimetypeFiles [].

Record QuickPickItem : Type := mkItem {
  label : string;
  description : option string;
  picked : bool;
}.

Definition quickPickItems (epubDirs : list string) : list QuickPickItem :=
  mkItem "All EPUB Projects"
    (Some (pretty (List.length epubDirs) +:+ " projects found")) true
  :: map (λ dir, mkItem (Path.basename dir) (Some dir) false) epubDirs.

(** [showQuickPick] is the user: the items picked, [None] when the pick is
    dismissed. The result comes with the warning shown, if any. *)
Definition selectEpubDirectories
    (showQuickPick : list QuickPickItem → option (list QuickPickItem))
    (epubDirs : list string) : option (list string) * list Notification :=
  if bool_decide (List.length epubDirs = 0%nat) then
    (None,
     [ShowWarning ("EPUBCheck: No EPUB projects found in the workspace. "
                   +:+ "An EPUB project must contain a " +:+ dquote
                   +:+ "mimetype" +:+ dquote +:+ " file.")])
  else if bool_decide (List.length epubDirs = 1%nat) then (Some epubDirs, [])
  else
    match showQuickPick (quickPickItems epubDirs) with
    | None => (None, [])
    | Some selected =>
        if bool_decide (List.length selected = 0%nat) then (None, [])
        else if existsb (λ s, String.eqb (label s) "All EPUB Projects") selected
        then (Some epubDirs, [])
        else (Some (omap description selected), [])
    end.

End EpubDetector.

(** ** epubExtractor.ts: [getUniqueDirPath]

    A directory that exists is an entry of the file-system map like any
    other path; its content is never read here. *)

Module EpubExtractor.

Definition dirCandidate (dirPath : string) (counter : nat) : string :=
  dirPath +:+ " (" +:+ pretty counter +:+ ")".

Fixpoint getUniqueDirPath_loop (fs : FS) (dirPath : string)
    (fuel counter : nat) : option string :=
  match fuel with
  | O => None
  | S fuel' =>
      let cand := dirCandidate dirPath counter in
      if existsSync fs cand
      then getUniqueDirPath_loop fs dirPath fuel' (S counter)
      else Some cand
  end.

Definition getUniqueDirPath (fs : FS) (dirPath : string) : option string :=
  if negb (existsSync fs dirPath) then Some dirPath
  else getUniqueDirPath_loop fs dirPath (S (size (files fs))) 2.

End EpubExtractor.

(** * Vocabulary of the statements *)

(** ** For numbers *)

Module NumberSpec.
Import JsNumber.

(** The integers that binary64 holds exactly together with all the
    integers between them and 0. *)
Definition representable (a : Z) : Prop := - 2 ^ 53 ≤ a ≤ 2 ^ 53.

(** [Number.isSafeInteger] *)
Definition safe_integer (a : Z) : Prop := - (2 ^ 53 - 1) ≤ a ≤ 2 ^ 53 - 1.

(** The 53-bit mantissa and the exponent of a positive integer of at most
    54 bits. *)
Definition mantissa (w : Z) : positive :=
  Z.to_pos (w * 2 ^ 52 / 2 ^ Z.log2 w).
Definition exponent (w : Z) : Z := Z.log2 w - 52.

Definition canonical (a : Z) : number :=
  match a with
  | 0 => S754_zero false
  | Z.pos _ => S754_finite false (mantissa a) (exponent a)
  | Z.neg p => S754_finite true (mantissa (Z.pos p)) (exponent (Z.pos p))
  end.

(** A number of sign [s] and of magnitude at least [2 ^ (52 + e0)], or
    the infinity of that sign. *)
Definition beyond (s : bool) (e0 : Z) (x : number) : Prop :=
  x = S754_infinity s
  ∨ ∃ m e, x = S754_finite s m e ∧ 2 ^ 52 ≤ Z.pos m ∧ e0 ≤ e.

(** One and a half, as [JSON.parse] reads [1.5]. *)
Definition one_and_a_half : number := binary_normalize prec emax 3 (-1) false.

End NumberSpec.

(** ** For the diagnostics mapper *)

Module DiagnosticsSpec.
Import JsNumber DiagnosticsProvider.

(** The severity table of the design document, as an association list. *)
Definition severity_table : list (string * DiagnosticSeverity) :=
  [ ("FATAL", SevError); ("ERROR", SevError); ("WARNING", SevWarning);
    ("USAGE", SevInformation); ("INFO", SevHint) ].

Fixpoint table_lookup (t : list (string * DiagnosticSeverity)) (s : string)
    : option DiagnosticSeverity :=
  match t with
  | [] => None
  | (k, v) :: rest => if String.eqb s k then Some v else table_lookup rest s
  end.

(** The mapping as the design document words it: the table, and [Error]
    for anything the table does not list. *)
Definition mapSeverity_by_table (s : string) : DiagnosticSeverity :=
  default SevError (table_lookup severity_table s).

Definition endColumn_of (d : Diagnostic) : number :=
  pos_character (rng_end (diag_range d)).
Definition startColumn_of (d : Diagnostic) : number :=
  pos_character (rng_start (diag_range d)).

(** The column the mapper settles on once it knows the length of the line
    (or [None] when it does not), over the integers. *)
Definition widened (column : Z) (len : option Z) : Z :=
  match len with
  | Some n => if bool_decide (n ≤ column) then column + 1 else n
  | None => column + 1
  end.

(** A location whose line and column are the integers [l] and [c]. *)
Definition location_at (path : string) (l c : Z) (ctx : option string)
    : EpubCheckLocation :=
  mkLocation path (of_Z l) (of_Z c) ctx.

(** The range has at least one character. *)
Definition non_empty (d : Diagnostic) : bool :=
  ltb (startColumn_of d) (endColumn_of d).

(** The length the mapper reads, under its guard. *)
Definition observed_length (fileLines : option (list string)) (line : Z)
    : option Z :=
  match fileLines with
  | Some ls =>
      if bool_decide (line < Z.of_nat (List.length ls))
      then (λ s, Z.of_nat (String.length s)) <$> ls !! Z.to_nat line
      else None
  | None => None
  end.

(** A message and a two-line file for the examples. *)
Definition sample_message : EpubCheckMessage :=
  mkMessage "RSC-005" "ERROR" "Error while parsing file" 0 [] None.

Definition chapter_lines : list string :=
  [ "<html>"; "<head/>"; "<body>"; "<p>";
    "0123456789012345678901234567890123456789"; "</p>" ].

End DiagnosticsSpec.

(** ** For the runner *)

Module RunnerSpec.
Import EpubCheckRunner.

Section Run.
Variable JSON_parse : string → Try EpubCheckResult.
Variable spawn : string → list string → Z → list ProcEvent.
Variable tmpdir : string.
Variable cfg : Settings.

(** The names [run] computes before it spawns the child. *)
Definition jsonTmpFile_of (now_json : Z) : string :=
  Path.join tmpdir ("epubcheck-" +:+ pretty now_json +:+ ".json").

Definition run_args (epubDir : string) (save : bool) (now_json : Z)
    : list string :=
  (["-jar"; jarPath cfg; "-mode"; "exp"; epubDir; "--json";
    jsonTmpFile_of now_json]
   ++ (if save then ["--save"] else []))%list.

Definition defaultEpubPath_of (epubDir : string) (save : bool)
    : option string :=
  if save then Some (getDefaultEpubPath epubDir) else None.

(** The backup and the file system just before [spawn]. *)
Definition run_protect (epubDir : string) (save : bool) (now_protect : Z)
    (fs : FS) : option string * FS :=
  if save
  then protectExistingEpub (defaultEpubPath_of epubDir save) now_protect fs
  else (None, fs).

(** The events [run] receives, and the state they leave. *)
Definition run_child (epubDir : string) (save : bool) (now_json : Z)
    : list ProcEvent :=
  spawn (javaPath cfg) (run_args epubDir save now_json) (timeout cfg * 1000).

Definition run_deliver (epubDir : string) (save : bool)
    (now_json now_protect : Z) (fs : FS) (evs : list ProcEvent)
    : option RunState :=
  let '(protectedPath, fs1) := run_protect epubDir save now_protect fs in
  deliver
    (run_on_close JSON_parse cfg epubDir save (jsonTmpFile_of now_json)
       (defaultEpubPath_of epubDir save) protectedPath)
    (run_on_error cfg epubDir (jsonTmpFile_of now_json))
    evs (mkState "" false None fs1).

(** The child of this run emits [pre] and then closes with [code]; when
    ['close'] arrives the promise is still pending, in state [st]. *)
Definition run_closes_after (epubDir : string) (save : bool)
    (now_json now_protect : Z) (fs : FS) (pre : list ProcEvent)
    (code : option Z) (st : RunState) : Prop :=
  run_child epubDir save now_json = (pre ++ [CloseEvent code])%list
  ∧ run_deliver epubDir save now_json now_protect fs pre = Some st
  ∧ st_settled st = None.



(** The child works: it changes files and writes to standard error. *)
Definition is_quiet (ev : ProcEvent) : bool :=
  match ev with
  | ToolStep _ | StderrData _ => true
  | _ => false
  end.


(** A child that exits by itself with exit code [c], no ['error']
    before. *)
Definition exited_child (evs pre : list ProcEvent) (c : Z) : Prop :=
  evs = (pre ++ [CloseEvent (Some c)])%list
  ∧ forallb is_quiet pre = true.

(** The same for [generateOnly]. *)
Definition generateOnly_args (epubDir : string) : list string :=
  ["-jar"; jarPath cfg; "-mode"; "exp"; epubDir; "--save"].

Definition generateOnly_child (epubDir : string) : list ProcEvent :=
  spawn (javaPath cfg) (generateOnly_args epubDir) (timeout cfg * 1000).

Definition generateOnly_protect (epubDir : string) (now_protect : Z)
    (fs : FS) : option string * FS :=
  protectExistingEpub (Some (getDefaultEpubPath epubDir)) now_protect fs.

Definition generateOnly_deliver (epubDir : string) (now_protect : Z)
    (fs : FS) (evs : list ProcEvent) : option RunState :=
  let '(protectedPath, fs1) := generateOnly_protect epubDir now_protect fs in
  deliver
    (generateOnly_on_close cfg epubDir (getDefaultEpubPath epubDir)
       protectedPath)
    (generateOnly_on_error cfg epubDir)
    evs (mkState "" false None fs1).

Definition generateOnly_closes_after (epubDir : string) (now_protect : Z)
    (fs : FS) (pre : list ProcEvent) (code : option Z) (st : RunState)
    : Prop :=
  generateOnly_child epubDir = (pre ++ [CloseEvent code])%list
  ∧ generateOnly_deliver epubDir now_protect fs pre = Some st
  ∧ st_settled st = None.

End Run.

(** Where [run] looks for the artifact once the result file has been
    parsed and removed. *)
Definition located (epubDir : string) (save : bool)
    (dflt protectedPath : option string) (fs : FS)
    : option (option string * FS) :=
  if save then findGeneratedEpub epubDir dflt protectedPath fs
  else Some (None, fs).

(** The outcome of a completed run, when its promise was resolved. *)
Definition outcome (r : option (option ValidationResult * FS))
    : option ValidationResult :=
  r ≫= fst.

Definition final_fs (r : option (option ValidationResult * FS)) : option FS :=
  snd <$> r.

End RunnerSpec.

(** ** A small world for the examples *)

Module Demo.
Import EpubCheckRunner.

Definition cfg : Settings := mkSettings "/opt/epubcheck.jar" "java" 120.
Definition tmpdir : string := "/tmp".
Definition project : string := "/books/my-book".
Definition canonical : string := "/books/my-book.epub".
Definition inside : string := "/books/my-book/my-book.epub".
Definition json : string := "/tmp/epubcheck-1700000000000.json".
Definition backup : string := "/books/.epubcheck-protect-1700000000000.epub".
Definition t0 : Z := 1700000000000.

Definition checker : EpubCheckChecker :=
  mkChecker "epubcheck" (Some "5.1.0") None.

Definition clean_result : EpubCheckResult := mkResult checker [].

Definition failing_result : EpubCheckResult :=
  mkResult checker
    [ mkMessage "RSC-005" "ERROR" "Error while parsing file" 0
        [ mkLocation "OEBPS/ch1.xhtml" (JsNumber.of_Z 5) (JsNumber.of_Z 3)
          None ] None;
      mkMessage "OPF-003" "USAGE" "Item not referenced" 0 [] None ].

(** A stand-in for [JSON.parse] that knows two documents. *)
Definition parse (text : string) : Try EpubCheckResult :=
  if String.eqb text "{clean}" then Ok clean_result
  else if String.eqb text "{errors}" then Ok failing_result
  else Threw "SyntaxError".

(** File systems: an empty project, and one with an artifact already at
    the canonical path. *)
Definition fs_empty : FS := mkFS ∅ ∅ ∅.
Definition fs_original : FS := mkFS {[ canonical := "ORIGINAL" ]} ∅ ∅.

Definition write (p content : string) (fs : FS) : FS :=
  mkFS (<[p := content]> (files fs)) (refused fs) (locked fs).

(** Children: each is what one run of the external tool does. *)
Definition child (evs : list ProcEvent) : string → list string → Z → list ProcEvent :=
  λ _ _ _, evs.

(** killed by the timeout before it wrote anything *)
Definition killed : list ProcEvent := [CloseEvent None].
(** validates cleanly and writes the artifact inside the project *)
Definition packs_inside (code : Z) : list ProcEvent :=
  [ToolStep (write json "{clean}"); ToolStep (write inside "NEW");
   CloseEvent (Some code)].
(** reports errors, writes the result file and no artifact *)
Definition reports_errors : list ProcEvent :=
  [ToolStep (write json "{errors}"); CloseEvent (Some 1)].
(** crashes: no result file, a message on standard error *)
Definition crashes : list ProcEvent :=
  [StderrData "Exception in thread main"; CloseEvent (Some 1)].
(** exits without writing anything *)
Definition silent (code : Z) : list ProcEvent := [CloseEvent (Some code)].
(** writes the artifact at the canonical path *)
Definition packs_sibling (code : Z) : list ProcEvent :=
  [ToolStep (write canonical "NEW"); CloseEvent (Some code)].
(** writes a result file, then is killed *)
Definition killed_late : list ProcEvent :=
  [ToolStep (write json "{clean}"); CloseEvent None].
(** cannot be started: Node reports ENOENT and closes with a negative
    code *)
Definition java_missing : list ProcEvent :=
  [ErrorEvent (mkSpawnError (Some "ENOENT") false "spawn java ENOENT");
   CloseEvent (Some (-2))].


(** The file system once the artifact of [fs_original] has been set aside. *)
Definition fs_backup : FS := mkFS {[ backup := "ORIGINAL" ]} ∅ ∅.

(** States in which ['close'] finds the promise, after the events that
    precede it in the children above. *)
Definition st_packed : RunState :=
  mkState "" false None (write inside "NEW" (write json "{clean}" fs_backup)).
Definition st_killed_late : RunState :=
  mkState "" false None (write json "{clean}" fs_backup).

Definition before_close (evs : list ProcEvent) : list ProcEvent :=
  removelast evs.

(** A file system from a listing, with no rename refused. *)
Definition dir_with (entries : list (string * string)) : FS :=
  mkFS (list_to_map entries) ∅ ∅.

End Demo.

(** ** Further vocabulary *)

Module OutcomeSpec.
Import EpubCheckRunner.

(** The name [protectExistingEpub] gives the backup of [p]. *)
Definition hiddenName (p : string) (now : Z) : string :=
  Path.join (Path.dirname p)
    (".epubcheck-protect-" +:+ pretty now +:+ Path.extname p).

(** What an outcome of [run] looks like: either it carries a parsed result
    and no error, and [success] says that no message is FATAL or ERROR; or
    it is a failure with a non-empty error text and nothing else. *)
Definition run_shaped (epubDir : string) (save : bool) (r : ValidationResult)
    : Prop :=
  epubDir_of r = epubDir
  ∧ match epubCheckResult r with
    | Some checked =>
        error r = None
        ∧ success r = negb (existsb isErrorSeverity (res_messages checked))
        ∧ (save = false → epubOutputPath r = None)
    | None =>
        success r = false
        ∧ epubOutputPath r = None
        ∧ ∃ e, error r = Some e ∧ e ≠ ""
    end.

(** What an outcome of [generateOnly] looks like. *)
Definition generate_shaped (epubDir : string) (r : ValidationResult) : Prop :=
  epubDir_of r = epubDir
  ∧ epubCheckResult r = None
  ∧ (success r = true ↔ is_Some (epubOutputPath r))
  ∧ (success r = true → error r = None)
  ∧ (success r = false → ∃ e, error r = Some e ∧ e ≠ "").

Definition is_tool_step (ev : ProcEvent) : bool :=
  match ev with
  | ToolStep _ => true
  | _ => false
  end.

Definition is_close (ev : ProcEvent) : bool :=
  match ev with
  | CloseEvent _ => true
  | _ => false
  end.

(** A step of the external tool that leaves every path but [p] alone. *)
Definition writes_only (p : string) (ev : ProcEvent) : Prop :=
  match ev with
  | ToolStep f => ∀ fs x, x ≠ p → files (f fs) !! x = files fs !! x
  | _ => True
  end.

(** How the value of the promise may change in one step: not at all, or
    from pending to a value that satisfies [shaped]. *)
Definition settles (shaped : ValidationResult → Prop)
    (old new : option ValidationResult) : Prop :=
  new = old ∨ (old = None ∧ ∃ r, new = Some r ∧ shaped r).

End OutcomeSpec.

Module CollectionSpec.
Import DiagnosticsProvider DiagnosticsCollection.

Definition Entry : Type := (string * EpubCheckMessage * EpubCheckLocation)%type.

(** One entry per location, in the order the three loops of
    [updateDiagnostics] visit them. *)
Definition entries (results : list ValidationResult) : list Entry :=
  flat_map
    (λ r, match epubCheckResult r with
          | None => []
          | Some checked =>
              flat_map
                (λ m, map (λ l, (epubDir_of r, m, l)) (msg_locations m))
                (res_messages checked)
          end)
    results.

Definition filePath_of (e : Entry) : string :=
  Path.join e.1.1 (loc_path e.2).

(** A location as EPUBCheck writes it: its line and its column are
    integers, and safe ones. *)
Definition integral (location : EpubCheckLocation) : Prop :=
  ∃ l c : Z,
    NumberSpec.safe_integer l ∧ NumberSpec.safe_integer c
    ∧ location = DiagnosticsSpec.location_at (loc_path location) l c
                   (loc_context location).

Definition integral_results (results : list ValidationResult) : Prop :=
  Forall (λ e : Entry, integral e.2) (entries results).

(** The diagnostic of an entry, with the file read afresh. *)
Definition expected (fs : FS) (e : Entry) : option Diagnostic :=
  match createDiagnostic e.1.2 e.2 (readFileLines fs (filePath_of e)) with
  | Ok d => Some d
  | Threw _ => None
  end.

(** The three loops as one. *)
Fixpoint visit_entries (uri_of_file : string → string) (fs : FS)
    (es : list Entry) (st : Pass) : Try Pass :=
  match es with
  | [] => Ok st
  | e :: rest =>
      st' ← visit_location uri_of_file fs e.1.1 e.1.2 e.2 st;
      visit_entries uri_of_file fs rest st'
  end.

Definition keys {V : Type} (m : JsMap.t V) : list string := map fst m.

Definition all_diagnostics (m : JsMap.t (list Diagnostic)) : list Diagnostic :=
  List.concat (map snd m).

(** The entries whose file has the URI [uri]. *)
Definition at_uri (uri_of_file : string → string) (uri : string)
    (es : list Entry) : list Entry :=
  filter (λ e, uri_of_file (filePath_of e) = uri) es.

(** What holds of the two maps once the entries [done] have been
    visited. *)
Definition pass_invariant (uri_of_file : string → string) (fs : FS)
    (done : list Entry) (st : Pass) : Prop :=
  NoDup (keys (diagnosticsMap st))
  ∧ (∀ uri ds, JsMap.get (diagnosticsMap st) uri = Some ds →
       ds = omap (expected fs) (at_uri uri_of_file uri done)
       ∧ at_uri uri_of_file uri done ≠ [])
  ∧ (∀ e, e ∈ done →
       is_Some (JsMap.get (diagnosticsMap st) (uri_of_file (filePath_of e))))
  ∧ (∀ p v, JsMap.get (fileLinesCache st) p = Some v → v = readFileLines fs p)
  ∧ all_diagnostics (diagnosticsMap st) ≡ₚ omap (expected fs) done.

End CollectionSpec.

Module BatchSpec.
Import EpubCheckRunner.

Global Instance severity_eq_dec : EqDecision DiagnosticSeverity.
Proof. solve_decision. Defined.

(** The messages of the results that carry a parsed result. *)
Definition messages_of (results : list ValidationResult)
    : list EpubCheckMessage :=
  flat_map
    (λ r, match epubCheckResult r with
          | None => []
          | Some checked => res_messages checked
          end)
    results.

Definition count_severity (s : DiagnosticSeverity) (ds : list Diagnostic)
    : nat :=
  List.length (filter (λ d, diag_severity d = s) ds).

(** The message is shown at level [s]. *)
Definition has_level (s : DiagnosticSeverity) (m : EpubCheckMessage) : bool :=
  bool_decide (DiagnosticsProvider.mapSeverity (msg_severity m) = s).

Definition isWarningSeverity (m : EpubCheckMessage) : bool :=
  String.eqb (msg_severity m) "WARNING".

(** The messages that satisfy [q], each counted [w] times. *)
Definition weighted (q : EpubCheckMessage → bool) (w : EpubCheckMessage → nat)
    (msgs : list EpubCheckMessage) : nat :=
  sum_list_with (λ m, if q m then w m else 0%nat) msgs.

Definition locationCount (m : EpubCheckMessage) : nat :=
  Nat.max 1 (List.length (msg_locations m)).

Definition execution_failed (r : ValidationResult) : bool :=
  match epubCheckResult r with
  | None => negb (falsy (error r))
  | Some _ => false
  end.

Definition located_weight (m : EpubCheckMessage) : nat :=
  List.length (msg_locations m).

(** Counted once by [countMessages], though no diagnostic is made. *)
Definition unlocated_weight (m : EpubCheckMessage) : nat :=
  if bool_decide (msg_locations m = []) then 1%nat else 0%nat.

Definition isRecognisedSeverity (m : EpubCheckMessage) : bool :=
  bool_decide (msg_severity m ∈ ["FATAL"; "ERROR"; "WARNING"; "USAGE"; "INFO"]).

Definition isUnrecognisedSeverity (m : EpubCheckMessage) : bool :=
  negb (isRecognisedSeverity m).

(** Results whose messages all have a location. *)
Definition sample_results : list ValidationResult :=
  [ mkValidation false "/books/my-book"
      (Some (mkResult (mkChecker "epubcheck" None None)
               [ mkMessage "RSC-005" "ERROR" "Error while parsing file" 0
                   [ DiagnosticsSpec.location_at "OEBPS/ch1.xhtml" 5 3 None;
                     DiagnosticsSpec.location_at "OEBPS/ch2.xhtml" 7 1 None ] None;
                 mkMessage "OPF-014" "WARNING" "Property should be declared" 0
                   [ DiagnosticsSpec.location_at "OEBPS/content.opf" 2 2 None ] None ]))
      None None;
    mkValidation false "/books/other" None (Some "EPUBCheck timed out") None ].

Definition passed_text : string :=
  "EPUBCheck: Validation passed with no errors or warnings.".

End BatchSpec.

Module TextSpec.

(** Only white space. *)
Fixpoint blank (s : string) : bool :=
  match s with
  | EmptyString => true
  | String c r => isWhiteSpace c && blank r
  end.

(** Begins with a character that is not white space. *)
Definition starts_solid (s : string) : bool :=
  match s with
  | EmptyString => false
  | String c _ => negb (isWhiteSpace c)
  end.

Definition ends_solid (s : string) : bool := starts_solid (String.rev s).

(** The mimetype files of a list of directories. *)
Definition mimetype_files (dirs : list string) : list string :=
  map (λ d, Path.join d "mimetype") dirs.

End TextSpec.
(** * Properties of the numbers *)

Module JsNumberFacts.
Import JsNumber NumberSpec.


(** ** Shifts *)

Lemma iter_pos_nat {A : Type} (f : A → A) (p : positive) (x : A) :
  iter_pos f p x = Nat.iter (Pos.to_nat p) f x.
Proof.
  revert x. induction p as [p IH|p IH|]; intros x; cbn [iter_pos].
  - rewrite !IH, Pos2Nat.inj_xI, <- Nat.iter_add.
    replace (S (2 * Pos.to_nat p)) with (S (Pos.to_nat p + Pos.to_nat p))%nat by lia.
    by rewrite Nat.iter_succ_r.
  - rewrite !IH, Pos2Nat.inj_xO, <- Nat.iter_add.
    f_equal. lia.
  - done.
Qed.

Lemma pos_iter_nat {A : Type} (f : A → A) (p : positive) (x : A) :
  Pos.iter f x p = Nat.iter (Pos.to_nat p) f x.
Proof.
  revert x. induction p as [p IH|p IH|]; intros x; cbn [Pos.iter].
  - rewrite !IH, Pos2Nat.inj_xI, <- Nat.iter_add.
    replace (S (2 * Pos.to_nat p)) with (S (Pos.to_nat p + Pos.to_nat p))%nat by lia.
    done.
  - rewrite !IH, Pos2Nat.inj_xO, <- Nat.iter_add.
    f_equal. lia.
  - done.
Qed.

Lemma iter_xO (n : nat) (m : positive) :
  Z.pos (Nat.iter n xO m) = Z.pos m * 2 ^ Z.of_nat n.
Proof.
  induction n as [|n IH]; [simpl; lia|].
  rewrite Nat2Z.inj_succ, Z.pow_succ_r by lia.
  change (Nat.iter (S n) xO m) with (xO (Nat.iter n xO m)).
  rewrite Pos2Z.inj_xO, IH. lia.
Qed.

Lemma digits2_pos_size (p : positive) : digits2_pos p = Pos.size p.
Proof. induction p; simpl; congruence. Qed.

Lemma digits2_log2 (p : positive) :
  Z.pos (digits2_pos p) = Z.log2 (Z.pos p) + 1.
Proof.
  rewrite digits2_pos_size.
  destruct p as [p|p|]; simpl; rewrite ?Pos2Z.inj_succ; lia.
Qed.

(** Dropping [n] zero bits is exact. *)
Lemma iter_shr_1_exact (n : nat) (m : positive) :
  Nat.iter n shr_1 (Build_shr_record (Z.pos (Nat.iter n xO m)) false false)
  = Build_shr_record (Z.pos m) false false.
Proof.
  revert m. induction n as [|n IH]; intros m; [done|].
  rewrite Nat.iter_succ_r.
  change (Nat.iter (S n) xO m) with (xO (Nat.iter n xO m)).
  cbn [shr_1 orb]. apply IH.
Qed.

Lemma shr_exact (m p : positive) (e n : Z) :
  0 ≤ n → Z.pos p = Z.pos m * 2 ^ n →
  shr (Build_shr_record (Z.pos p) false false) e n
  = (Build_shr_record (Z.pos m) false false, e + n).
Proof.
  intros Hn Hp. destruct n as [|q|q]; [| |lia].
  - simpl. rewrite Z.add_0_r. do 2 f_equal. lia.
  - cbn [shr]. f_equal. rewrite iter_pos_nat.
    assert (p = Nat.iter (Pos.to_nat q) xO m) as ->.
    { apply Pos2Z.inj. rewrite iter_xO, positive_nat_Z. done. }
    apply iter_shr_1_exact.
Qed.


Lemma fexp_normal (d : Z) : -1021 ≤ d → fexp prec emax d = d - 53.
Proof. intros Hd. unfold fexp, emin, prec, emax. lia. Qed.

Lemma log2_53_bits (m : Z) : 2 ^ 52 ≤ m < 2 ^ 53 → Z.log2 m = 52.
Proof. intros Hm. apply Z.log2_unique; [lia|]. exact Hm. Qed.

Lemma log2_le_53 (w : Z) : w ≤ 2 ^ 53 → Z.log2 w ≤ 53.
Proof.
  intros Hw. rewrite <- (Z.log2_pow2 53) by lia. by apply Z.log2_le_mono.
Qed.

(** ** The mantissa of an integer *)

Lemma mantissa_spec (w : Z) :
  1 ≤ w ≤ 2 ^ 53 →
  Z.pos (mantissa w) * 2 ^ Z.log2 w = w * 2 ^ 52
  ∧ 2 ^ 52 ≤ Z.pos (mantissa w) < 2 ^ 53.
Proof.
  intros Hw.
  pose proof (Z.log2_nonneg w) as HL0.
  destruct (Z.log2_spec w) as [Hlo Hhi]; [lia|].
  assert (HL : Z.log2 w ≤ 53) by (apply log2_le_53; lia).
  assert (Hpos : 0 < 2 ^ Z.log2 w) by (apply Z.pow_pos_nonneg; lia).
  assert (Hdiv : (w * 2 ^ 52 / 2 ^ Z.log2 w) * 2 ^ Z.log2 w = w * 2 ^ 52).
  { destruct (decide (Z.log2 w ≤ 52)) as [Hle|Hgt].
    - replace (2 ^ 52) with (2 ^ (52 - Z.log2 w) * 2 ^ Z.log2 w)
        by (rewrite <- Z.pow_add_r by lia; f_equal; lia).
      rewrite Z.mul_assoc, Z.div_mul by lia. done.
    - assert (Z.log2 w = 53) as HL53 by lia. rewrite HL53 in *.
      assert (w = 2 ^ 53) as -> by lia. reflexivity. }
  assert (Hm : 2 ^ 52 ≤ w * 2 ^ 52 / 2 ^ Z.log2 w < 2 ^ 53).
  { replace (Z.succ (Z.log2 w)) with (Z.log2 w + 1) in Hhi by lia.
    rewrite Z.pow_add_r in Hhi by lia. nia. }
  unfold mantissa. rewrite Z2Pos.id by lia. done.
Qed.

(** ** Rounding a value that needs none *)

Lemma binary_round_aux_exact (s : bool) (p m : positive) (e n : Z) :
  2 ^ 52 ≤ Z.pos m < 2 ^ 53 → 0 ≤ n → Z.pos p = Z.pos m * 2 ^ n →
  -1074 ≤ e + n ≤ 971 →
  binary_round_aux prec emax s (Z.pos p) e loc_Exact = S754_finite s m (e + n).
Proof.
  intros Hm Hn Hp He.
  assert (Hdm : Zdigits2 (Z.pos m) = 53).
  { cbn [Zdigits2]. rewrite digits2_log2, log2_53_bits by done. done. }
  assert (Hdp : Zdigits2 (Z.pos p) = 53 + n).
  { cbn [Zdigits2]. rewrite digits2_log2, Hp, Z.log2_mul_pow2 by lia.
    rewrite log2_53_bits by done. lia. }
  assert (H1 : shr_fexp prec emax (Z.pos p) e loc_Exact
               = (Build_shr_record (Z.pos m) false false, e + n)).
  { unfold shr_fexp. rewrite Hdp, fexp_normal by lia.
    cbn [shr_record_of_loc].
    replace (53 + n + e - 53 - e) with n by lia. by apply shr_exact. }
  assert (H2 : shr_fexp prec emax (Z.pos m) (e + n) loc_Exact
               = (Build_shr_record (Z.pos m) false false, e + n)).
  { unfold shr_fexp. rewrite Hdm, fexp_normal by lia.
    cbn [shr_record_of_loc].
    replace (53 + (e + n) - 53 - (e + n)) with 0 by lia. done. }
  unfold binary_round_aux. rewrite H1.
  cbn [shr_m loc_of_shr_record round_nearest_even]. rewrite H2.
  cbn [shr_m]. unfold emax, prec.
  by rewrite (proj2 (Z.leb_le (e + n) (1024 - 53))) by lia.
Qed.

Lemma binary_round_exact (s : bool) (p : positive) (k w : Z) :
  1 ≤ w ≤ 2 ^ 53 → 0 ≤ k → Z.pos p = w * 2 ^ k →
  binary_round prec emax s p (- k) = S754_finite s (mantissa w) (exponent w).
Proof.
  intros Hw Hk Hp.
  destruct (mantissa_spec w Hw) as [HM Hm].
  pose proof (Z.log2_nonneg w) as HL0.
  assert (HL : Z.log2 w ≤ 53) by (apply log2_le_53; lia).
  assert (Hd : Z.pos (digits2_pos p) = Z.log2 w + k + 1).
  { rewrite digits2_log2, Hp, Z.log2_mul_pow2 by lia. lia. }
  unfold binary_round. rewrite Hd, fexp_normal by lia.
  unfold shl_align.
  destruct (Z.log2 w + k + 1 + - k - 53 - - k) as [|q|d] eqn:Hz.
  1, 2: replace (exponent w) with (- k + (Z.log2 w - 52 + k))
      by (unfold exponent; lia).
  1, 2: apply binary_round_aux_exact; [done|lia| |lia].
  1, 2: apply (Z.mul_cancel_r _ _ (2 ^ 52)); [lia|].
  1, 2: rewrite <- Z.mul_assoc, <- Z.pow_add_r by lia.
  1, 2: replace (Z.log2 w - 52 + k + 52) with (Z.log2 w + k) by lia.
  1, 2: rewrite Z.pow_add_r, Z.mul_assoc, HM, Hp by lia; lia.
  replace (exponent w) with (Z.log2 w + k + 1 + - k - 53 + 0)
    by (unfold exponent; lia).
  apply binary_round_aux_exact; [done|lia| |lia].
  rewrite Z.mul_1_r, pos_iter_nat, iter_xO, positive_nat_Z, Hp.
  assert (Z.pos d = 52 - Z.log2 w - k) as -> by lia.
  apply (Z.mul_cancel_r _ _ (2 ^ Z.log2 w)); [lia|].
  rewrite HM, <- !Z.mul_assoc, <- !Z.pow_add_r by lia.
  f_equal. f_equal. lia.
Qed.

Lemma of_Z_canonical (a : Z) : representable a → of_Z a = canonical a.
Proof.
  intros [Hlo Hhi]. unfold of_Z, binary_normalize.
  destruct a as [|p|p]; [done| |].
  - apply (binary_round_exact false p 0 (Z.pos p)); lia.
  - apply (binary_round_exact true p 0 (Z.pos p)); lia.
Qed.


Lemma canonical_one : canonical 1 = S754_finite false 4503599627370496 (-52).
Proof. reflexivity. Qed.

Lemma one_canonical : one = canonical 1.
Proof. reflexivity. Qed.

Lemma exponent_bounds (w : Z) : 1 ≤ w ≤ 2 ^ 53 → -52 ≤ exponent w ≤ 1.
Proof.
  intros Hw. unfold exponent.
  pose proof (Z.log2_nonneg w). pose proof (log2_le_53 w). lia.
Qed.

Lemma mantissa_value (w : Z) :
  1 ≤ w ≤ 2 ^ 53 → Z.pos (mantissa w) * 2 ^ (exponent w + 52) = w * 2 ^ 52.
Proof.
  intros Hw. unfold exponent.
  replace (Z.log2 w - 52 + 52) with (Z.log2 w) by lia.
  by apply mantissa_spec.
Qed.

(** ** Alignment *)

Lemma shl_align_value (mx : positive) (ex ez : Z) :
  ez ≤ ex → Z.pos (shl_align mx ex ez).1 = Z.pos mx * 2 ^ (ex - ez).
Proof.
  intros Hle. unfold shl_align.
  destruct (ez - ex) as [|q|d] eqn:Hz; [|lia|].
  - replace (ex - ez) with 0 by lia. simpl. lia.
  - cbn [fst]. rewrite pos_iter_nat, iter_xO, positive_nat_Z.
    f_equal. f_equal. lia.
Qed.

Lemma normalize_scaled (w : Z) :
  representable w → binary_normalize prec emax (w * 2 ^ 52) (-52) false = canonical w.
Proof.
  intros [Hlo Hhi]. unfold binary_normalize.
  destruct (w * 2 ^ 52) as [|p|p] eqn:Hp.
  - assert (w = 0) as -> by lia. done.
  - destruct w as [|q|q]; [lia| |lia].
    apply (binary_round_exact false p 52 (Z.pos q)); lia.
  - destruct w as [|q|q]; [lia|lia|].
    apply (binary_round_exact true p 52 (Z.pos q)); lia.
Qed.

(** The integer a canonical number stands for, scaled by [2 ^ 52]. *)
Lemma aligned_value (a : Z) s m e :
  representable a → canonical a = S754_finite s m e →
  -52 ≤ e ∧ cond_Zopp s (Z.pos (shl_align m e (-52)).1) = a * 2 ^ 52.
Proof.
  intros [Hlo Hhi] Hc. destruct a as [|p|p]; [done| |].
  - injection Hc as <- <- <-.
    pose proof (exponent_bounds (Z.pos p)). split; [lia|].
    rewrite shl_align_value by lia. cbn [cond_Zopp].
    replace (exponent (Z.pos p) - -52) with (exponent (Z.pos p) + 52) by lia.
    apply mantissa_value. lia.
  - injection Hc as <- <- <-.
    pose proof (exponent_bounds (Z.pos p)). split; [lia|].
    rewrite shl_align_value by lia. cbn [cond_Zopp].
    replace (exponent (Z.pos p) - -52) with (exponent (Z.pos p) + 52) by lia.
    rewrite mantissa_value by lia. lia.
Qed.

(** ** Adding and subtracting 1 *)

Lemma sub_one (a : Z) :
  representable a → representable (a - 1) → sub (of_Z a) one = of_Z (a - 1).
Proof.
  intros Ha Ha'. rewrite !of_Z_canonical, one_canonical by done.
  destruct (canonical a) as [s| | |s m e] eqn:Hc.
  - destruct a; [|done|done]. injection Hc as <-. reflexivity.
  - by destruct a.
  - by destruct a.
  - destruct (aligned_value a s m e Ha Hc) as [He Hv].
    rewrite canonical_one. unfold sub, SFsub.
    rewrite (Z.min_r e (-52)) by lia. rewrite Hv. cbn [cond_Zopp shl_align Z.sub Z.add Z.opp Z.pos_sub fst].
    change (Z.pos (shl_align 4503599627370496 (-52) (-52)).1) with (2 ^ 52).
    replace (a * 2 ^ 52 - 2 ^ 52) with ((a - 1) * 2 ^ 52) by lia.
    by apply normalize_scaled.
Qed.

Lemma add_one (a : Z) :
  representable a → representable (a + 1) → add (of_Z a) one = of_Z (a + 1).
Proof.
  intros Ha Ha'. rewrite !of_Z_canonical, one_canonical by done.
  destruct (canonical a) as [s| | |s m e] eqn:Hc.
  - destruct a; [|done|done]. injection Hc as <-. reflexivity.
  - by destruct a.
  - by destruct a.
  - destruct (aligned_value a s m e Ha Hc) as [He Hv].
    rewrite canonical_one. unfold add, SFadd.
    rewrite (Z.min_r e (-52)) by lia. rewrite Hv.
    change (Z.pos (shl_align 4503599627370496 (-52) (-52)).1) with (2 ^ 52).
    cbn [cond_Zopp].
    replace (a * 2 ^ 52 + 2 ^ 52) with ((a + 1) * 2 ^ 52) by lia.
    by apply normalize_scaled.
Qed.


(** ** Order *)

Lemma compare_scale (a b c : Z) : 0 < c → (a * c ?= b * c) = (a ?= b).
Proof.
  intros Hc. destruct (Z.compare_spec a b) as [->|Hlt|Hgt].
  - apply Z.compare_refl.
  - apply Z.compare_lt_iff. nia.
  - apply Z.compare_gt_iff. nia.
Qed.

Lemma compare_positive (a b : Z) :
  1 ≤ a ≤ 2 ^ 53 → 1 ≤ b ≤ 2 ^ 53 →
  match exponent a ?= exponent b with
  | Lt => Lt
  | Gt => Gt
  | Eq => Pos.compare_cont Eq (mantissa a) (mantissa b)
  end = (a ?= b).
Proof.
  intros Ha Hb.
  destruct (mantissa_spec a Ha) as [HMa _].
  destruct (mantissa_spec b Hb) as [HMb _].
  destruct (Z.log2_spec a) as [Halo Hahi]; [lia|].
  destruct (Z.log2_spec b) as [Hblo Hbhi]; [lia|].
  pose proof (Z.log2_nonneg a). pose proof (Z.log2_nonneg b).
  unfold exponent.
  destruct (Z.compare_spec (Z.log2 a - 52) (Z.log2 b - 52)) as [Heq|Hlt|Hgt].
  - assert (Z.log2 a = Z.log2 b) as HL by lia. rewrite HL in HMa.
    change (Pos.compare_cont Eq (mantissa a) (mantissa b))
      with (Z.pos (mantissa a) ?= Z.pos (mantissa b)).
    rewrite <- (compare_scale _ _ (2 ^ Z.log2 b)) by lia.
    rewrite HMa, HMb. apply compare_scale. lia.
  - symmetry. apply Z.compare_lt_iff.
    assert (2 ^ Z.succ (Z.log2 a) ≤ 2 ^ Z.log2 b)
      by (apply Z.pow_le_mono_r; lia).
    lia.
  - symmetry. apply Z.compare_gt_iff.
    assert (2 ^ Z.succ (Z.log2 b) ≤ 2 ^ Z.log2 a)
      by (apply Z.pow_le_mono_r; lia).
    lia.
Qed.

Lemma compare_canonical (a b : Z) :
  representable a → representable b → SFcompare (canonical a) (canonical b) = Some (a ?= b).
Proof.
  intros [Hal Hah] [Hbl Hbh].
  destruct a as [|p|p], b as [|q|q]; try reflexivity.
  - cbn [canonical SFcompare]. f_equal.
    apply compare_positive; lia.
  - cbn [canonical SFcompare]. f_equal.
    change (Z.neg p ?= Z.neg q) with (CompOpp (Z.pos p ?= Z.pos q)).
    rewrite <- (compare_positive (Z.pos p) (Z.pos q)) by lia.
    by destruct (exponent (Z.pos p) ?= exponent (Z.pos q)).
Qed.

(** ** Numbers beyond the representable integers *)

Lemma shr_1_m (mrs : shr_record) :
  0 ≤ shr_m mrs → shr_m (shr_1 mrs) = shr_m mrs / 2.
Proof.
  destruct mrs as [m r s]. cbn [shr_m]. intros Hm.
  rewrite <- Z.div2_div. by destruct m as [|[p|p|]|p].
Qed.

Lemma iter_shr_1_m (n : nat) (mrs : shr_record) :
  0 ≤ shr_m mrs →
  shr_m (Nat.iter n shr_1 mrs) = shr_m mrs / 2 ^ Z.of_nat n.
Proof.
  intros Hm. induction n as [|n IH]; [by rewrite Z.div_1_r|].
  change (Nat.iter (S n) shr_1 mrs) with (shr_1 (Nat.iter n shr_1 mrs)).
  rewrite shr_1_m, IH.
  - rewrite Nat2Z.inj_succ, Z.pow_succ_r, Z.div_div by lia.
    f_equal. lia.
  - rewrite IH. apply Z.div_pos; lia.
Qed.

Lemma shr_m_value (mrs : shr_record) (e n : Z) :
  0 ≤ shr_m mrs → 0 ≤ n →
  ∃ mrs', shr mrs e n = (mrs', e + n) ∧ shr_m mrs' = shr_m mrs / 2 ^ n.
Proof.
  intros Hm Hn. destruct n as [|q|q]; [| |lia].
  - exists mrs. rewrite Z.add_0_r, Z.div_1_r. done.
  - eexists. split; [reflexivity|].
    rewrite iter_pos_nat, iter_shr_1_m, positive_nat_Z by done. done.
Qed.

Lemma round_nearest_even_bounds (m : Z) (l : location) :
  m ≤ round_nearest_even m l ≤ m + 1.
Proof.
  destruct l as [|[| |]]; cbn [round_nearest_even]; try lia.
  destruct (Z.even m); lia.
Qed.

(** Rounding a positive value of at least 53 bits. *)
Lemma binary_round_aux_beyond (s : bool) (p : positive) (e : Z) :
  let d := Z.log2 (Z.pos p) + 1 in
  53 ≤ d → -1074 ≤ e + d - 53 →
  beyond s (e + d - 53) (binary_round_aux prec emax s (Z.pos p) e loc_Exact).
Proof.
  intros d Hd He.
  destruct (Z.log2_spec (Z.pos p)) as [Hlo Hhi]; [lia|].
  replace (Z.succ (Z.log2 (Z.pos p))) with d in Hhi by (unfold d; lia).
  replace (Z.log2 (Z.pos p)) with (d - 1) in Hlo by (unfold d; lia).
  assert (Hdp : Zdigits2 (Z.pos p) = d).
  { cbn [Zdigits2]. by rewrite digits2_log2. }
  destruct (shr_m_value (Build_shr_record (Z.pos p) false false) e (d - 53))
    as (mrs1 & H1 & Hm1); [done|lia|]. cbn [shr_m] in Hm1.
  assert (Hb1 : 2 ^ 52 ≤ shr_m mrs1 < 2 ^ 53).
  { rewrite Hm1.
    assert (0 < 2 ^ (d - 53)) by (apply Z.pow_pos_nonneg; lia).
    assert (2 ^ (d - 1) = 2 ^ 52 * 2 ^ (d - 53)) as Hs1
      by (rewrite <- Z.pow_add_r by lia; f_equal; lia).
    assert (2 ^ d = 2 ^ 53 * 2 ^ (d - 53)) as Hs2
      by (rewrite <- Z.pow_add_r by lia; f_equal; lia).
    split.
    - apply Z.div_le_lower_bound; lia.
    - apply Z.div_lt_upper_bound; lia. }
  pose proof (round_nearest_even_bounds (shr_m mrs1) (loc_of_shr_record mrs1))
    as Hb2.
  unfold binary_round_aux, shr_fexp. rewrite Hdp, fexp_normal by lia.
  cbn [shr_record_of_loc].
  replace (d + e - 53 - e) with (d - 53) by lia. rewrite H1.
  set (m2 := round_nearest_even (shr_m mrs1) (loc_of_shr_record mrs1)) in *.
  clearbody m2. destruct m2 as [|q|q]; [lia| |lia].
  destruct (decide (Z.pos q < 2 ^ 53)) as [Hlt|Hge].
  - assert (Zdigits2 (Z.pos q) = 53) as ->.
    { cbn [Zdigits2]. rewrite digits2_log2, log2_53_bits by lia. done. }
    rewrite fexp_normal by lia.
    replace (53 + (e + (d - 53)) - 53 - (e + (d - 53))) with 0 by lia.
    cbn [shr shr_m]. destruct (_ <=? _).
    + right. exists q, (e + (d - 53)). split; [done|]. lia.
    + by left.
  - assert (q = 9007199254740992%positive) as -> by lia.
    change (Zdigits2 9007199254740992) with 54.
    rewrite fexp_normal by lia.
    replace (54 + (e + (d - 53)) - 53 - (e + (d - 53))) with 1 by lia.
    cbn [shr iter_pos shr_1 shr_m orb]. destruct (_ <=? _).
    + right. eexists _, _. split; [reflexivity|]. split; [done|lia].
    + by left.
Qed.


Lemma log2_above (a : Z) (k : Z) : 0 ≤ k → 2 ^ k ≤ a → k ≤ Z.log2 a.
Proof.
  intros Hk Ha. rewrite <- (Z.log2_pow2 k) by done.
  by apply Z.log2_le_mono.
Qed.

Lemma binary_round_beyond (s : bool) (p : positive) (e : Z) :
  let d := Z.log2 (Z.pos p) + 1 in
  53 ≤ d → -1074 ≤ e + d - 53 →
  beyond s (e + d - 53) (binary_round prec emax s p e).
Proof.
  intros d Hd He. unfold binary_round.
  rewrite digits2_log2. fold d. rewrite fexp_normal by lia.
  unfold shl_align.
  destruct (d + e - 53 - e) as [|q|q] eqn:Hz; [| |lia].
  - by apply binary_round_aux_beyond.
  - by apply binary_round_aux_beyond.
Qed.

Lemma of_Z_beyond (a : Z) :
  (2 ^ 53 < a → beyond false 1 (of_Z a))
  ∧ (a < - 2 ^ 53 → beyond true 1 (of_Z a)).
Proof.
  unfold of_Z, binary_normalize. split; intros Ha.
  - destruct a as [|p|p]; [lia| |lia].
    pose proof (log2_above (Z.pos p) 53).
    replace 1 with (0 + (Z.log2 (Z.pos p) + 1) - 53 - (Z.log2 (Z.pos p) - 53))
      by lia.
    destruct (binary_round_beyond false p 0) as [Hinf|(m & e & Hf & Hm & He)];
      [lia..|by left|].
    right. exists m, e. split; [done|]. split; [done|]. lia.
  - destruct a as [|p|p]; [lia|lia|].
    pose proof (log2_above (Z.pos p) 53).
    destruct (binary_round_beyond true p 0) as [Hinf|(m & e & Hf & Hm & He)];
      [lia..|by left|].
    right. exists m, e. split; [done|]. split; [done|]. lia.
Qed.

Lemma sub_one_beyond (x : number) :
  (beyond false 1 x → beyond false 0 (sub x one))
  ∧ (beyond true 1 x → beyond true 0 (sub x one)).
Proof.
  split; (intros [->|(m & e & -> & Hm & He)]; [by left|]).
  - unfold sub, SFsub. rewrite one_canonical, canonical_one.
    rewrite (Z.min_r e (-52)) by lia. cbn [cond_Zopp].
    rewrite shl_align_value by lia.
    change (Z.pos (shl_align 4503599627370496 (-52) (-52)).1) with (2 ^ 52).
    assert (Hp : 2 ^ 53 ≤ 2 ^ (e - -52)).
    { apply Z.pow_le_mono_r; lia. }
    unfold binary_normalize.
    destruct (Z.pos m * 2 ^ (e - -52) - 2 ^ 52) as [|p|p] eqn:Hz; [nia| |nia].
    assert (2 ^ 104 ≤ Z.pos p) by nia.
    pose proof (log2_above (Z.pos p) 104).
    destruct (binary_round_beyond false p (-52)) as [Hinf|(m' & e' & Hf & Hm' & He')];
      [lia..|by left|].
    right. exists m', e'. split; [done|]. split; [done|]. lia.
  - unfold sub, SFsub. rewrite one_canonical, canonical_one.
    rewrite (Z.min_r e (-52)) by lia. cbn [cond_Zopp].
    rewrite shl_align_value by lia.
    change (Z.pos (shl_align 4503599627370496 (-52) (-52)).1) with (2 ^ 52).
    assert (Hp : 2 ^ 53 ≤ 2 ^ (e - -52)).
    { apply Z.pow_le_mono_r; lia. }
    unfold binary_normalize.
    destruct (- (Z.pos m * 2 ^ (e - -52)) - 2 ^ 52) as [|p|p] eqn:Hz; [nia|nia|].
    assert (2 ^ 104 ≤ Z.pos p) by nia.
    pose proof (log2_above (Z.pos p) 104).
    destruct (binary_round_beyond true p (-52)) as [Hinf|(m' & e' & Hf & Hm' & He')];
      [lia..|by left|].
    right. exists m', e'. split; [done|]. split; [done|]. lia.
Qed.

Lemma compare_beyond (x : number) (e0 b : Z) :
  beyond false e0 x → representable b → exponent b < e0 ∨ b ≤ 0 →
  SFcompare x (canonical b) = Some Gt
  ∧ SFcompare (canonical b) x = Some Lt.
Proof.
  intros Hx Hb Hlt.
  destruct Hx as [->|(m & e & -> & Hm & He)];
    destruct b as [|p|p]; try done.
  - destruct Hlt as [Hlt|?]; [|lia].
    cbn [canonical SFcompare].
    rewrite (proj2 (Z.compare_gt_iff _ _)) by lia.
    rewrite (proj2 (Z.compare_lt_iff _ _)) by lia. done.
Qed.

Lemma exponent_lt_53 (b : Z) : 1 ≤ b < 2 ^ 53 → exponent b ≤ 0.
Proof.
  intros Hb. unfold exponent.
  assert (Z.log2 b < 53); [|lia]. apply Z.log2_lt_pow2; lia.
Qed.

Lemma exponent_lt_52 (b : Z) : 1 ≤ b < 2 ^ 52 → exponent b < 0.
Proof.
  intros Hb. unfold exponent.
  assert (Z.log2 b < 52); [|lia]. apply Z.log2_lt_pow2; lia.
Qed.

(** Comparing a representable integer below [2 ^ 53] with any integer that is not
    below the representable range. *)
Lemma compare_of_Z (a n : Z) :
  representable a → a < 2 ^ 53 → - 2 ^ 53 ≤ n →
  SFcompare (of_Z a) (of_Z n) = Some (a ?= n)
  ∧ SFcompare (of_Z n) (of_Z a) = Some (n ?= a).
Proof.
  intros Ha Hlt Hn. destruct (decide (n ≤ 2 ^ 53)) as [Hle|Hgt].
  - rewrite !of_Z_canonical by (done || split; lia).
    split; apply compare_canonical; done || split; lia.
  - rewrite (of_Z_canonical a) by done.
    destruct (of_Z_beyond n) as [Hbig _].
    destruct (compare_beyond (of_Z n) 1 a) as [H1 H2]; [apply Hbig; lia|done| |].
    + destruct (decide (a ≤ 0)); [by right|left].
      pose proof (exponent_lt_53 a). lia.
    + rewrite H1, H2. split; f_equal; symmetry.
      * apply Z.compare_lt_iff. lia.
      * apply Z.compare_gt_iff. lia.
Qed.

(** ** [Math.max(0, x)] *)

Lemma Math_max_zero_canonical (w : Z) :
  representable w → Math_max zero (canonical w) = canonical (Z.max 0 w).
Proof.
  intros Hw. unfold Math_max.
  change zero with (canonical 0).
  rewrite compare_canonical by (done || split; lia).
  destruct (Z.compare_spec 0 w) as [<-|Hlt|Hgt].
  - done.
  - by rewrite Z.max_r by lia.
  - by rewrite Z.max_l by lia.
Qed.

Lemma Math_max_zero_beyond (x : number) (e0 : Z) :
  (beyond false e0 x → Math_max zero x = x)
  ∧ (beyond true e0 x → Math_max zero x = zero).
Proof.
  split; intros [->|(m & e & -> & _ & _)]; reflexivity.
Qed.

(** ** Numbers that are integers *)

Lemma to_integer_canonical (a : Z) : representable a → to_integer (canonical a) = Some a.
Proof.
  intros [Hlo Hhi].
  assert (Hpos : ∀ p s, Z.pos p ≤ 2 ^ 53 →
    to_integer (S754_finite s (mantissa (Z.pos p)) (exponent (Z.pos p)))
    = Some (cond_Zopp s (Z.pos p))).
  { intros p s Hp. cbn [to_integer].
    destruct (mantissa_spec (Z.pos p)) as [HM Hm]; [lia|].
    pose proof (Z.log2_nonneg (Z.pos p)) as HL0.
    pose proof (log2_le_53 (Z.pos p) Hp) as HL.
    unfold exponent in *. case_bool_decide as He.
    - f_equal. f_equal.
      apply (Z.mul_cancel_r _ _ (2 ^ 52)); [lia|].
      rewrite <- HM, <- Z.mul_assoc, <- Z.pow_add_r by lia.
      f_equal. f_equal. lia.
    - assert (HMv : Z.pos (mantissa (Z.pos p))
                    = Z.pos p * 2 ^ (- (Z.log2 (Z.pos p) - 52))).
      { apply (Z.mul_cancel_r _ _ (2 ^ Z.log2 (Z.pos p))); [lia|].
        rewrite HM, <- Z.mul_assoc, <- Z.pow_add_r by lia.
        f_equal. f_equal. lia. }
      assert (0 < 2 ^ (- (Z.log2 (Z.pos p) - 52)))
        by (apply Z.pow_pos_nonneg; lia).
      rewrite HMv, Z.mod_mul, Z.div_mul by lia.
      by rewrite bool_decide_eq_true_2. }
  destruct a as [|p|p]; [done| |].
  - apply (Hpos p false). lia.
  - apply (Hpos p true). lia.
Qed.

(** ** What is never negative *)

Lemma binary_round_aux_not_negative mx ex l s' :
  SFltb (binary_round_aux prec emax false mx ex l) (S754_zero s') = false.
Proof.
  unfold binary_round_aux.
  destruct (shr_fexp _ _ _ _ _) as [mrs' e'].
  destruct (shr_fexp _ _ _ _ _) as [mrs'' e''].
  destruct (shr_m mrs''); [done| |done].
  by destruct (_ <=? _).
Qed.

Lemma Math_max_zero_not_negative (x : number) :
  ltb (Math_max zero x) zero = false.
Proof. by destruct x as [[]|[]| |[] m e]. Qed.

Lemma add_one_not_negative (x : number) :
  ltb x zero = false → ltb (add x one) zero = false.
Proof.
  destruct x as [[]|[]| |[] m e]; try done.
  intros _. unfold add, SFadd. rewrite one_canonical, canonical_one.
  cbn [cond_Zopp]. unfold ltb, binary_normalize.
  destruct (_ + _) as [|p|p] eqn:Hz; [done| |lia].
  clear Hz. unfold binary_round. destruct (shl_align p _ _) as [mz ez].
  apply binary_round_aux_not_negative.
Qed.

(** ** The comparisons of the mapper, on integers *)

Lemma ltb_irrefl (x : number) : ltb x x = false.
Proof.
  unfold ltb, SFltb.
  destruct x as [s|[]| |[] m e]; cbn [SFcompare]; try done;
    by rewrite Z.compare_refl, Pos.compare_cont_refl.
Qed.

Lemma ltb_of_Z (a n : Z) :
  representable a → a < 2 ^ 53 → - 2 ^ 53 ≤ n →
  ltb (of_Z a) (of_Z n) = bool_decide (a < n)
  ∧ ltb (of_Z n) (of_Z a) = bool_decide (n < a)
  ∧ leb (of_Z n) (of_Z a) = bool_decide (n ≤ a).
Proof.
  intros Ha Hlt Hn.
  destruct (compare_of_Z a n Ha Hlt Hn) as [H1 H2].
  unfold ltb, leb, SFltb, SFleb. rewrite H1, H2.
  rewrite (Z.compare_antisym a n).
  destruct (Z.compare_spec a n) as [->|Han|Han]; cbn [CompOpp];
    repeat split; symmetry;
    (apply bool_decide_eq_true_2; lia) || (apply bool_decide_eq_false_2; lia).
Qed.

Lemma zero_of_Z : zero = of_Z 0.
Proof. reflexivity. Qed.

Lemma of_Z_not_negative (n : Z) : 0 ≤ n → ltb (of_Z n) zero = false.
Proof.
  intros Hn. rewrite zero_of_Z.
  destruct (ltb_of_Z 0 n) as (_ & -> & _); [by split|lia|lia|].
  apply bool_decide_eq_false_2. lia.
Qed.

(** [Math.max(0, x - 1)] at an integer [x] that is not below [- 2 ^ 53 + 1]. *)
Lemma zero_based (a : Z) :
  - 2 ^ 53 < a ≤ 2 ^ 53 →
  Math_max zero (sub (of_Z a) one) = of_Z (Z.max 0 (a - 1)).
Proof.
  intros Ha. rewrite sub_one by (split; lia).
  rewrite (of_Z_canonical (a - 1)) by (split; lia).
  rewrite Math_max_zero_canonical by (split; lia).
  symmetry. apply of_Z_canonical. split; lia.
Qed.

(** The same beyond these integers, on either side. *)
Lemma zero_based_above (a : Z) :
  2 ^ 53 < a → beyond false 0 (Math_max zero (sub (of_Z a) one)).
Proof.
  intros Ha. destruct (of_Z_beyond a) as [Hbig _].
  destruct (sub_one_beyond (of_Z a)) as [Hsub _].
  destruct (Math_max_zero_beyond (sub (of_Z a) one) 0) as [-> _]; auto.
Qed.

Lemma zero_based_below (a : Z) :
  a ≤ - 2 ^ 53 → Math_max zero (sub (of_Z a) one) = zero.
Proof.
  intros Ha.
  assert (Hbig : beyond true 1 (of_Z a)).
  { destruct (decide (a = - 2 ^ 53)) as [->|Hne].
    - right. by exists 4503599627370496%positive, 1.
    - apply of_Z_beyond. lia. }
  destruct (sub_one_beyond (of_Z a)) as [_ Hsub].
  destruct (Math_max_zero_beyond (sub (of_Z a) one) 0) as [_ ->]; auto.
Qed.

Lemma array_get_of_Z {A : Type} (a : list A) (i : Z) :
  0 ≤ i ≤ 2 ^ 53 → array_get a (of_Z i) = a !! Z.to_nat i.
Proof.
  intros Hi. unfold array_get.
  rewrite of_Z_canonical, to_integer_canonical by (split; lia).
  by rewrite bool_decide_eq_true_2 by lia.
Qed.

End JsNumberFacts.

(** * Properties of the diagnostics mapper *)

(** Case analysis on the first string comparison of the goal. *)
Ltac case_string_eqb :=
  match goal with
  | |- context [String.eqb ?a ?b] => destruct (String.eqb_spec a b)
  end.

Module DiagnosticsFacts.
Import JsNumber NumberSpec JsNumberFacts DiagnosticsProvider DiagnosticsSpec.

Lemma newPosition_not_negative (l c : number) :
  ltb l zero = false → ltb c zero = false →
  newPosition l c = Ok (mkPos l c).
Proof. intros Hl Hc. unfold newPosition. by rewrite Hl, Hc. Qed.

Lemma newRange_ordered (l c e : number) :
  ltb c e = true → newRange (mkPos l c) (mkPos l e) = mkRng (mkPos l c) (mkPos l e).
Proof.
  intros Hlt. unfold newRange, pos_isBefore. cbn [pos_line pos_character].
  by rewrite ltb_irrefl, Hlt.
Qed.

Lemma newRange_line (l c e : number) :
  pos_line (rng_start (newRange (mkPos l c) (mkPos l e))) = l
  ∧ pos_line (rng_end (newRange (mkPos l c) (mkPos l e))) = l.
Proof. unfold newRange. by destruct (pos_isBefore _ _). Qed.

Lemma widened_gt column len : column < widened column len.
Proof. unfold widened. destruct len; [case_bool_decide|]; lia. Qed.

Lemma guarded_lookup (ls : list string) line :
  0 ≤ line → line < Z.of_nat (List.length ls) →
  is_Some (ls !! Z.to_nat line).
Proof. intros H0 Hlt. apply lookup_lt_is_Some. lia. Qed.

(** The end column the mapper settles on, at an integer line and an
    integer column. *)
Lemma endColumn_closed_form (fileLines : option (list string)) (line column : Z) :
  0 ≤ line < 2 ^ 53 - 1 → 0 ≤ column < 2 ^ 53 - 1 →
  ∃ e,
    match fileLines with
    | Some ls =>
        if ltb (of_Z line) (of_nat (List.length ls))
        then line_length ls (of_Z line) else Ok (add (of_Z column) one)
    | None => Ok (add (of_Z column) one)
    end = Ok e
    ∧ (if leb e (of_Z column) then add (of_Z column) one else e)
      = of_Z (widened column (observed_length fileLines line)).
Proof.
  intros Hl Hc.
  assert (Hadd : add (of_Z column) one = of_Z (column + 1))
    by (apply add_one; split; lia).
  assert (Hfallback :
    (if leb (of_Z (column + 1)) (of_Z column)
     then of_Z (column + 1) else of_Z (column + 1)) = of_Z (column + 1))
    by by destruct (leb _ _).
  unfold observed_length, line_length, of_nat. destruct fileLines as [ls|].
  - destruct (ltb_of_Z line (Z.of_nat (List.length ls))) as (-> & _);
      [split; lia|lia|lia|].
    case_bool_decide as Hlt.
    + destruct (guarded_lookup ls line) as [s Hs]; [lia|done|].
      rewrite array_get_of_Z, Hs by lia. eexists. split; [reflexivity|].
      cbn [fmap option_fmap option_map widened].
      destruct (ltb_of_Z column (Z.of_nat (String.length s))) as (_ & _ & ->);
        [split; lia|lia|lia|].
      rewrite Hadd. by case_bool_decide.
    + eexists. split; [reflexivity|]. by rewrite Hadd, Hfallback.
  - eexists. split; [reflexivity|]. by rewrite Hadd, Hfallback.
Qed.

(** The whole of [createDiagnostic] in closed form, at a location whose
    line and column are safe integers: it does not throw. *)
Lemma createDiagnostic_closed_form message path (l c : Z) ctx fileLines :
  safe_integer l → safe_integer c →
  let line := Z.max 0 (l - 1) in
  let column := Z.max 0 (c - 1) in
  ∃ d, createDiagnostic message (location_at path l c ctx) fileLines = Ok d
     ∧ diag_range d =
         mkRng (mkPos (of_Z line) (of_Z column))
           (mkPos (of_Z line)
              (of_Z (widened column (observed_length fileLines line))))
     ∧ diag_severity d = mapSeverity (msg_severity message)
     ∧ diag_code d = msg_ID message.
Proof.
  intros Hl Hc line column. unfold safe_integer in *.
  assert (Hl0 : 0 ≤ line < 2 ^ 53 - 1) by (subst line; lia).
  assert (Hc0 : 0 ≤ column < 2 ^ 53 - 1) by (subst column; lia).
  unfold createDiagnostic, location_at. cbn [loc_line loc_column].
  rewrite !zero_based by lia. fold line column.
  destruct (endColumn_closed_form fileLines line column Hl0 Hc0)
    as (e & -> & Hw).
  cbn [mbind try_bind]. rewrite Hw.
  pose proof (widened_gt column (observed_length fileLines line)) as Hgt.
  rewrite (newPosition_not_negative (of_Z line) (of_Z column))
    by (apply of_Z_not_negative; lia).
  cbn [mbind try_bind].
  rewrite newPosition_not_negative by (apply of_Z_not_negative; lia).
  cbn [mbind try_bind]. rewrite newRange_ordered.
  - eexists. split; [reflexivity|]. cbn. auto.
  - destruct (ltb_of_Z column (widened column (observed_length fileLines line)))
      as (-> & _); [split; lia|lia|lia|].
    by apply bool_decide_eq_true_2.
Qed.

Lemma observed_length_in_range (ls : list string) line s :
  0 ≤ line → ls !! Z.to_nat line = Some s →
  observed_length (Some ls) line = Some (Z.of_nat (String.length s)).
Proof.
  intros H0 Hs. unfold observed_length.
  apply lookup_lt_Some in Hs as Hlt.
  rewrite bool_decide_eq_true_2 by lia. by rewrite Hs.
Qed.

(** C3, for integers. At a location whose line and column are safe
    integers, [createDiagnostic] turns the 1-based line and column into
    0-based ones, clamped at 0. When the line is available in the file's
    content the end column is the length of that line, unless that would
    not exceed the start column, in which case it is start column + 1;
    when the file's content is not available it is start column + 1. The
    end column is greater than the start column. A message at line 5,
    column 3 against a file whose fifth line has 40 characters gets the
    range (4,2)-(4,40). *)
Theorem createDiagnostic_range :
  (∀ message path ctx (l c : Z) fileLines,
     safe_integer l → safe_integer c →
     let line := Z.max 0 (l - 1) in
     let column := Z.max 0 (c - 1) in
     ∃ d, createDiagnostic message (location_at path l c ctx) fileLines = Ok d
        ∧ rng_start (diag_range d) = mkPos (of_Z line) (of_Z column)
        ∧ pos_line (rng_end (diag_range d)) = of_Z line
        ∧ (∀ ls s, fileLines = Some ls → ls !! Z.to_nat line = Some s →
             endColumn_of d =
               of_Z (if bool_decide (Z.of_nat (String.length s) ≤ column)
                     then column + 1 else Z.of_nat (String.length s)))
        ∧ (fileLines = None → endColumn_of d = of_Z (column + 1))
        ∧ non_empty d = true)
  ∧ (∀ message path ctx ls s,
       ls !! 4%nat = Some s → String.length s = 40%nat →
       ∃ d, createDiagnostic message (location_at path 5 3 ctx) (Some ls) = Ok d
          ∧ diag_range d
            = mkRng (mkPos (of_Z 4) (of_Z 2)) (mkPos (of_Z 4) (of_Z 40))).
Proof.
  split.
  - intros message path ctx l c fileLines Hl Hc line column.
    destruct (createDiagnostic_closed_form message path l c ctx fileLines Hl Hc)
      as (d & Hd & Hr & _).
    fold line column in Hr.
    exists d. unfold non_empty, endColumn_of, startColumn_of.
    rewrite Hr. cbn [rng_start rng_end pos_line pos_character].
    pose proof (widened_gt column (observed_length fileLines line)) as Hgt.
    unfold safe_integer in *.
    repeat split; try done.
    + intros ls s -> Hs.
      rewrite (observed_length_in_range ls line s) by (done || (subst line; lia)).
      reflexivity.
    + by intros ->.
    + destruct (ltb_of_Z column (widened column (observed_length fileLines line)))
        as (-> & _); [subst column; split; lia|subst column; lia..|].
      by apply bool_decide_eq_true_2.
  - intros message path ctx ls s Hs Hlen.
    destruct (createDiagnostic_closed_form message path 5 3 ctx (Some ls))
      as (d & Hd & Hr & _); [by vm_compute..|].
    exists d. split; [done|]. rewrite Hr.
    change (Z.max 0 (5 - 1)) with 4. change (Z.max 0 (3 - 1)) with 2.
    rewrite (observed_length_in_range ls 4 s) by (done || lia).
    rewrite Hlen. reflexivity.
Qed.

Lemma createDiagnostic_range_witness :
  ∃ d, createDiagnostic sample_message (location_at "OEBPS/ch1.xhtml" 5 3 None)
         (Some chapter_lines) = Ok d
     ∧ endColumn_of d = of_Z 40
     ∧ non_empty d = true.
Proof.
  destruct (proj1 createDiagnostic_range sample_message "OEBPS/ch1.xhtml"
              None 5 3 (Some chapter_lines))
    as (d & Hd & _ & _ & Hend & _ & Hne).
  - unfold safe_integer. lia.
  - unfold safe_integer. lia.
  - exists d. split; [exact Hd|]. split; [|exact Hne].
    apply (Hend chapter_lines "0123456789012345678901234567890123456789");
      reflexivity.
Defined.

(** Against C3 as it is written: beyond the safe integers the range can
    be empty. At column 2^53 + 2 the start column is 2^53, and 2^53 + 1
    is again 2^53, whether the file can be read or not; and a line that
    is not an integer makes the mapper throw. *)
Lemma createDiagnostic_range_empty_beyond_safe :
  (∃ d, createDiagnostic sample_message
          (location_at "OEBPS/ch1.xhtml" 5 (2 ^ 53 + 2) None) None
        = Ok d
      ∧ startColumn_of d = of_Z (2 ^ 53)
      ∧ endColumn_of d = of_Z (2 ^ 53)
      ∧ non_empty d = false)
  ∧ (∃ d, createDiagnostic sample_message
            (location_at "OEBPS/ch1.xhtml" 5 (2 ^ 53 + 2) None)
            (Some chapter_lines)
          = Ok d
        ∧ startColumn_of d = of_Z (2 ^ 53)
        ∧ endColumn_of d = of_Z (2 ^ 53)
        ∧ non_empty d = false)
  ∧ createDiagnostic sample_message
      (mkLocation "OEBPS/ch1.xhtml" one_and_a_half (of_Z 3) None)
      (Some chapter_lines)
    = Threw "TypeError".
Proof.
  split; [|split]; [| |by vm_compute];
    (eexists; split; [by vm_compute|]; by vm_compute).
Qed.

(** Scenario E, on a file read from the file system. *)
Example scenario_E :
  let fs := mkFS {[ "/books/my-book/OEBPS/ch1.xhtml" :=
                      "<html>" +:+ nl +:+ "<head/>" +:+ nl +:+ "<body>" +:+ nl
                      +:+ "<p>" +:+ nl
                      +:+ "0123456789012345678901234567890123456789" +:+ nl
                      +:+ "</p>" ]} ∅ ∅ in
  diag_range <$>
    match createDiagnostic sample_message
            (location_at "OEBPS/ch1.xhtml" 5 3 None)
            (readFileLines fs "/books/my-book/OEBPS/ch1.xhtml") with
    | Ok d => Some d
    | Threw _ => None
    end
  = Some (mkRng (mkPos (of_Z 4) (of_Z 2)) (mkPos (of_Z 4) (of_Z 40))).
Proof. vm_compute. reflexivity. Qed.

(** ** A line beyond the end of the file *)

(** The guard of the mapper is false at every integer line that is not
    below the number of lines. *)
Lemma line_guard_out_of_range (l : Z) (ls : list string) :
  Z.of_nat (List.length ls) < 2 ^ 32 →
  Z.of_nat (List.length ls) ≤ Z.max 0 (l - 1) →
  ltb (Math_max zero (sub (of_Z l) one)) (of_nat (List.length ls)) = false.
Proof.
  intros Hlen Hge. unfold of_nat.
  destruct (decide (l ≤ - 2 ^ 53)) as [Hlow|Hlow].
  - rewrite zero_based_below by done.
    assert (Z.of_nat (List.length ls) = 0) as -> by lia. reflexivity.
  - destruct (decide (l ≤ 2 ^ 53)) as [Hmid|Hhigh].
    + rewrite zero_based by lia.
      destruct (ltb_of_Z (Z.max 0 (l - 1)) (Z.of_nat (List.length ls)))
        as (-> & _); [split; lia|lia|lia|].
      apply bool_decide_eq_false_2. lia.
    + pose proof (zero_based_above l) as Hbig.
      rewrite (of_Z_canonical (Z.of_nat (List.length ls))) by (split; lia).
      destruct (compare_beyond (Math_max zero (sub (of_Z l) one)) 0
                  (Z.of_nat (List.length ls))) as [Hgt _].
      * apply Hbig. lia.
      * split; lia.
      * destruct (decide (Z.of_nat (List.length ls) ≤ 0)); [by right|left].
        apply exponent_lt_52. lia.
      * unfold ltb, SFltb. by rewrite Hgt.
Qed.

(** For a file that cannot be read the mapper returns a diagnostic,
    whatever the numbers of the location. *)
Lemma createDiagnostic_unreadable message location :
  let line := Math_max zero (sub (loc_line location) one) in
  let column := Math_max zero (sub (loc_column location) one) in
  ∃ d, createDiagnostic message location None = Ok d
     ∧ diag_range d
       = newRange (mkPos line column) (mkPos line (add column one)).
Proof.
  intros line column. unfold createDiagnostic. fold line column.
  cbn [mbind try_bind].
  assert ((if leb (add column one) column then add column one
           else add column one) = add column one) as ->
    by by destruct (leb _ _).
  assert (Hl : ltb line zero = false) by apply Math_max_zero_not_negative.
  assert (Hc : ltb column zero = false) by apply Math_max_zero_not_negative.
  rewrite (newPosition_not_negative line column) by done.
  cbn [mbind try_bind].
  rewrite newPosition_not_negative by (done || by apply add_one_not_negative).
  cbn [mbind try_bind]. eexists. split; reflexivity.
Qed.

(** C10, for integers. When the file's lines are available (fewer than
    2^32 of them, as in every JavaScript array) but the 0-based line is
    not below their number, however large the line number,
    [createDiagnostic] does not read the array: it returns what it
    returns for an unreadable file, and that is a diagnostic, whatever
    the column. When the column is a safe integer the end column is start
    column + 1 and the range is not empty. *)
Theorem createDiagnostic_line_out_of_range message path (l : Z)
    (column : number) ctx (ls : list string) :
  Z.of_nat (List.length ls) < 2 ^ 32 →
  Z.of_nat (List.length ls) ≤ Z.max 0 (l - 1) →
  let location := mkLocation path (of_Z l) column ctx in
  createDiagnostic message location (Some ls)
    = createDiagnostic message location None
  ∧ ∃ d, createDiagnostic message location (Some ls) = Ok d
       ∧ pos_line (rng_start (diag_range d))
         = Math_max zero (sub (of_Z l) one)
       ∧ ∀ c, safe_integer c → column = of_Z c →
           startColumn_of d = of_Z (Z.max 0 (c - 1))
           ∧ endColumn_of d = of_Z (Z.max 0 (c - 1) + 1)
           ∧ non_empty d = true.
Proof.
  intros Hlen Hge location.
  assert (Heq : createDiagnostic message location (Some ls)
                = createDiagnostic message location None).
  { unfold createDiagnostic. cbn [loc_line location].
    by rewrite line_guard_out_of_range. }
  split; [exact Heq|]. rewrite Heq.
  destruct (createDiagnostic_unreadable message location) as (d & Hd & Hr).
  exists d. split; [exact Hd|]. cbn [loc_line loc_column location] in Hr.
  split; [rewrite Hr; apply newRange_line|].
  intros c Hc ->. unfold safe_integer in Hc.
  unfold non_empty, startColumn_of, endColumn_of.
  subst location. cbn [loc_line loc_column] in Hr.
  rewrite Hr, (zero_based c) by lia.
  rewrite add_one by (split; lia).
  assert (Hlt : ltb (of_Z (Z.max 0 (c - 1))) (of_Z (Z.max 0 (c - 1) + 1)) = true).
  { destruct (ltb_of_Z (Z.max 0 (c - 1)) (Z.max 0 (c - 1) + 1)) as (-> & _);
      [split; lia|lia|lia|].
    apply bool_decide_eq_true_2. lia. }
  rewrite newRange_ordered by done.
  by cbn [rng_start rng_end pos_character].
Qed.

Lemma createDiagnostic_line_out_of_range_witness :
  createDiagnostic sample_message (location_at "OEBPS/ch1.xhtml" 1000 7 None)
    (Some chapter_lines)
  = createDiagnostic sample_message
      (location_at "OEBPS/ch1.xhtml" 1000 7 None) None.
Proof.
  apply (createDiagnostic_line_out_of_range sample_message "OEBPS/ch1.xhtml"
           1000 (of_Z 7) None chapter_lines).
  - vm_compute. reflexivity.
  - vm_compute. discriminate.
Defined.

(** Against C10 as it is written: at line 1000 of a file of six lines and
    column 2^53 + 2, the array is not read and the range is empty. *)
Lemma createDiagnostic_line_out_of_range_empty :
  ∃ d, createDiagnostic sample_message
         (location_at "OEBPS/ch1.xhtml" 1000 (2 ^ 53 + 2) None)
         (Some chapter_lines) = Ok d
     ∧ endColumn_of d = startColumn_of d
     ∧ non_empty d = false.
Proof. eexists. split; [by vm_compute|]. by vm_compute. Qed.

Lemma mapSeverity_unrecognised s :
  s ∉ ["FATAL"; "ERROR"; "WARNING"; "USAGE"; "INFO"] → mapSeverity s = SevError.
Proof.
  intros Hs. unfold mapSeverity.
  repeat (case_string_eqb;
          [try reflexivity; exfalso; subst s; apply Hs; repeat constructor|]).
  reflexivity.
Qed.

(** C8. [mapSeverity] is the fixed table: FATAL and ERROR map to Error,
    WARNING to Warning, USAGE to Information, INFO to Hint, and every
    other value to Error. It depends on its argument alone. *)
Theorem mapSeverity_table :
  (∀ s, mapSeverity s = mapSeverity_by_table s)
  ∧ mapSeverity "FATAL" = SevError
  ∧ mapSeverity "ERROR" = SevError
  ∧ mapSeverity "WARNING" = SevWarning
  ∧ mapSeverity "USAGE" = SevInformation
  ∧ mapSeverity "INFO" = SevHint
  ∧ (∀ s, s ∉ ["FATAL"; "ERROR"; "WARNING"; "USAGE"; "INFO"] →
       mapSeverity s = SevError)
  ∧ (∀ s1 s2, s1 = s2 → mapSeverity s1 = mapSeverity s2).
Proof.
  split; [|repeat split; try reflexivity].
  - intros s. unfold mapSeverity, mapSeverity_by_table. simpl.
    repeat (destruct (String.eqb s _); [reflexivity|]). reflexivity.
  - intros s Hs. by apply mapSeverity_unrecognised.
  - by intros s1 s2 ->.
Qed.

End DiagnosticsFacts.

(** * Properties of the runner: unique names *)

Module UniquePathFacts.
Import EpubCheckRunner.

(** ** Strings *)

Lemma string_app_cons a (s t : string) :
  String a s +:+ t = String a (s +:+ t).
Proof. reflexivity. Qed.

Lemma string_length_app (s t : string) :
  String.length (s +:+ t) = (String.length s + String.length t)%nat.
Proof.
  induction s as [|a s IH]; [done|].
  rewrite string_app_cons. simpl. by rewrite IH.
Qed.

Lemma string_app_inv_tail (s1 s2 t : string) :
  s1 +:+ t = s2 +:+ t → s1 = s2.
Proof.
  revert s2. induction s1 as [|a s1 IH]; intros [|b s2] Heq.
  - done.
  - apply (f_equal String.length) in Heq.
    rewrite !string_length_app in Heq. simpl in Heq. lia.
  - apply (f_equal String.length) in Heq.
    rewrite !string_length_app in Heq. simpl in Heq. lia.
  - rewrite !string_app_cons in Heq.
    injection Heq as -> Heq. f_equal. by apply IH.
Qed.

Lemma join_inj dir : Inj (=) (=) (Path.join dir).
Proof.
  intros n1 n2. unfold Path.join.
  destruct (String.eqb dir "/"); [apply (inj (String.app "/"))|].
  destruct (String.eqb dir "" || String.eqb dir "."); [done|].
  intros Heq. apply (inj (String.app dir)) in Heq.
  by apply (inj (String.app "/")) in Heq.
Qed.

Lemma candidate_inj dir base ext : Inj (=) (=) (candidate dir base ext).
Proof.
  intros n1 n2 Heq. unfold candidate in Heq.
  apply join_inj in Heq.
  apply (inj (String.app base)) in Heq.
  apply (inj (String.app " (")) in Heq.
  apply string_app_inv_tail in Heq.
  by apply (inj pretty) in Heq.
Qed.

(** ** The loop of [getUniquePath] *)

Section Loop.
Variable fs : FS.
Variables dir base ext : string.

Local Abbreviation cand := (candidate dir base ext).
Local Abbreviation loop := (getUniquePath_loop fs dir base ext).

Lemma existsSync_dom p : existsSync fs p = true ↔ p ∈ dom (files fs).
Proof.
  unfold existsSync. rewrite bool_decide_eq_true. by rewrite elem_of_dom.
Qed.

Lemma loop_returns fuel c q :
  loop fuel c = Some q →
  ∃ n, (c ≤ n < c + fuel)%nat ∧ q = cand n ∧ existsSync fs q = false
     ∧ ∀ k, (c ≤ k < n)%nat → existsSync fs (cand k) = true.
Proof.
  revert c. induction fuel as [|fuel IH]; intros c; [done|].
  unfold loop. simpl. fold (cand c).
  destruct (existsSync fs (cand c)) eqn:Hex.
  - intros Hq. destruct (IH _ Hq) as (n & Hn & -> & Hfree & Hbelow).
    exists n. repeat split; [lia..|done|].
    intros k Hk. destruct (decide (k = c)) as [->|]; [done|].
    apply Hbelow. lia.
  - intros [= <-]. exists c. repeat split; [lia..|done|].
    intros k Hk. lia.
Qed.

Lemma loop_out_of_fuel fuel c :
  loop fuel c = None →
  ∀ k, (c ≤ k < c + fuel)%nat → existsSync fs (cand k) = true.
Proof.
  revert c. induction fuel as [|fuel IH]; intros c; [intros _ k; lia|].
  unfold loop. simpl. fold (cand c).
  destruct (existsSync fs (cand c)) eqn:Hex; [|done].
  intros Hnone k Hk. destruct (decide (k = c)) as [->|]; [done|].
  apply (IH (S c)); [done|lia].
Qed.

(** Distinct counters give distinct names, so a run of [n] candidates
    that all exist needs [n] files. *)
Lemma candidates_bounded c n :
  (∀ k, (c ≤ k < c + n)%nat → existsSync fs (cand k) = true) →
  (n ≤ size (files fs))%nat.
Proof.
  intros Hall.
  pose (names := cand <$> seq c n).
  assert (Hnodup : NoDup names).
  { pose proof (candidate_inj dir base ext).
    apply (NoDup_fmap_2 cand), NoDup_seq. }
  assert (Hsub : (list_to_set names : gset string) ⊆ dom (files fs)).
  { intros p [k [-> Hk]]%elem_of_list_to_set%list_elem_of_fmap.
    apply existsSync_dom, Hall. apply elem_of_seq in Hk. lia. }
  apply subseteq_size in Hsub.
  rewrite size_list_to_set, size_dom in Hsub by done.
  unfold names in Hsub. by rewrite length_fmap, length_seq in Hsub.
Qed.

Lemma loop_enough_fuel fuel c :
  (size (files fs) < fuel)%nat → is_Some (loop fuel c).
Proof.
  intros Hfuel. destruct (loop fuel c) eqn:Hl; [by eexists|].
  pose proof (candidates_bounded c fuel (loop_out_of_fuel fuel c Hl)). lia.
Qed.

End Loop.

Lemma existsSync_false fs p : existsSync fs p = false ↔ files fs !! p = None.
Proof.
  unfold existsSync. rewrite bool_decide_eq_false.
  by rewrite <- eq_None_not_Some.
Qed.

Lemma existsSync_true fs p : existsSync fs p = true ↔ is_Some (files fs !! p).
Proof. unfold existsSync. by rewrite bool_decide_eq_true. Qed.

(** [getUniquePath] always returns, and what it returns. *)
Lemma getUniquePath_total fs p :
  ∃ q, getUniquePath fs p = Some q ∧ existsSync fs q = false.
Proof.
  unfold getUniquePath. destruct (existsSync fs p) eqn:Hp; simpl.
  - destruct (loop_enough_fuel fs (Path.dirname p)
                (Path.basename_ext p (Path.extname p)) (Path.extname p)
                (S (size (files fs))) 2) as [q Hq]; [lia|].
    exists q. split; [done|].
    by destruct (loop_returns _ _ _ _ _ _ _ Hq) as (n & _ & _ & Hfree & _).
  - by exists p.
Qed.

Lemma renameSync_fresh fs src dst c :
  files fs !! src = Some c → (src, dst) ∉ refused fs →
  renameSync fs src dst
    = Ok (mkFS (<[dst := c]> (delete src (files fs))) (refused fs) (locked fs)).
Proof.
  intros Hsrc Hok. unfold renameSync. rewrite Hsrc.
  by rewrite bool_decide_eq_false_2.
Qed.

(** C6. [getUniquePath p] returns [p] when no file exists at [p];
    otherwise the first name [base (n)ext] of the same directory, [n]
    counted up from 2, at which no file exists. It always returns, and
    never a name at which a file exists. So when [p] and the names
    numbered 2 to N exist and N+1 does not, the result is the name
    numbered N+1, and a restore whose rename goes through creates that
    one name, absent before, and no other. *)
Theorem getUniquePath_first_free (fs : FS) (p : string) :
  let dir := Path.dirname p in
  let ext := Path.extname p in
  let base := Path.basename_ext p ext in
  let name n := Path.join dir (base +:+ " (" +:+ pretty n +:+ ")" +:+ ext) in
  ∃ q, getUniquePath fs p = Some q
     ∧ existsSync fs q = false
     ∧ (existsSync fs p = false → q = p)
     ∧ (existsSync fs p = true →
          ∃ n : nat, (2 ≤ n)%nat ∧ q = name n
            ∧ ∀ k : nat, (2 ≤ k < n)%nat → existsSync fs (name k) = true)
     ∧ (∀ N : nat, existsSync fs p = true →
          (∀ k : nat, (2 ≤ k ≤ N)%nat → existsSync fs (name k) = true) →
          existsSync fs (name (S N)) = false → (1 ≤ N)%nat →
          q = name (S N))
     ∧ (∀ pp c, pp ≠ "" → files fs !! pp = Some c → (pp, q) ∉ refused fs →
          ∃ fs', restoreProtectedEpub (Some pp) p fs = Some fs'
               ∧ files fs' = <[q := c]> (delete pp (files fs))
               ∧ dom (files fs') = {[q]} ∪ (dom (files fs) ∖ {[pp]})
               ∧ q ∉ dom (files fs)).
Proof.
  intros dir ext base name.
  destruct (getUniquePath_total fs p) as (q & Hq & Hfree).
  assert (Hfirst : existsSync fs p = true →
    ∃ n : nat, (2 ≤ n)%nat ∧ q = name n
      ∧ ∀ k : nat, (2 ≤ k < n)%nat → existsSync fs (name k) = true).
  { intros Hp. unfold getUniquePath in Hq. rewrite Hp in Hq. cbn [negb] in Hq.
    destruct (loop_returns _ _ _ _ _ _ _ Hq) as (n & Hn & -> & _ & Hbelow).
    exists n. split; [lia|]. split; [done|].
    intros k Hk. apply Hbelow. lia. }
  exists q. repeat split; try done.
  - intros Hp. unfold getUniquePath in Hq. rewrite Hp in Hq. by injection Hq.
  - intros N Hp Hall Hnext HN.
    destruct (Hfirst Hp) as (n & Hn & -> & Hbelow).
    destruct (decide (n = S N)) as [->|Hne]; [done|].
    destruct (decide (n ≤ N)%nat) as [Hle|Hgt].
    + rewrite Hall in Hfree by lia. done.
    + rewrite Hbelow in Hnext by lia. done.
  - intros pp c Hpp Hc Hok.
    unfold restoreProtectedEpub.
    apply String.eqb_neq in Hpp. rewrite Hpp.
    assert (Hex : existsSync fs pp = true) by (apply existsSync_true; eauto).
    rewrite Hex. simpl. rewrite Hq. simpl.
    rewrite (renameSync_fresh fs pp q c) by done.
    eexists. split; [reflexivity|]. simpl. split; [done|].
    split; [|by apply not_elem_of_dom, existsSync_false].
    by rewrite dom_insert_L, dom_delete_L.
Qed.

End UniquePathFacts.

(** * Properties of the runner: locating the artifact *)

Module ReconcilerFacts.
Import EpubCheckRunner UniquePathFacts.

(** [restoreProtectedEpub] always returns; it either leaves the file
    system alone or moves the backup to a name that was free. *)
Lemma restore_outcome protectedPath target fs :
  ∃ fs', restoreProtectedEpub protectedPath target fs = Some fs'
       ∧ refused fs' = refused fs
       ∧ (fs' = fs
          ∨ ∃ pp q c, protectedPath = Some pp
              ∧ files fs !! pp = Some c
              ∧ files fs !! q = None
              ∧ files fs' = <[q := c]> (delete pp (files fs))).
Proof.
  unfold restoreProtectedEpub.
  destruct protectedPath as [pp|]; [|by eauto].
  destruct (String.eqb pp "" || negb (existsSync fs pp)) eqn:Hguard;
    [by eauto|].
  apply orb_false_iff in Hguard as [_ Hex].
  apply negb_false_iff, existsSync_true in Hex as [c Hc].
  destruct (getUniquePath_total fs target) as (q & -> & Hq).
  apply existsSync_false in Hq. cbn [mbind option_bind].
  unfold renameSync at 1. rewrite Hc.
  case_bool_decide as Hrefused.
  - destruct (existsSync fs target) eqn:Ht; cbn [negb]; [by eauto|].
    apply existsSync_false in Ht.
    unfold renameSync. rewrite Hc. case_bool_decide; [by eauto|].
    eexists. split; [reflexivity|]. split; [done|]. right.
    exists pp, target, c. by simpl.
  - eexists. split; [reflexivity|]. split; [done|]. right.
    exists pp, q, c. by simpl.
Qed.

(** A file that is not the backup is left where it is, as it is. *)
Lemma restore_keeps protectedPath target fs fs' x :
  restoreProtectedEpub protectedPath target fs = Some fs' →
  protectedPath ≠ Some x → is_Some (files fs !! x) →
  files fs' !! x = files fs !! x.
Proof.
  intros Hr Hne [cx Hx].
  destruct (restore_outcome protectedPath target fs)
    as (fs2 & Hr2 & _ & Hcases).
  rewrite Hr in Hr2. injection Hr2 as <-.
  destruct Hcases as [->|(pp & q & c & -> & Hpp & Hq & ->)]; [done|].
  rewrite lookup_insert_ne by congruence.
  rewrite lookup_delete_ne by congruence. done.
Qed.

(** C7. [findGeneratedEpub], for a canonical path [target]: when a file
    named after the project exists inside the project directory and the
    move to [target] goes through, [target] is returned and holds that
    file; when the move fails, the path inside the project directory is
    returned and still holds the file; otherwise, when a file exists at
    [target], [target] is returned; otherwise nothing is returned. *)
Theorem findGeneratedEpub_reports (epubDir target : string)
    (protectedPath : option string) (fs : FS) :
  let inside := Path.join epubDir (Path.basename epubDir +:+ ".epub") in
  target ≠ "" →
  protectedPath ≠ Some target →
  protectedPath ≠ Some inside →
  ∃ out fs',
    findGeneratedEpub epubDir (Some target) protectedPath fs = Some (out, fs')
    ∧ (∀ fs1, existsSync fs inside = true →
         renameSync fs inside target = Ok fs1 →
         out = Some target
         ∧ (inside ≠ target → files fs1 !! inside = None)
         ∧ restoreProtectedEpub protectedPath target fs1 = Some fs'
         ∧ files fs' !! target = files fs !! inside)
    ∧ (existsSync fs inside = true →
         threw (renameSync fs inside target) = true →
         out = Some inside
         ∧ restoreProtectedEpub protectedPath target fs = Some fs'
         ∧ files fs' !! inside = files fs !! inside)
    ∧ (existsSync fs inside = false → existsSync fs target = true →
         out = Some target ∧ files fs' !! target = files fs !! target)
    ∧ (existsSync fs inside = false → existsSync fs target = false →
         out = None)
    ∧ (∀ p, out = Some p → is_Some (files fs' !! p)).
Proof.
  intros inside Htarget Hpt Hpi.
  unfold findGeneratedEpub. fold inside.
  apply String.eqb_neq in Htarget. rewrite Htarget.
  destruct (existsSync fs inside) eqn:Hin.
  - apply existsSync_true in Hin as Hin'. destruct Hin' as [c Hc].
    destruct (renameSync fs inside target) as [fs1|e] eqn:Hmv.
    + destruct (restore_outcome protectedPath target fs1)
        as (fs' & Hr & _ & _).
      rewrite Hr. cbn [mbind option_bind].
      assert (Ht1 : files fs1 !! target = Some c).
      { unfold renameSync in Hmv. rewrite Hc in Hmv.
        case_bool_decide; [done|]. injection Hmv as <-. simpl.
        by rewrite lookup_insert_eq. }
      assert (Hkept : files fs' !! target = Some c).
      { rewrite <- Ht1. eapply restore_keeps; eauto. }
      exists (Some target), fs'. split; [done|].
      split; [|split; [|split; [|split]]]; try done.
      * intros fs1' _ [= <-]. rewrite Hc. split; [done|]. split; [|done].
        intros Hne. unfold renameSync in Hmv. rewrite Hc in Hmv.
        case_bool_decide; [done|]. injection Hmv as <-. simpl.
        rewrite lookup_insert_ne by done. apply lookup_delete_eq.
      * intros p [= <-]. rewrite Hkept. eauto.
    + destruct (restore_outcome protectedPath target fs)
        as (fs' & Hr & _ & _).
      rewrite Hr. cbn [mbind option_bind].
      assert (Hkept : files fs' !! inside = Some c).
      { rewrite <- Hc. eapply restore_keeps; eauto. }
      exists (Some inside), fs'. split; [done|].
      split; [|split; [|split; [|split]]]; try done.
      * intros _ _. by rewrite Hc.
      * intros p [= <-]. rewrite Hkept. eauto.
  - destruct (restore_outcome protectedPath target fs)
      as (fs' & Hr & _ & _).
    rewrite Hr.
    destruct (existsSync fs target) eqn:Ht; cbn [mbind option_bind].
    + apply existsSync_true in Ht as Ht'.
      assert (Hkept : files fs' !! target = files fs !! target).
      { eapply restore_keeps; eauto. }
      exists (Some target), fs'. split; [done|].
      split; [|split; [|split; [|split]]]; try done.
      intros p [= <-]. by rewrite Hkept.
    + exists None, fs'. split; [done|].
      split; [|split; [|split; [|split]]]; done.
Qed.

Lemma findGeneratedEpub_reports_witness :
  ∃ fs',
    findGeneratedEpub Demo.project (Some Demo.canonical) (Some Demo.backup)
      (Demo.write Demo.inside "NEW" Demo.fs_backup)
    = Some (Some Demo.canonical, fs')
    ∧ files fs' !! Demo.canonical = Some "NEW".
Proof.
  destruct (findGeneratedEpub_reports Demo.project Demo.canonical
              (Some Demo.backup) (Demo.write Demo.inside "NEW" Demo.fs_backup))
    as (out & fs' & Hfind & Hmoved & _).
  - vm_compute. discriminate.
  - vm_compute. discriminate.
  - vm_compute. discriminate.
  - destruct (Hmoved (mkFS {[ Demo.backup := "ORIGINAL";
                              Demo.canonical := "NEW" ]} ∅ ∅))
      as (-> & _ & _ & Hat).
    + vm_compute. reflexivity.
    + vm_compute. reflexivity.
    + exists fs'. split; [exact Hfind|]. rewrite Hat. vm_compute. reflexivity.
Defined.

End ReconcilerFacts.

(** * Properties of the runner: the outcome of a run *)

Module RunFacts.
Import EpubCheckRunner UniquePathFacts ReconcilerFacts RunnerSpec.

Lemma deliver_app on_close on_error (evs1 evs2 : list ProcEvent) st :
  deliver on_close on_error (evs1 ++ evs2)%list st
  = st' ← deliver on_close on_error evs1 st;
    deliver on_close on_error evs2 st'.
Proof.
  revert st. induction evs1 as [|ev evs1 IH]; intros st; [done|].
  simpl. destruct (deliver1 on_close on_error ev st); [|done].
  simpl. apply IH.
Qed.

Lemma deliver_close on_close on_error code st :
  deliver on_close on_error [CloseEvent code] st = on_close code st.
Proof. simpl. by destruct (on_close code st). Qed.

Lemma findGeneratedEpub_total epubDir targetPath protectedPath fs :
  is_Some (findGeneratedEpub epubDir targetPath protectedPath fs).
Proof.
  unfold findGeneratedEpub. destruct targetPath as [tp|]; [|by eauto].
  destruct (String.eqb tp ""); [by eauto|].
  destruct (existsSync fs _).
  - destruct (renameSync fs _ tp) as [fs1|e].
    + destruct (restore_outcome protectedPath tp fs1) as (fs' & -> & _).
      by eauto.
    + destruct (restore_outcome protectedPath tp fs) as (fs' & -> & _).
      by eauto.
  - destruct (restore_outcome protectedPath tp fs) as (fs' & -> & _).
    destruct (existsSync fs tp); by eauto.
Qed.

Lemma located_total epubDir save dflt protectedPath fs :
  is_Some (located epubDir save dflt protectedPath fs).
Proof.
  unfold located. destruct save; [|by eauto].
  apply findGeneratedEpub_total.
Qed.


Section Run.
Variable JSON_parse : string → Try EpubCheckResult.
Variable tmpdir : string.
Variable cfg : Settings.

(** [run], as the events of its child delivered to its handlers. *)
Lemma run_unfold spawn epubDir save now_json now_protect fs :
  run JSON_parse spawn tmpdir cfg epubDir save now_json now_protect fs
  = st ← run_deliver JSON_parse tmpdir cfg epubDir save now_json
           now_protect fs (run_child spawn tmpdir cfg epubDir save now_json);
    Some (st_settled st, st_fs st).
Proof.
  unfold run, run_deliver, run_protect, run_child, run_args,
    defaultEpubPath_of, jsonTmpFile_of.
  destruct save; [|done].
  by destruct (protectExistingEpub _ _ _).
Qed.

(** A run whose child closes while the promise is pending ends with
    what the ['close'] handler does. *)
Lemma run_at_close spawn epubDir save now_json now_protect fs pre code st :
  run_closes_after JSON_parse spawn tmpdir cfg epubDir save now_json
    now_protect fs pre code st →
  run JSON_parse spawn tmpdir cfg epubDir save now_json now_protect fs
  = st' ← run_on_close JSON_parse cfg epubDir save
            (jsonTmpFile_of tmpdir now_json)
            (defaultEpubPath_of epubDir save)
            (run_protect epubDir save now_protect fs).1 code st;
    Some (st_settled st', st_fs st').
Proof.
  intros (Hchild & Hpre & _). rewrite run_unfold, Hchild.
  unfold run_deliver in *.
  destruct (run_protect epubDir save now_protect fs) as [pp fs1].
  rewrite deliver_app, Hpre. cbn [mbind option_bind].
  by rewrite deliver_close.
Qed.


Lemma resolve_pending r st :
  st_settled st = None →
  resolve r st = mkState (st_stderr st) (st_timedOut st) (Some r) (st_fs st).
Proof. intros Hp. unfold resolve. by rewrite Hp. Qed.

(** The two messages differ at their eleventh character. *)
Lemma parseFailure_not_timeout stderr code :
  parseFailureMessage stderr code ≠ timeoutMessage cfg.
Proof.
  intros Heq. apply (f_equal (String.get 10)) in Heq.
  unfold parseFailureMessage, timeoutMessage in Heq.
  destruct (String.eqb stderr ""), code as [c|];
    try destruct (bool_decide (c ≠ 0)); discriminate Heq.
Qed.

Section Close.
Variables (epubDir : string) (save : bool) (json : string).
Variables (dflt protectedPath : option string).

Local Abbreviation on_close :=
  (run_on_close JSON_parse cfg epubDir save json dflt protectedPath).

Lemma on_close_timeout code st :
  st_settled st = None →
  st_timedOut st = true ∨ code = None →
  on_close code st
  = Some (mkState (st_stderr st) (st_timedOut st)
            (Some (failure epubDir (timeoutMessage cfg)))
            (cleanupTmpFile (st_fs st) json)).
Proof.
  intros Hp Hor. unfold on_close, run_on_close.
  assert (st_timedOut st || bool_decide (code = None) = true) as ->.
  { destruct Hor as [->| ->]; [done|]. by rewrite orb_true_r. }
  by rewrite resolve_pending.
Qed.

Lemma on_close_parsed c st text result :
  st_settled st = None → st_timedOut st = false →
  readFileSync (st_fs st) json = Ok text → JSON_parse text = Ok result →
  on_close (Some c) st
  = '(out, fs2) ← located epubDir save dflt protectedPath
                    (cleanupTmpFile (st_fs st) json);
    Some (mkState (st_stderr st) false
            (Some (mkValidation
                     (negb (existsb isErrorSeverity (res_messages result)))
                     epubDir (Some result) None out))
            fs2).
Proof.
  intros Hp Ht Hread Hparse.
  unfold on_close, run_on_close, located.
  rewrite Ht, Hread. cbn [orb mbind try_bind]. rewrite Hparse.
  rewrite bool_decide_eq_false_2 by done.
  destruct (if save then _ else _) as [[out fs2]|]; [|done].
  cbn [mbind option_bind]. rewrite resolve_pending by done.
  simpl. by rewrite Ht.
Qed.

Lemma on_close_unparsed c st :
  st_settled st = None → st_timedOut st = false →
  threw (text ← readFileSync (st_fs st) json; JSON_parse text) = true →
  on_close (Some c) st
  = Some (mkState (st_stderr st) false
            (Some (failure epubDir
                     (parseFailureMessage (st_stderr st) (Some c))))
            (cleanupTmpFile (st_fs st) json)).
Proof.
  intros Hp Ht Hthrew. unfold on_close, run_on_close.
  rewrite Ht. cbn [orb]. rewrite bool_decide_eq_false_2 by done.
  destruct (_ ← readFileSync (st_fs st) json; JSON_parse _); [done|].
  rewrite resolve_pending by done. simpl. by rewrite Ht.
Qed.

(** A close that is not a timeout never yields the timeout outcome. *)
Lemma on_close_normal_not_timeout c st st' :
  st_settled st = None → st_timedOut st = false →
  on_close (Some c) st = Some st' →
  st_settled st' ≠ Some (failure epubDir (timeoutMessage cfg)).
Proof.
  intros Hp Ht Hc.
  destruct (text ← readFileSync (st_fs st) json; JSON_parse text)
    as [result|e] eqn:Hparse.
  - destruct (readFileSync (st_fs st) json) as [text|] eqn:Hread;
      [|done]. cbn [mbind try_bind] in Hparse.
    rewrite (on_close_parsed c st text result) in Hc by done.
    destruct (located _) as [[out fs2]|]; [|done].
    injection Hc as <-. simpl. unfold failure. congruence.
  - rewrite on_close_unparsed in Hc by (done || by rewrite Hparse).
    injection Hc as <-. cbn [st_settled]. unfold failure.
    intros [= Heq]. exact (parseFailure_not_timeout (st_stderr st) (Some c) Heq).
Qed.


End Close.

Lemma no_error_severity (msgs : list EpubCheckMessage) :
  existsb isErrorSeverity msgs = false
  ↔ ∀ m, m ∈ msgs → msg_severity m ≠ "FATAL" ∧ msg_severity m ≠ "ERROR".
Proof.
  induction msgs as [|m msgs IH]; simpl.
  - split; [|done]. intros _ m Hm. by apply elem_of_nil in Hm.
  - rewrite orb_false_iff, IH. unfold isErrorSeverity.
    rewrite orb_false_iff, !String.eqb_neq. split.
    + intros [Hm Hrest] m' [->|Hin]%elem_of_cons; auto.
    + intros Hall. split; [apply Hall; left|].
      intros m' Hin. apply Hall. by right.
Qed.

(** C4. In [run], when the child closes with an exit code, the run has
    not timed out, and the result file is read and parsed, the outcome
    carries the parsed result and its [success] is true exactly when no
    message has severity FATAL or ERROR. *)
Theorem run_success_iff_no_errors spawn epubDir save now_json now_protect
    fs pre (c : Z) st text result :
  run_closes_after JSON_parse spawn tmpdir cfg epubDir save now_json
    now_protect fs pre (Some c) st →
  st_timedOut st = false →
  readFileSync (st_fs st) (jsonTmpFile_of tmpdir now_json) = Ok text →
  JSON_parse text = Ok result →
  ∃ r fs',
    run JSON_parse spawn tmpdir cfg epubDir save now_json now_protect fs
      = Some (Some r, fs')
    ∧ epubCheckResult r = Some result
    ∧ (success r = true
       ↔ ∀ m, m ∈ res_messages result →
              msg_severity m ≠ "FATAL" ∧ msg_severity m ≠ "ERROR").
Proof.
  intros Hclose Ht Hread Hparse.
  rewrite (run_at_close _ _ _ _ _ _ _ _ _ Hclose).
  destruct Hclose as (_ & _ & Hp).
  rewrite (on_close_parsed _ _ _ _ _ c st text result) by done.
  destruct (located_total epubDir save (defaultEpubPath_of epubDir save)
              (run_protect epubDir save now_protect fs).1
              (cleanupTmpFile (st_fs st) (jsonTmpFile_of tmpdir now_json)))
    as [[out fs2] ->].
  cbn [mbind option_bind]. eexists _, _. split; [reflexivity|].
  simpl. split; [done|].
  by rewrite negb_true_iff, no_error_severity.
Qed.

(** ** A child that is killed *)






(** The exit code in the text of the parse failure. *)
Lemma parseFailureMessage_exit_code stderr (c : Z) :
  c ≠ 0 →
  parseFailureMessage stderr (Some c)
  = parseFailureMessage stderr (Some 0) +:+ nl +:+ "Exit code: " +:+ pretty c.
Proof.
  intros Hc. unfold parseFailureMessage.
  rewrite (bool_decide_eq_true_2 (c ≠ 0)) by done.
  rewrite (bool_decide_eq_false_2 (0 ≠ 0)); [done|].
  intros Hne. by apply Hne.
Qed.

(** C9. In [run], two runs that differ only in the exit code their
    child closes with, and whose result file parses, have the same
    outcome and leave the same file system; [success] is decided by the
    messages alone, so it is true when there is no FATAL or ERROR
    message, whatever the exit code. The exit code appears only in the
    text of the parse failure. *)
Theorem run_outcome_ignores_exit_code spawn1 spawn2 epubDir save now_json
    now_protect fs pre (c1 c2 : Z) st text result :
  let json := jsonTmpFile_of tmpdir now_json in
  run_closes_after JSON_parse spawn1 tmpdir cfg epubDir save now_json
    now_protect fs pre (Some c1) st →
  run_closes_after JSON_parse spawn2 tmpdir cfg epubDir save now_json
    now_protect fs pre (Some c2) st →
  st_timedOut st = false →
  readFileSync (st_fs st) json = Ok text →
  JSON_parse text = Ok result →
  run JSON_parse spawn1 tmpdir cfg epubDir save now_json now_protect fs
    = run JSON_parse spawn2 tmpdir cfg epubDir save now_json now_protect fs
  ∧ (∃ r fs',
       run JSON_parse spawn1 tmpdir cfg epubDir save now_json now_protect fs
         = Some (Some r, fs')
       ∧ success r = negb (existsb isErrorSeverity (res_messages result))
       ∧ error r = None
       ∧ ((∀ m, m ∈ res_messages result →
                msg_severity m ≠ "FATAL" ∧ msg_severity m ≠ "ERROR") →
          success r = true))
  ∧ (∀ (c : Z) st1,
       st_settled st1 = None → st_timedOut st1 = false →
       threw (t ← readFileSync (st_fs st1) json; JSON_parse t) = true →
       ∃ st2,
         run_on_close JSON_parse cfg epubDir save json
           (defaultEpubPath_of epubDir save)
           (run_protect epubDir save now_protect fs).1 (Some c) st1
           = Some st2
         ∧ st_settled st2
           = Some (failure epubDir (parseFailureMessage (st_stderr st1) (Some c))))
  ∧ (∀ stderr (c : Z), c ≠ 0 →
       parseFailureMessage stderr (Some c)
       = parseFailureMessage stderr (Some 0)
         +:+ nl +:+ "Exit code: " +:+ pretty c).
Proof.
  intros json Hclose1 Hclose2 Ht Hread Hparse.
  rewrite (run_at_close _ _ _ _ _ _ _ _ _ Hclose1).
  rewrite (run_at_close _ _ _ _ _ _ _ _ _ Hclose2).
  destruct Hclose1 as (_ & _ & Hp).
  rewrite (on_close_parsed _ _ _ _ _ c1 st text result) by done.
  rewrite (on_close_parsed _ _ _ _ _ c2 st text result) by done.
  split; [done|]. split.
  - destruct (located_total epubDir save (defaultEpubPath_of epubDir save)
                (run_protect epubDir save now_protect fs).1
                (cleanupTmpFile (st_fs st) (jsonTmpFile_of tmpdir now_json)))
      as [[out fs2] ->].
    cbn [mbind option_bind]. eexists _, _. split; [reflexivity|].
    simpl. split; [done|]. split; [done|].
    intros Hall. by rewrite negb_true_iff, no_error_severity.
  - split; [|apply parseFailureMessage_exit_code].
    intros c st1 Hp1 Ht1 Hthrew. eexists. split.
    + by apply on_close_unparsed.
    + done.
Qed.

End Run.

Lemma run_success_iff_no_errors_witness :
  ∃ r fs',
    run Demo.parse (Demo.child (Demo.packs_inside 0)) Demo.tmpdir Demo.cfg
      Demo.project true Demo.t0 Demo.t0 Demo.fs_original
      = Some (Some r, fs')
    ∧ epubCheckResult r = Some Demo.clean_result
    ∧ (success r = true
       ↔ ∀ m, m ∈ res_messages Demo.clean_result →
              msg_severity m ≠ "FATAL" ∧ msg_severity m ≠ "ERROR").
Proof.
  apply (run_success_iff_no_errors Demo.parse Demo.tmpdir Demo.cfg
           (Demo.child (Demo.packs_inside 0)) Demo.project true Demo.t0
           Demo.t0 Demo.fs_original
           (Demo.before_close (Demo.packs_inside 0)) 0 Demo.st_packed
           "{clean}" Demo.clean_result).
  - split; [reflexivity|]. split; [vm_compute; reflexivity|reflexivity].
  - reflexivity.
  - vm_compute; reflexivity.
  - vm_compute; reflexivity.
Defined.



(** The same when the only sign of the kill is a close without exit
    code. *)
Example run_killed_without_report :
  outcome (run Demo.parse (Demo.child Demo.killed_late) Demo.tmpdir Demo.cfg
             Demo.project true Demo.t0 Demo.t0 Demo.fs_original)
  = Some (failure Demo.project (timeoutMessage Demo.cfg)).
Proof. vm_compute. reflexivity. Qed.

Lemma run_outcome_ignores_exit_code_witness :
  run Demo.parse (Demo.child (Demo.packs_inside 0)) Demo.tmpdir Demo.cfg
    Demo.project true Demo.t0 Demo.t0 Demo.fs_original
  = run Demo.parse (Demo.child (Demo.packs_inside 2)) Demo.tmpdir Demo.cfg
      Demo.project true Demo.t0 Demo.t0 Demo.fs_original.
Proof.
  apply (run_outcome_ignores_exit_code Demo.parse Demo.tmpdir Demo.cfg
           (Demo.child (Demo.packs_inside 0))
           (Demo.child (Demo.packs_inside 2)) Demo.project true Demo.t0
           Demo.t0 Demo.fs_original
           (Demo.before_close (Demo.packs_inside 0)) 0 2 Demo.st_packed
           "{clean}" Demo.clean_result).
  - split; [reflexivity|]. split; [vm_compute; reflexivity|reflexivity].
  - split; [reflexivity|]. split; [vm_compute; reflexivity|reflexivity].
  - reflexivity.
  - vm_compute; reflexivity.
  - vm_compute; reflexivity.
Defined.

(** A run that exits with code 2 after a clean validation succeeds. *)
Example run_succeeds_with_exit_code_2 :
  success <$> outcome
    (run Demo.parse (Demo.child (Demo.packs_inside 2)) Demo.tmpdir Demo.cfg
       Demo.project false Demo.t0 Demo.t0 Demo.fs_empty)
  = Some true.
Proof. vm_compute. reflexivity. Qed.

End RunFacts.

(** * Properties of the runner: generating only, and the backup *)

Module GenerateFacts.
Import EpubCheckRunner UniquePathFacts ReconcilerFacts RunnerSpec RunFacts.

Lemma string_app_nonempty (s t : string) : t ≠ "" → s +:+ t ≠ "".
Proof.
  intros Ht Heq. apply (f_equal String.length) in Heq.
  rewrite string_length_app in Heq. destruct t; [done|]. simpl in Heq. lia.
Qed.

Lemma join_nonempty dir name : name ≠ "" → Path.join dir name ≠ "".
Proof.
  intros Hn. unfold Path.join.
  destruct (String.eqb dir "/"); [by apply string_app_nonempty|].
  destruct (String.eqb dir "" || String.eqb dir "."); [done|].
  by apply string_app_nonempty, string_app_nonempty.
Qed.

(** A path returned by [findGeneratedEpub] is never the empty string, so
    [!finalPath] holds exactly when nothing was found. *)
Lemma findGeneratedEpub_falsy epubDir targetPath protectedPath fs out fs' :
  findGeneratedEpub epubDir targetPath protectedPath fs = Some (out, fs') →
  falsy out = bool_decide (out = None).
Proof.
  unfold findGeneratedEpub. destruct targetPath as [tp|]; [|by intros [= <- _]].
  destruct (String.eqb_spec tp "") as [->|Htp]; [by intros [= <- _]|].
  assert (Hin : Path.join epubDir (Path.basename epubDir +:+ ".epub") ≠ "").
  { by apply join_nonempty, string_app_nonempty. }
  assert (Hsome : ∀ p : string, p ≠ "" →
            falsy (Some p) = bool_decide (Some p = None)).
  { intros p Hp. simpl. by apply String.eqb_neq in Hp as ->. }
  destruct (existsSync fs _).
  - destruct (renameSync fs _ tp) as [fs1|e].
    + destruct (restoreProtectedEpub protectedPath tp fs1); [|done].
      intros [= <- _]. by apply Hsome.
    + destruct (restoreProtectedEpub protectedPath tp fs); [|done].
      intros [= <- _]. by apply Hsome.
  - destruct (existsSync fs tp);
      (destruct (restoreProtectedEpub protectedPath tp fs); [|done]);
      intros [= <- _]; [by apply Hsome|done].
Qed.

Section Generate.
Variable cfg : Settings.

Lemma generateOnly_unfold spawn epubDir now_protect fs :
  generateOnly spawn cfg epubDir now_protect fs
  = st ← generateOnly_deliver cfg epubDir now_protect fs
           (generateOnly_child spawn cfg epubDir);
    Some (st_settled st, st_fs st).
Proof.
  unfold generateOnly, generateOnly_deliver, generateOnly_protect,
    generateOnly_child, generateOnly_args.
  by destruct (protectExistingEpub _ _ _).
Qed.

Lemma generateOnly_at_close spawn epubDir now_protect fs pre code st :
  generateOnly_closes_after spawn cfg epubDir now_protect fs pre code st →
  generateOnly spawn cfg epubDir now_protect fs
  = st' ← generateOnly_on_close cfg epubDir (getDefaultEpubPath epubDir)
            (generateOnly_protect epubDir now_protect fs).1 code st;
    Some (st_settled st', st_fs st').
Proof.
  intros (Hchild & Hpre & _). rewrite generateOnly_unfold, Hchild.
  unfold generateOnly_deliver in *.
  destruct (generateOnly_protect epubDir now_protect fs) as [pp fs1].
  rewrite deliver_app, Hpre. cbn [mbind option_bind].
  by rewrite deliver_close.
Qed.

(** What the close with an exit code decides, in a run that is still
    pending and not marked timed out. *)
Lemma generateOnly_pending_close spawn epubDir now_protect fs pre (c : Z) st :
  let protectedPath := (generateOnly_protect epubDir now_protect fs).1 in
  generateOnly_closes_after spawn cfg epubDir now_protect fs pre (Some c) st →
  st_timedOut st = false →
  ∃ r fs',
    generateOnly spawn cfg epubDir now_protect fs = Some (Some r, fs')
    ∧ (c = 0 ∨ c = 1 →
         findGeneratedEpub epubDir (Some (getDefaultEpubPath epubDir))
           protectedPath (st_fs st) = Some (epubOutputPath r, fs')
         ∧ (success r = true ↔ is_Some (epubOutputPath r))
         ∧ (is_Some (epubOutputPath r) → error r = None)
         ∧ (epubOutputPath r = None → c = 1 →
              error r = Some "EPUBCheck aborted EPUB generation due to validation errors. Fix the errors and try again.")
         ∧ (epubOutputPath r = None → c = 0 →
              error r = Some "EPUBCheck did not generate an EPUB file."))
    ∧ (c ≠ 0 → c ≠ 1 →
         success r = false
         ∧ epubOutputPath r = None
         ∧ error r = Some ("EPUBCheck failed with exit code " +:+ pretty c
                           +:+ "." +:+ nl +:+ st_stderr st)
         ∧ fs' = st_fs st).
Proof.
  intros protectedPath Hclose Ht.
  rewrite (generateOnly_at_close _ _ _ _ _ _ _ Hclose).
  destruct Hclose as (_ & _ & Hp). fold protectedPath.
  unfold generateOnly_on_close. rewrite Ht. cbn [orb].
  rewrite (bool_decide_eq_false_2 (Some c = None)) by done.
  destruct (decide (c = 0 ∨ c = 1)) as [Hc|Hc].
  - assert (bool_decide (Some c = Some 0) || bool_decide (Some c = Some 1)
            = true) as ->.
    { destruct Hc as [->| ->]; done. }
    destruct (findGeneratedEpub_total epubDir
                (Some (getDefaultEpubPath epubDir)) protectedPath (st_fs st))
      as [[finalPath fs1] Hfind].
    rewrite Hfind. cbn [mbind option_bind].
    rewrite (findGeneratedEpub_falsy _ _ _ _ _ _ Hfind).
    rewrite resolve_pending by done. eexists _, _. split; [reflexivity|].
    cbn [success error epubOutputPath st_settled st_fs with_fs].
    split; [|intros ??; lia].
    intros _. split; [done|].
    destruct finalPath as [p|].
    + rewrite (bool_decide_eq_false_2 (Some p = None)) by done.
      rewrite (bool_decide_eq_true_2 (Some p ≠ None)) by done.
      cbn [andb]. repeat split; eauto; done.
    + rewrite (bool_decide_eq_true_2 (None = None)) by done.
      rewrite (bool_decide_eq_false_2 (None ≠ None)) by (intros ?; done).
      cbn [andb]. split; [|split; [|split]].
      * split; [done|]. by intros [??].
      * by intros [??].
      * intros _ ->. done.
      * intros _ ->. done.
  - assert (bool_decide (Some c = Some 0) || bool_decide (Some c = Some 1)
            = false) as ->.
    { apply orb_false_iff.
      split; apply bool_decide_eq_false_2; intros [= ->]; apply Hc; auto. }
    rewrite resolve_pending by done. eexists _, _. split; [reflexivity|].
    split; [intros ?; done|]. intros _ _. done.
Qed.

(** While the child works, the promise of [generateOnly] stays as it
    is, and so does the mark of the timeout. *)
Lemma generateOnly_before_close epubDir dflt protectedPath
    (pre : list ProcEvent) st :
  forallb is_quiet pre = true →
  ∃ st',
    deliver (generateOnly_on_close cfg epubDir dflt protectedPath)
      (generateOnly_on_error cfg epubDir) pre st = Some st'
    ∧ st_settled st' = st_settled st
    ∧ st_timedOut st' = st_timedOut st.
Proof.
  revert st. induction pre as [|ev pre IH]; intros st; [by exists st|].
  cbn [forallb deliver]. intros [Hev Hpre]%andb_true_iff.
  destruct ev as [f|data|err|code]; [| |done|done];
    cbn [deliver1 mbind option_bind].
  - destruct (IH (with_fs st (f (st_fs st))) Hpre) as (st' & Hd & Hs & Ht).
    by exists st'.
  - destruct (IH (mkState (st_stderr st +:+ data) (st_timedOut st)
                    (st_settled st) (st_fs st)) Hpre)
      as (st' & Hd & Hs & Ht).
    by exists st'.
Qed.

(** C2, as the code has it. In [generateOnly], for a child that exits
    by itself, with no ['error'] before the close: when the exit code
    is 0 or 1, the outcome is successful exactly when
    [findGeneratedEpub] locates an artifact, and it carries that path;
    when none is located the outcome is a failure whose error says that
    generation was aborted by validation errors (exit code 1) or that
    no EPUB file was generated (exit code 0). Any other exit code
    yields a failure whose error names the exit code. [st] is the state
    in which the close finds the run. *)
Theorem generateOnly_outcome spawn epubDir now_protect fs pre (c : Z) :
  let protectedPath := (generateOnly_protect epubDir now_protect fs).1 in
  exited_child (generateOnly_child spawn cfg epubDir) pre c →
  ∃ st r fs',
    generateOnly_deliver cfg epubDir now_protect fs pre = Some st
    ∧ generateOnly spawn cfg epubDir now_protect fs = Some (Some r, fs')
    ∧ (c = 0 ∨ c = 1 →
         findGeneratedEpub epubDir (Some (getDefaultEpubPath epubDir))
           protectedPath (st_fs st) = Some (epubOutputPath r, fs')
         ∧ (success r = true ↔ is_Some (epubOutputPath r))
         ∧ (is_Some (epubOutputPath r) → error r = None)
         ∧ (epubOutputPath r = None → c = 1 →
              error r = Some "EPUBCheck aborted EPUB generation due to validation errors. Fix the errors and try again.")
         ∧ (epubOutputPath r = None → c = 0 →
              error r = Some "EPUBCheck did not generate an EPUB file."))
    ∧ (c ≠ 0 → c ≠ 1 →
         success r = false
         ∧ epubOutputPath r = None
         ∧ error r = Some ("EPUBCheck failed with exit code " +:+ pretty c
                           +:+ "." +:+ nl +:+ st_stderr st)
         ∧ fs' = st_fs st).
Proof.
  intros protectedPath (Hchild & Hquiet).
  assert (Hst : ∃ st,
    generateOnly_deliver cfg epubDir now_protect fs pre = Some st
    ∧ st_settled st = None ∧ st_timedOut st = false).
  { unfold generateOnly_deliver.
    destruct (generateOnly_protect epubDir now_protect fs) as [pp fs1].
    destruct (generateOnly_before_close epubDir (getDefaultEpubPath epubDir)
                pp pre (mkState "" false None fs1) Hquiet)
      as (st & Hd & Hs & Ht).
    by exists st. }
  destruct Hst as (st & Hd & Hs & Ht). exists st.
  destruct (generateOnly_pending_close spawn epubDir now_protect fs pre c st)
    as (r & fs' & Hrun & Hcases); [done|done|].
  exists r, fs'. split; [exact Hd|]. split; [exact Hrun|]. exact Hcases.
Qed.

End Generate.

Lemma generateOnly_outcome_witness :
  ∃ r fs',
    generateOnly (Demo.child (Demo.packs_sibling 0)) Demo.cfg Demo.project
      Demo.t0 Demo.fs_empty = Some (Some r, fs')
    ∧ success r = true.
Proof.
  destruct (generateOnly_outcome Demo.cfg (Demo.child (Demo.packs_sibling 0))
              Demo.project Demo.t0 Demo.fs_empty
              (Demo.before_close (Demo.packs_sibling 0)) 0)
    as (st & r & fs' & Hst & Hrun & Hok & _).
  - split; reflexivity.
  - exists r, fs'. split; [exact Hrun|].
    destruct (Hok (or_introl eq_refl)) as (Hfind & Hsucc & _).
    apply Hsucc.
    vm_compute in Hst. injection Hst as <-.
    vm_compute in Hfind. injection Hfind as Hout _.
    change (Some Demo.canonical = epubOutputPath r) in Hout.
    rewrite <- Hout. by eexists.
Defined.

(** The exit code alone does not decide the outcome of [generateOnly]:
    exit code 0 without an artifact is a failure, and exit code 1 with an
    artifact is a success. *)
Lemma generateOnly_exit_code_not_sole_signal :
  (let r := outcome (generateOnly (Demo.child (Demo.silent 0)) Demo.cfg
                       Demo.project Demo.t0 Demo.fs_empty) in
   success <$> r = Some false
   ∧ (r ≫= error) = Some "EPUBCheck did not generate an EPUB file.")
  ∧ (let r := outcome (generateOnly (Demo.child (Demo.packs_sibling 1))
                         Demo.cfg Demo.project Demo.t0 Demo.fs_empty) in
     success <$> r = Some true
     ∧ (r ≫= epubOutputPath) = Some Demo.canonical).
Proof. split; cbv zeta; split; vm_compute; reflexivity. Qed.

(** A child that cannot be started: the outcome is decided by the
    ['error'] event, and the exit code of the close is not named. *)
Example generateOnly_java_missing :
  outcome (generateOnly (Demo.child Demo.java_missing) Demo.cfg Demo.project
             Demo.t0 Demo.fs_empty)
  = Some (failure Demo.project (javaNotFoundMessage Demo.cfg)).
Proof. vm_compute. reflexivity. Qed.

Lemma cleanupTmpFile_other fs p x :
  x ≠ p → files (cleanupTmpFile fs p) !! x = files fs !! x.
Proof.
  intros Hne. unfold cleanupTmpFile, unlinkSync.
  destruct (existsSync fs p); [|done].
  destruct (files fs !! p); [|done].
  case_bool_decide; [done|]. simpl. by apply lookup_delete_ne.
Qed.

(** Whatever the file system and the child: when [run] ends in its
    timeout branch, a backup that the child left alone is still at its
    hidden name. *)
Lemma run_timeout_keeps_hidden_backup JSON_parse spawn tmpdir cfg epubDir
    now_json now_protect fs pre code st pp c :
  run_closes_after JSON_parse spawn tmpdir cfg epubDir true now_json
    now_protect fs pre code st →
  st_timedOut st = true ∨ code = None →
  (run_protect epubDir true now_protect fs).1 = Some pp →
  files (st_fs st) !! pp = Some c →
  pp ≠ jsonTmpFile_of tmpdir now_json →
  ∃ r fs',
    run JSON_parse spawn tmpdir cfg epubDir true now_json now_protect fs
      = Some (Some r, fs')
    ∧ files fs' !! pp = Some c.
Proof.
  intros Hclose Hor Hpp Hc Hne.
  rewrite (run_at_close _ _ _ _ _ _ _ _ _ _ _ _ Hclose).
  destruct Hclose as (_ & _ & Hp).
  rewrite on_close_timeout by done. cbn [mbind option_bind].
  eexists _, _. split; [reflexivity|]. simpl.
  by rewrite cleanupTmpFile_other.
Qed.

(** C1, at a run that times out. An artifact exists at the canonical path
    and the protective rename succeeds; the child is killed. When [run]
    returns, the original bytes are at the hidden backup name and nothing
    is at the canonical path or at a numbered sibling; the same holds
    when the child crashes without a result file. *)
Theorem run_timeout_abandons_backup :
  (let r := run Demo.parse (Demo.child Demo.killed) Demo.tmpdir Demo.cfg
              Demo.project true Demo.t0 Demo.t0 Demo.fs_original in
   protectExistingEpub (Some Demo.canonical) Demo.t0 Demo.fs_original
     = (Some Demo.backup, Demo.fs_backup)
   ∧ outcome r = Some (failure Demo.project (timeoutMessage Demo.cfg))
   ∧ files <$> final_fs r = Some {[ Demo.backup := "ORIGINAL" ]})
  ∧ (let r := run Demo.parse (Demo.child Demo.crashes) Demo.tmpdir Demo.cfg
                Demo.project true Demo.t0 Demo.t0 Demo.fs_original in
     success <$> outcome r = Some false
     ∧ files <$> final_fs r = Some {[ Demo.backup := "ORIGINAL" ]}).
Proof.
  split; cbv zeta.
  - split; [vm_compute; reflexivity|].
    split; vm_compute; reflexivity.
  - split; vm_compute; reflexivity.
Qed.

(** Where the result file parses, the same run restores the backup: to
    the canonical path when no artifact was produced, to a numbered
    sibling when the new artifact is there. *)
Example run_parsed_restores_backup :
  files <$> final_fs
    (run Demo.parse (Demo.child Demo.reports_errors) Demo.tmpdir Demo.cfg
       Demo.project true Demo.t0 Demo.t0 Demo.fs_original)
    = Some {[ Demo.canonical := "ORIGINAL" ]}
  ∧ files <$> final_fs
      (run Demo.parse (Demo.child (Demo.packs_inside 0)) Demo.tmpdir
         Demo.cfg Demo.project true Demo.t0 Demo.t0 Demo.fs_original)
    = Some {[ Demo.canonical := "NEW";
              "/books/my-book (2).epub" := "ORIGINAL" ]}.
Proof. split; vm_compute; reflexivity. Qed.

End GenerateFacts.

(** * The unit tests of the repository, and the scenarios of the design
      document, on the embedding *)

Module RepositoryTests.
Import EpubCheckRunner RunnerSpec.

(** epubcheckRunner.test.ts, [getDefaultEpubPath] *)
Example test_default_path_sibling :
  getDefaultEpubPath "/path/to/my-book" = "/path/to/my-book.epub".
Proof. reflexivity. Qed.

Example test_default_path_root :
  getDefaultEpubPath "/my-book" = "/my-book.epub".
Proof. reflexivity. Qed.

(** epubcheckRunner.test.ts, [getUniquePath] *)
Example test_unique_as_is :
  getUniquePath (Demo.dir_with []) "/tmp/t/book.epub" = Some "/tmp/t/book.epub".
Proof. vm_compute. reflexivity. Qed.

Example test_unique_second :
  getUniquePath (Demo.dir_with [("/tmp/t/book.epub", "")]) "/tmp/t/book.epub"
  = Some "/tmp/t/book (2).epub".
Proof. vm_compute. reflexivity. Qed.

Example test_unique_third :
  getUniquePath
    (Demo.dir_with [("/tmp/t/book.epub", ""); ("/tmp/t/book (2).epub", "")])
    "/tmp/t/book.epub"
  = Some "/tmp/t/book (3).epub".
Proof. vm_compute. reflexivity. Qed.

(** epubcheckRunner.test.ts, [protectExistingEpub] *)
Example test_protect_renames :
  let '(protectedPath, fs) :=
    protectExistingEpub (Some "/tmp/t/book.epub") 1700000000000
      (Demo.dir_with [("/tmp/t/book.epub", "original")]) in
  protectedPath = Some "/tmp/t/.epubcheck-protect-1700000000000.epub"
  ∧ files fs !! "/tmp/t/.epubcheck-protect-1700000000000.epub" = Some "original"
  ∧ existsSync fs "/tmp/t/book.epub" = false.
Proof. vm_compute. split; [reflexivity|]. split; reflexivity. Qed.

Example test_protect_missing :
  (protectExistingEpub (Some "/tmp/t/nonexistent.epub") 1700000000000
     (Demo.dir_with [])).1 = None.
Proof. vm_compute. reflexivity. Qed.

Example test_protect_undefined :
  (protectExistingEpub None 1700000000000 (Demo.dir_with [])).1 = None.
Proof. reflexivity. Qed.

(** epubcheckRunner.test.ts, [restoreProtectedEpub] *)
Example test_restore_to_target :
  files <$> restoreProtectedEpub (Some "/tmp/t/.protected.epub")
              "/tmp/t/book.epub"
              (Demo.dir_with [("/tmp/t/.protected.epub", "original")])
  = Some {[ "/tmp/t/book.epub" := "original" ]}.
Proof. vm_compute. reflexivity. Qed.

Example test_restore_to_unique_name :
  files <$> restoreProtectedEpub (Some "/tmp/t/.protected.epub")
              "/tmp/t/book.epub"
              (Demo.dir_with [("/tmp/t/.protected.epub", "original");
                         ("/tmp/t/book.epub", "new version")])
  = Some {[ "/tmp/t/book.epub" := "new version";
            "/tmp/t/book (2).epub" := "original" ]}.
Proof. vm_compute. reflexivity. Qed.

Example test_restore_undefined :
  restoreProtectedEpub None "/tmp/t/book.epub" (Demo.dir_with [])
  = Some (Demo.dir_with []).
Proof. reflexivity. Qed.

(** epubcheckRunner.test.ts, [findGeneratedEpub] *)
Example test_find_moves_inside :
  (λ '(out, fs), (out, files fs)) <$>
    findGeneratedEpub "/tmp/t/my-book" (Some "/tmp/t/my-book.epub") None
      (Demo.dir_with [("/tmp/t/my-book/my-book.epub", "generated")])
  = Some (Some "/tmp/t/my-book.epub",
          {[ "/tmp/t/my-book.epub" := "generated" ]}).
Proof. vm_compute. reflexivity. Qed.

Example test_find_at_sibling :
  fst <$> findGeneratedEpub "/tmp/t/my-book" (Some "/tmp/t/my-book.epub") None
            (Demo.dir_with [("/tmp/t/my-book.epub", "generated")])
  = Some (Some "/tmp/t/my-book.epub").
Proof. vm_compute. reflexivity. Qed.

Example test_find_nothing :
  fst <$> findGeneratedEpub "/tmp/t/my-book" (Some "/tmp/t/my-book.epub") None
            (Demo.dir_with [])
  = Some None.
Proof. vm_compute. reflexivity. Qed.

Example test_find_no_target :
  fst <$> findGeneratedEpub "/tmp/t/my-book" None None (Demo.dir_with [])
  = Some None.
Proof. reflexivity. Qed.

(** A move that the operating system refuses: the artifact stays inside
    the project directory and that path is returned. *)
Example find_move_refused :
  (λ '(out, fs), (out, files fs)) <$>
    findGeneratedEpub "/tmp/t/my-book" (Some "/tmp/t/my-book.epub") None
      (mkFS {[ "/tmp/t/my-book/my-book.epub" := "generated" ]}
         {[ ("/tmp/t/my-book/my-book.epub", "/tmp/t/my-book.epub") ]} ∅)
  = Some (Some "/tmp/t/my-book/my-book.epub",
          {[ "/tmp/t/my-book/my-book.epub" := "generated" ]}).
Proof. vm_compute. reflexivity. Qed.

(** Scenario A: no existing artifact, a run that produces one. *)
Example scenario_A :
  let r := run Demo.parse (Demo.child (Demo.packs_inside 0)) Demo.tmpdir
             Demo.cfg Demo.project true Demo.t0 Demo.t0 Demo.fs_empty in
  (outcome r ≫= epubOutputPath) = Some Demo.canonical
  ∧ files <$> final_fs r = Some {[ Demo.canonical := "NEW" ]}.
Proof. cbv zeta. split; vm_compute; reflexivity. Qed.

(** Scenario B: an existing artifact, a run that produces a new one. *)
Example scenario_B :
  files <$> final_fs
    (run Demo.parse (Demo.child (Demo.packs_inside 0)) Demo.tmpdir Demo.cfg
       Demo.project true Demo.t0 Demo.t0 Demo.fs_original)
  = Some {[ Demo.canonical := "NEW";
            "/books/my-book (2).epub" := "ORIGINAL" ]}.
Proof. vm_compute. reflexivity. Qed.

(** Scenario C: exit code 1 and no artifact anywhere. *)
Example scenario_C :
  outcome (generateOnly (Demo.child (Demo.silent 1)) Demo.cfg Demo.project
             Demo.t0 Demo.fs_empty)
  = Some (mkValidation false Demo.project None
            (Some "EPUBCheck aborted EPUB generation due to validation errors. Fix the errors and try again.")
            None).
Proof. vm_compute. reflexivity. Qed.

(** Scenario D: the child is killed after it started writing the result
    file. *)
Example scenario_D :
  let r := run Demo.parse (Demo.child Demo.killed_late) Demo.tmpdir Demo.cfg
             Demo.project false Demo.t0 Demo.t0 Demo.fs_empty in
  outcome r = Some (failure Demo.project (timeoutMessage Demo.cfg))
  ∧ (λ fs, existsSync fs Demo.json) <$> final_fs r = Some false.
Proof. cbv zeta. split; vm_compute; reflexivity. Qed.

(** The promise keeps its first value: a missing Java is reported even
    though ['close'] follows. *)
Example java_not_found_then_close :
  outcome
    (run Demo.parse
       (Demo.child [ErrorEvent (mkSpawnError (Some "ENOENT") false "spawn java ENOENT");
                    CloseEvent (Some (-2))])
       Demo.tmpdir Demo.cfg Demo.project false Demo.t0 Demo.t0 Demo.fs_empty)
  = Some (failure Demo.project (javaNotFoundMessage Demo.cfg)).
Proof. vm_compute. reflexivity. Qed.

(** An ['error'] that marks the run as timed out, then a close with an
    exit code: the outcome is the timeout. *)
Example marked_timed_out_then_close :
  outcome
    (run Demo.parse
       (Demo.child [ErrorEvent (mkSpawnError (Some "ETIMEDOUT") true "timed out");
                    CloseEvent (Some 143)])
       Demo.tmpdir Demo.cfg Demo.project false Demo.t0 Demo.t0 Demo.fs_empty)
  = Some (failure Demo.project (timeoutMessage Demo.cfg)).
Proof. vm_compute. reflexivity. Qed.

End RepositoryTests.

(** * Further properties of the runner *)

Module RunnerExtras.
Import EpubCheckRunner UniquePathFacts ReconcilerFacts RunnerSpec RunFacts
  GenerateFacts OutcomeSpec.

Lemma fs_eta fs : mkFS (files fs) (refused fs) (locked fs) = fs.
Proof. by destruct fs. Qed.

Lemma hiddenName_nonempty p now : hiddenName p now ≠ "".
Proof.
  unfold hiddenName. apply join_nonempty.
  intros Heq. apply (f_equal String.length) in Heq.
  rewrite string_length_app in Heq. simpl in Heq. lia.
Qed.

(** X1. [protectExistingEpub] either changes nothing and returns no path,
    or returns the hidden name, which then holds the bytes that were at
    the given path, the given path being free. No other path is touched. *)
Theorem protectExistingEpub_contract epubPath now fs :
  let pp := (protectExistingEpub epubPath now fs).1 in
  let fs' := (protectExistingEpub epubPath now fs).2 in
  (pp = None → fs' = fs)
  ∧ (∀ q, pp = Some q →
       ∃ p c, epubPath = Some p ∧ q = hiddenName p now
            ∧ files fs !! p = Some c
            ∧ files fs' !! q = Some c
            ∧ (q ≠ p → files fs' !! p = None)
            ∧ (∀ x, x ≠ p → x ≠ q → files fs' !! x = files fs !! x)
            ∧ refused fs' = refused fs).
Proof.
  unfold protectExistingEpub. destruct epubPath as [p|]; [|by split].
  destruct (String.eqb p "" || negb (existsSync fs p)) eqn:Hguard;
    [by split|].
  apply orb_false_iff in Hguard as [_ Hex].
  apply negb_false_iff, existsSync_true in Hex as [c Hc].
  fold (hiddenName p now).
  unfold renameSync. rewrite Hc. case_bool_decide as Href; [by split|].
  simpl. split; [done|]. intros q [= <-].
  exists p, c. split; [done|]. split; [done|]. split; [done|].
  split; [by rewrite lookup_insert_eq|]. split; [|split; [|done]].
  - intros Hne. rewrite lookup_insert_ne by done. apply lookup_delete_eq.
  - intros x Hxp Hxq. rewrite lookup_insert_ne by done.
    by rewrite lookup_delete_ne.
Qed.

Lemma protect_succeeds p now fs c :
  p ≠ "" → files fs !! p = Some c → (p, hiddenName p now) ∉ refused fs →
  protectExistingEpub (Some p) now fs
  = (Some (hiddenName p now),
     mkFS (<[hiddenName p now := c]> (delete p (files fs))) (refused fs) (locked fs)).
Proof.
  intros Hp Hc Href. unfold protectExistingEpub.
  apply String.eqb_neq in Hp. rewrite Hp.
  assert (existsSync fs p = true) as -> by (apply existsSync_true; eauto).
  cbn [orb negb]. fold (hiddenName p now).
  by rewrite (renameSync_fresh fs p _ c).
Qed.

(** X2. Setting an artifact aside and restoring it, with nothing produced
    in between, gives back the file system as it was: provided nothing
    was at the hidden name and the two renames are permitted. *)
Theorem protect_restore_round_trip p now fs c :
  p ≠ "" →
  files fs !! p = Some c →
  files fs !! hiddenName p now = None →
  (p, hiddenName p now) ∉ refused fs →
  (hiddenName p now, p) ∉ refused fs →
  ∃ fs1,
    protectExistingEpub (Some p) now fs = (Some (hiddenName p now), fs1)
    ∧ restoreProtectedEpub (Some (hiddenName p now)) p fs1 = Some fs.
Proof.
  intros Hp Hc Hfree Href1 Href2.
  set (q := hiddenName p now) in *.
  assert (Hqp : q ≠ p) by congruence.
  rewrite (protect_succeeds p now fs c) by done. fold q.
  eexists. split; [reflexivity|].
  set (fs1 := mkFS (<[q := c]> (delete p (files fs))) (refused fs) (locked fs)).
  assert (Hq1 : files fs1 !! q = Some c) by (simpl; apply lookup_insert_eq).
  assert (Hp1 : files fs1 !! p = None).
  { simpl. rewrite lookup_insert_ne by done. apply lookup_delete_eq. }
  unfold restoreProtectedEpub.
  pose proof (hiddenName_nonempty p now) as Hne. fold q in Hne.
  apply String.eqb_neq in Hne. rewrite Hne.
  assert (existsSync fs1 q = true) as -> by (apply existsSync_true; eauto).
  cbn [orb negb].
  unfold getUniquePath.
  assert (existsSync fs1 p = false) as -> by by apply existsSync_false.
  cbn [negb mbind option_bind].
  rewrite (renameSync_fresh fs1 q p c) by done.
  f_equal. transitivity (mkFS (files fs) (refused fs) (locked fs)); [|apply fs_eta].
  simpl. f_equal. apply map_eq. intros x.
  destruct (decide (x = p)) as [->|Hxp].
  - by rewrite lookup_insert_eq.
  - rewrite lookup_insert_ne by done.
    destruct (decide (x = q)) as [->|Hxq].
    + by rewrite lookup_delete_eq.
    + rewrite lookup_delete_ne, lookup_insert_ne by done.
      by rewrite lookup_delete_ne.
Qed.

Lemma protect_restore_round_trip_witness :
  ∃ fs1,
    protectExistingEpub (Some Demo.canonical) Demo.t0 Demo.fs_original
      = (Some (hiddenName Demo.canonical Demo.t0), fs1)
    ∧ restoreProtectedEpub (Some (hiddenName Demo.canonical Demo.t0))
        Demo.canonical fs1 = Some Demo.fs_original.
Proof.
  apply (protect_restore_round_trip Demo.canonical Demo.t0 Demo.fs_original
           "ORIGINAL").
  - discriminate.
  - vm_compute. reflexivity.
  - vm_compute. reflexivity.
  - vm_compute. intros H. discriminate H.
  - vm_compute. intros H. discriminate H.
Defined.

(** X3. [restoreProtectedEpub] always returns, and conserves the files:
    every file other than the backup stays where it is with its content,
    the number of files is unchanged, and the bytes of the backup are
    at the backup's own name or at a name that was free. *)
Theorem restoreProtectedEpub_conserves protectedPath target fs :
  ∃ fs', restoreProtectedEpub protectedPath target fs = Some fs'
       ∧ size (files fs') = size (files fs)
       ∧ (∀ x, protectedPath ≠ Some x → is_Some (files fs !! x) →
            files fs' !! x = files fs !! x)
       ∧ (∀ pp c, protectedPath = Some pp → files fs !! pp = Some c →
            ∃ q, files fs' !! q = Some c
               ∧ (q = pp ∨ files fs !! q = None)).
Proof.
  destruct (restore_outcome protectedPath target fs)
    as (fs' & Hr & _ & Hcases).
  exists fs'. split; [done|].
  destruct Hcases as [->|(pp & q & c & -> & Hpp & Hq & Hfiles)].
  - split; [done|]. split; [done|]. intros pp c _ Hc. exists pp. auto.
  - assert (Hne : q ≠ pp) by congruence.
    split; [|split].
    + rewrite Hfiles, map_size_insert_None
        by (rewrite lookup_delete_ne by done; done).
      rewrite map_size_delete_Some by eauto.
      pose proof (map_size_ne_0_lookup_2 (files fs) pp) as Hpos.
      specialize (Hpos (ltac:(eauto))). lia.
    + intros x Hx [cx Hcx]. rewrite Hfiles.
      rewrite lookup_insert_ne by congruence.
      rewrite lookup_delete_ne by congruence. done.
    + intros pp' c' [= <-] Hc'. exists q. split; [|by right].
      rewrite Hfiles, lookup_insert_eq. congruence.
Qed.

Lemma getUniquePath_cases fs p q :
  getUniquePath fs p = Some q →
  (existsSync fs p = false ∧ q = p)
  ∨ (existsSync fs p = true
     ∧ ∃ n, (2 ≤ n)%nat
          ∧ q = candidate (Path.dirname p)
                  (Path.basename_ext p (Path.extname p)) (Path.extname p) n).
Proof.
  unfold getUniquePath. destruct (existsSync fs p); cbn [negb].
  - intros Hloop. right. split; [done|].
    destruct (loop_returns _ _ _ _ _ _ _ Hloop) as (n & Hn & -> & _).
    exists n. split; [lia|done].
  - intros [= <-]. by left.
Qed.

(** With no rename refused, a restore moves the backup to the name
    [getUniquePath] gives. *)
Lemma restore_moves pp target fs c :
  pp ≠ "" → files fs !! pp = Some c → refused fs = ∅ →
  ∃ q, getUniquePath fs target = Some q
     ∧ files fs !! q = None
     ∧ restoreProtectedEpub (Some pp) target fs
       = Some (mkFS (<[q := c]> (delete pp (files fs))) (refused fs) (locked fs)).
Proof.
  intros Hpp Hc Href.
  destruct (getUniquePath_total fs target) as (q & Hq & Hfree).
  exists q. split; [done|]. split; [by apply existsSync_false|].
  unfold restoreProtectedEpub.
  apply String.eqb_neq in Hpp. rewrite Hpp.
  assert (existsSync fs pp = true) as -> by (apply existsSync_true; eauto).
  cbn [orb negb]. rewrite Hq. cbn [mbind option_bind].
  rewrite (renameSync_fresh fs pp q c); [done..|].
  rewrite Href. apply not_elem_of_empty.
Qed.

(** X4. [findGeneratedEpub] with a backup and no rename refused never
    loses the original: afterwards its bytes are at the canonical path
    when no artifact was found, at a numbered sibling when the artifact
    occupies the canonical path, and the hidden name is gone. *)
Theorem findGeneratedEpub_keeps_original epubDir target pp c fs :
  let inside := Path.join epubDir (Path.basename epubDir +:+ ".epub") in
  target ≠ "" → pp ≠ "" → pp ≠ target → pp ≠ inside →
  files fs !! pp = Some c →
  refused fs = ∅ →
  ∃ out fs' q,
    findGeneratedEpub epubDir (Some target) (Some pp) fs = Some (out, fs')
    ∧ files fs' !! q = Some c
    ∧ files fs' !! pp = None
    ∧ (out = None → q = target)
    ∧ (out ≠ None →
         out = Some target
         ∧ is_Some (files fs' !! target)
         ∧ ∃ n, (2 ≤ n)%nat
              ∧ q = candidate (Path.dirname target)
                      (Path.basename_ext target (Path.extname target))
                      (Path.extname target) n).
Proof.
  intros inside Htarget Hpp Hpt Hpi Hc Href.
  assert (Hafter : ∀ fs0 : FS,
    files fs0 !! pp = Some c → refused fs0 = ∅ →
    ∃ fs' q,
      restoreProtectedEpub (Some pp) target fs0 = Some fs'
      ∧ files fs' !! q = Some c ∧ files fs' !! pp = None
      ∧ (existsSync fs0 target = false → q = target)
      ∧ (existsSync fs0 target = true →
           files fs' !! target = files fs0 !! target
           ∧ ∃ n, (2 ≤ n)%nat
                ∧ q = candidate (Path.dirname target)
                        (Path.basename_ext target (Path.extname target))
                        (Path.extname target) n)).
  { intros fs0 Hc0 Href0.
    destruct (restore_moves pp target fs0 c Hpp Hc0 Href0)
      as (q & Hq & Hfree & Hr).
    assert (Hqp : q ≠ pp) by congruence.
    eexists _, q. split; [exact Hr|]. simpl.
    split; [by rewrite lookup_insert_eq|].
    split; [rewrite lookup_insert_ne by done; apply lookup_delete_eq|].
    destruct (getUniquePath_cases _ _ _ Hq) as [[Hex ->]|[Hex Hn]].
    - split; [done|]. by rewrite Hex.
    - split; [by rewrite Hex|]. intros _. split; [|done].
      apply existsSync_true in Hex as [ct Hct].
      rewrite lookup_insert_ne by congruence.
      by rewrite lookup_delete_ne by congruence. }
  unfold findGeneratedEpub. fold inside.
  apply String.eqb_neq in Htarget. rewrite Htarget.
  destruct (existsSync fs inside) eqn:Hin.
  - apply existsSync_true in Hin as [ci Hci].
    rewrite (renameSync_fresh fs inside target ci)
      by (done || rewrite Href; apply not_elem_of_empty).
    set (fs1 := mkFS (<[target := ci]> (delete inside (files fs))) (refused fs) (locked fs)).
    assert (Hc1 : files fs1 !! pp = Some c).
    { simpl. rewrite lookup_insert_ne by done.
      by rewrite lookup_delete_ne by done. }
    assert (Hex1 : existsSync fs1 target = true).
    { apply existsSync_true. simpl. rewrite lookup_insert_eq. eauto. }
    destruct (Hafter fs1 Hc1 Href) as (fs' & q & Hr & Hq & Hgone & _ & Hocc).
    rewrite Hr. cbn [mbind option_bind].
    exists (Some target), fs', q. split; [done|]. split; [done|].
    split; [done|]. split; [done|]. intros _.
    destruct (Hocc Hex1) as [Hkept Hn]. split; [done|]. split; [|done].
    rewrite Hkept. by apply existsSync_true.
  - destruct (Hafter fs Hc Href) as (fs' & q & Hr & Hq & Hgone & Hfree & Hocc).
    rewrite Hr.
    destruct (existsSync fs target) eqn:Hex; cbn [mbind option_bind].
    + exists (Some target), fs', q. split; [done|]. split; [done|].
      split; [done|]. split; [done|]. intros _.
      destruct (Hocc eq_refl) as [Hkept Hn]. split; [done|]. split; [|done].
      rewrite Hkept. by apply existsSync_true.
    + exists None, fs', q. split; [done|]. split; [done|].
      split; [done|]. split; [auto|]. done.
Qed.

Lemma findGeneratedEpub_keeps_original_witness :
  ∃ out fs' q,
    findGeneratedEpub Demo.project (Some Demo.canonical) (Some Demo.backup)
      (Demo.write Demo.inside "NEW" Demo.fs_backup) = Some (out, fs')
    ∧ files fs' !! q = Some "ORIGINAL"
    ∧ files fs' !! Demo.backup = None.
Proof.
  destruct (findGeneratedEpub_keeps_original Demo.project Demo.canonical
              Demo.backup "ORIGINAL"
              (Demo.write Demo.inside "NEW" Demo.fs_backup))
    as (out & fs' & q & Hfind & Hq & Hgone & _).
  - discriminate.
  - discriminate.
  - discriminate.
  - vm_compute. discriminate.
  - vm_compute. reflexivity.
  - reflexivity.
  - exists out, fs', q. auto.
Defined.

End RunnerExtras.

(** * Further properties of the runner: the promise *)

Module OutcomeFacts.
Import EpubCheckRunner UniquePathFacts ReconcilerFacts RunnerSpec RunFacts
  GenerateFacts OutcomeSpec.

(** Closes goals [s ≠ ""] for a string built by appending to a literal. *)
Ltac nonempty_string :=
  let H := fresh in
  intros H; apply (f_equal String.length) in H;
  rewrite ?string_length_app in H; simpl in H; lia.

Lemma resolve_settles shaped r st :
  shaped r → settles shaped (st_settled st) (st_settled (resolve r st)).
Proof.
  intros Hr. unfold resolve. destruct (st_settled st) eqn:Hs.
  - left. by rewrite Hs.
  - right. split; [done|]. by exists r.
Qed.

Lemma resolve_is_Some r st : is_Some (st_settled (resolve r st)).
Proof. unfold resolve. destruct (st_settled st) eqn:Hs; [rewrite Hs|]; eauto. Qed.

Lemma resolve_fs r st : st_fs (resolve r st) = st_fs st.
Proof. unfold resolve. by destruct (st_settled st). Qed.

(** ** What any pair of handlers that resolve properly gives *)

Section Handlers.
Variable on_close : option Z → RunState → option RunState.
Variable on_error : SpawnError → RunState → RunState.
Variable shaped : ValidationResult → Prop.

Hypothesis close_ok : ∀ code st,
  ∃ st', on_close code st = Some st'
       ∧ is_Some (st_settled st')
       ∧ settles shaped (st_settled st) (st_settled st').
Hypothesis error_ok : ∀ err st,
  settles shaped (st_settled st) (st_settled (on_error err st)).

Lemma deliver1_settles ev st :
  ∃ st', deliver1 on_close on_error ev st = Some st'
       ∧ settles shaped (st_settled st) (st_settled st')
       ∧ (is_close ev = true → is_Some (st_settled st')).
Proof.
  destruct ev as [f|data|err|code]; simpl.
  - eexists. split; [done|]. split; [by left|done].
  - eexists. split; [done|]. split; [by left|done].
  - eexists. split; [done|]. split; [apply error_ok|done].
  - destruct (close_ok code st) as (st' & -> & Hsome & Hstep). eauto.
Qed.

Lemma deliver_settles evs st :
  ∃ st', deliver on_close on_error evs st = Some st'
       ∧ settles shaped (st_settled st) (st_settled st')
       ∧ (existsb is_close evs = true → is_Some (st_settled st')).
Proof.
  revert st. induction evs as [|ev evs IH]; intros st.
  - exists st. split; [done|]. split; [by left|done].
  - destruct (deliver1_settles ev st) as (st1 & H1 & Hstep1 & Hclose1).
    destruct (IH st1) as (st2 & H2 & Hstep2 & Hclose2).
    exists st2. simpl. rewrite H1. cbn [mbind option_bind].
    split; [done|]. split.
    + destruct Hstep1 as [Heq|(Hnone & r & Hr & Hshaped)].
      * by rewrite <- Heq.
      * destruct Hstep2 as [Heq|(Hnone2 & _)]; [|congruence].
        right. split; [done|]. exists r. by rewrite Heq.
    + intros [Hc|Hc]%orb_true_iff; [|by apply Hclose2].
      destruct (Hclose1 Hc) as [r Hr].
      destruct Hstep2 as [->|(Hnone2 & _)]; [eauto|congruence].
Qed.

End Handlers.

(** ** The handlers of [run] and [generateOnly] resolve properly *)

Section Run.
Variable JSON_parse : string → Try EpubCheckResult.
Variable cfg : Settings.

Lemma failure_run_shaped epubDir save msg :
  msg ≠ "" → run_shaped epubDir save (failure epubDir msg).
Proof. intros Hm. split; [done|]. simpl. eauto. Qed.

Lemma failure_generate_shaped epubDir msg :
  msg ≠ "" → generate_shaped epubDir (failure epubDir msg).
Proof.
  intros Hm. split; [done|]. split; [done|]. simpl.
  split; [|split; [done|eauto]].
  split; [done|]. by intros [??].
Qed.

Lemma timeoutMessage_nonempty : timeoutMessage cfg ≠ "".
Proof. unfold timeoutMessage. nonempty_string. Qed.

Lemma javaNotFoundMessage_nonempty : javaNotFoundMessage cfg ≠ "".
Proof. unfold javaNotFoundMessage. nonempty_string. Qed.

Lemma parseFailureMessage_nonempty stderr code :
  parseFailureMessage stderr code ≠ "".
Proof.
  unfold parseFailureMessage.
  destruct (String.eqb stderr ""), code as [c|];
    try destruct (bool_decide (c ≠ 0)); try nonempty_string; done.
Qed.

Lemma run_on_close_ok epubDir save json dflt protectedPath code st :
  ∃ st', run_on_close JSON_parse cfg epubDir save json dflt protectedPath
           code st = Some st'
       ∧ is_Some (st_settled st')
       ∧ settles (run_shaped epubDir save) (st_settled st) (st_settled st')
       ∧ (save = false → st_fs st' = cleanupTmpFile (st_fs st) json).
Proof.
  unfold run_on_close.
  destruct (st_timedOut st || bool_decide (code = None)).
  { eexists. split; [done|]. split; [apply resolve_is_Some|].
    split; [|by rewrite resolve_fs].
    apply (resolve_settles _ _ (with_fs st _)), failure_run_shaped,
      timeoutMessage_nonempty. }
  destruct (_ ← readFileSync (st_fs st) json; JSON_parse _) as [result|e].
  - pose proof (located_total epubDir save dflt protectedPath
                  (cleanupTmpFile (st_fs st) json)) as [[out fs2] Hloc].
    unfold located in Hloc. rewrite Hloc. cbn [mbind option_bind].
    eexists. split; [done|]. split; [apply resolve_is_Some|]. split.
    + apply (resolve_settles _ _ (with_fs st _)). split; [done|]. simpl.
      split; [done|]. split; [done|].
      intros ->. by injection Hloc as <- _.
    + intros ->. rewrite resolve_fs. by injection Hloc as _ <-.
  - eexists. split; [done|]. split; [apply resolve_is_Some|].
    split; [|by rewrite resolve_fs].
    apply (resolve_settles _ _ (with_fs st _)), failure_run_shaped,
      parseFailureMessage_nonempty.
Qed.

Lemma run_on_error_ok epubDir save json err st :
  settles (run_shaped epubDir save) (st_settled st)
    (st_settled (run_on_error cfg epubDir json err st))
  ∧ st_fs (run_on_error cfg epubDir json err st)
    = cleanupTmpFile (st_fs st) json.
Proof.
  unfold run_on_error. case_bool_decide.
  { split; [|by rewrite resolve_fs].
    apply (resolve_settles _ _ (with_fs st _)), failure_run_shaped,
      javaNotFoundMessage_nonempty. }
  destruct (bool_decide _ || err_killed err).
  { split; [by left|done]. }
  split; [|by rewrite resolve_fs].
  apply (resolve_settles _ _ (with_fs st _)), failure_run_shaped.
  nonempty_string.
Qed.

Lemma generateOnly_on_close_ok epubDir protectedPath code st :
  ∃ st', generateOnly_on_close cfg epubDir (getDefaultEpubPath epubDir)
           protectedPath code st = Some st'
       ∧ is_Some (st_settled st')
       ∧ settles (generate_shaped epubDir) (st_settled st) (st_settled st').
Proof.
  unfold generateOnly_on_close.
  destruct (st_timedOut st || bool_decide (code = None)).
  { eexists. split; [done|]. split; [apply resolve_is_Some|].
    apply resolve_settles, failure_generate_shaped, timeoutMessage_nonempty. }
  destruct (bool_decide (code = Some 0) || bool_decide (code = Some 1)).
  - destruct (findGeneratedEpub_total epubDir
                (Some (getDefaultEpubPath epubDir)) protectedPath (st_fs st))
      as [[finalPath fs1] Hfind].
    rewrite Hfind. cbn [mbind option_bind].
    rewrite (findGeneratedEpub_falsy _ _ _ _ _ _ Hfind).
    eexists. split; [done|]. split; [apply resolve_is_Some|].
    apply (resolve_settles _ _ (with_fs st _)).
    split; [done|]. split; [done|]. simpl.
    destruct finalPath as [p|].
    + rewrite (bool_decide_eq_false_2 (Some p = None)) by done.
      rewrite (bool_decide_eq_true_2 (Some p ≠ None)) by done.
      cbn [andb]. split; [split; eauto|]. split; [done|]. done.
    + rewrite (bool_decide_eq_true_2 (None = None)) by done.
      rewrite (bool_decide_eq_false_2 (None ≠ None)) by (intros ?; done).
      cbn [andb]. split; [split; [done|by intros [??]]|].
      split; [done|]. intros _.
      destruct (bool_decide (code = Some 1)); eexists; split; done.
  - eexists. split; [done|]. split; [apply resolve_is_Some|].
    apply resolve_settles, failure_generate_shaped. nonempty_string.
Qed.

Lemma generateOnly_on_error_ok epubDir err st :
  settles (generate_shaped epubDir) (st_settled st)
    (st_settled (generateOnly_on_error cfg epubDir err st)).
Proof.
  unfold generateOnly_on_error. case_bool_decide.
  { apply resolve_settles, failure_generate_shaped,
      javaNotFoundMessage_nonempty. }
  destruct (bool_decide _ || err_killed err); [by left|].
  apply resolve_settles, failure_generate_shaped. nonempty_string.
Qed.

Lemma run_deliver_settles tmpdir epubDir save now_json now_protect fs evs :
  ∃ st', run_deliver JSON_parse tmpdir cfg epubDir save now_json
           now_protect fs evs = Some st'
       ∧ (st_settled st' = None
          ∨ ∃ r, st_settled st' = Some r ∧ run_shaped epubDir save r)
       ∧ (existsb is_close evs = true → is_Some (st_settled st')).
Proof.
  unfold run_deliver.
  destruct (run_protect epubDir save now_protect fs) as [pp fs1].
  edestruct (deliver_settles
               (run_on_close JSON_parse cfg epubDir save
                  (jsonTmpFile_of tmpdir now_json)
                  (defaultEpubPath_of epubDir save) pp)
               (run_on_error cfg epubDir (jsonTmpFile_of tmpdir now_json))
               (run_shaped epubDir save))
    as (st' & Hd & Hstep & Hclose).
  - intros code st.
    destruct (run_on_close_ok epubDir save (jsonTmpFile_of tmpdir now_json)
                (defaultEpubPath_of epubDir save) pp code st)
      as (st' & ? & ? & ? & _). eauto.
  - intros err st. apply run_on_error_ok.
  - exists st'. split; [exact Hd|]. split; [|done].
    destruct Hstep as [->|(_ & r & ? & ?)]; [by left|right; eauto].
Qed.

Lemma generateOnly_deliver_settles epubDir now_protect fs evs :
  ∃ st', generateOnly_deliver cfg epubDir now_protect fs evs = Some st'
       ∧ (st_settled st' = None
          ∨ ∃ r, st_settled st' = Some r ∧ generate_shaped epubDir r)
       ∧ (existsb is_close evs = true → is_Some (st_settled st')).
Proof.
  unfold generateOnly_deliver.
  destruct (generateOnly_protect epubDir now_protect fs) as [pp fs1].
  edestruct (deliver_settles
               (generateOnly_on_close cfg epubDir
                  (getDefaultEpubPath epubDir) pp)
               (generateOnly_on_error cfg epubDir)
               (generate_shaped epubDir))
    as (st' & Hd & Hstep & Hclose).
  - intros code st. apply generateOnly_on_close_ok.
  - intros err st. apply generateOnly_on_error_ok.
  - exists st'. split; [exact Hd|]. split; [|done].
    destruct Hstep as [->|(_ & r & ? & ?)]; [by left|right; eauto].
Qed.

(** X5. Every outcome of [run] either carries the parsed result, no
    error, and a [success] that says no message is FATAL or ERROR; or
    is a failure with a non-empty error text, no parsed result and no
    artifact path. A validation-only run never reports an artifact. *)
Theorem run_outcome_shape spawn tmpdir epubDir save now_json now_protect
    fs r fs' :
  run JSON_parse spawn tmpdir cfg epubDir save now_json now_protect fs
    = Some (Some r, fs') →
  run_shaped epubDir save r.
Proof.
  rewrite run_unfold.
  destruct (run_deliver_settles tmpdir epubDir save now_json now_protect fs
              (run_child spawn tmpdir cfg epubDir save now_json))
    as (st' & -> & Hshape & _).
  cbn [mbind option_bind]. intros [= Hs _].
  destruct Hshape as [Hnone|(r' & Hr' & Hshaped)]; congruence.
Qed.

(** X6. Every outcome of [generateOnly] is successful exactly when it
    carries an artifact path; a successful one has no error, a failed
    one has a non-empty error text. *)
Theorem generateOnly_outcome_shape spawn epubDir now_protect fs r fs' :
  generateOnly spawn cfg epubDir now_protect fs = Some (Some r, fs') →
  generate_shaped epubDir r.
Proof.
  rewrite generateOnly_unfold.
  destruct (generateOnly_deliver_settles epubDir now_protect fs
              (generateOnly_child spawn cfg epubDir))
    as (st' & -> & Hshape & _).
  cbn [mbind option_bind]. intros [= Hs _].
  destruct Hshape as [Hnone|(r' & Hr' & Hshaped)]; congruence.
Qed.

(** X7. [run] and [generateOnly] always return, whatever the child
    does, and whenever the child closes their promise is resolved. *)
Theorem runs_return_and_resolve spawn tmpdir epubDir save now_json
    now_protect fs :
  (∃ o fs',
     run JSON_parse spawn tmpdir cfg epubDir save now_json now_protect fs
       = Some (o, fs')
     ∧ (existsb is_close (run_child spawn tmpdir cfg epubDir save now_json)
          = true → is_Some o))
  ∧ (∃ o fs',
       generateOnly spawn cfg epubDir now_protect fs = Some (o, fs')
       ∧ (existsb is_close (generateOnly_child spawn cfg epubDir) = true →
          is_Some o)).
Proof.
  split.
  - rewrite run_unfold.
    destruct (run_deliver_settles tmpdir epubDir save now_json now_protect
                fs (run_child spawn tmpdir cfg epubDir save now_json))
      as (st' & -> & _ & Hclose).
    cbn [mbind option_bind]. eauto.
  - rewrite generateOnly_unfold.
    destruct (generateOnly_deliver_settles epubDir now_protect fs
                (generateOnly_child spawn cfg epubDir))
      as (st' & -> & _ & Hclose).
    cbn [mbind option_bind]. eauto.
Qed.

(** X8. The first resolution wins: when the events of one child resolve
    the promise of [run] with an outcome, a child that emits the same
    events and then more has the same outcome. *)
Theorem run_first_resolution_wins spawn1 spawn2 tmpdir epubDir save
    now_json now_protect fs later r :
  run_child spawn2 tmpdir cfg epubDir save now_json
    = (run_child spawn1 tmpdir cfg epubDir save now_json ++ later)%list →
  outcome (run JSON_parse spawn1 tmpdir cfg epubDir save now_json
             now_protect fs) = Some r →
  outcome (run JSON_parse spawn2 tmpdir cfg epubDir save now_json
             now_protect fs) = Some r.
Proof.
  intros Hchild. rewrite !run_unfold, Hchild.
  unfold run_deliver.
  destruct (run_protect epubDir save now_protect fs) as [pp fs1].
  rewrite deliver_app.
  destruct (deliver _ _ (run_child spawn1 _ _ _ _ _) _) as [st1|]; [|done].
  cbn [mbind option_bind outcome fst]. intros Hr.
  edestruct (deliver_settles
               (run_on_close JSON_parse cfg epubDir save
                  (jsonTmpFile_of tmpdir now_json)
                  (defaultEpubPath_of epubDir save) pp)
               (run_on_error cfg epubDir (jsonTmpFile_of tmpdir now_json))
               (run_shaped epubDir save))
    as (st2 & Hd & Hstep & _).
  - intros code st.
    destruct (run_on_close_ok epubDir save (jsonTmpFile_of tmpdir now_json)
                (defaultEpubPath_of epubDir save) pp code st)
      as (st' & ? & ? & ? & _). eauto.
  - intros err st. apply run_on_error_ok.
  - rewrite Hd. cbn [mbind option_bind fst].
    destruct Hstep as [->|(Hnone & _)]; [done|]. simpl in Hr. congruence.
Qed.

Lemma run_deliver_frame tmpdir epubDir now_json evs st st' :
  Forall (writes_only (jsonTmpFile_of tmpdir now_json)) evs →
  deliver
    (run_on_close JSON_parse cfg epubDir false
       (jsonTmpFile_of tmpdir now_json) None None)
    (run_on_error cfg epubDir (jsonTmpFile_of tmpdir now_json))
    evs st = Some st' →
  ∀ x, x ≠ jsonTmpFile_of tmpdir now_json →
       files (st_fs st') !! x = files (st_fs st) !! x.
Proof.
  intros Hall. revert st.
  induction Hall as [|ev evs Hev Hall IH]; intros st Hd x Hx.
  - by injection Hd as <-.
  - simpl in Hd.
    destruct (deliver1 _ _ ev st) as [st1|] eqn:H1; [|done].
    cbn [mbind option_bind] in Hd. rewrite (IH st1 Hd x Hx).
    destruct ev as [f|data|err|code]; simpl in H1.
    + injection H1 as <-. simpl. by apply Hev.
    + by injection H1 as <-.
    + injection H1 as <-.
      destruct (run_on_error_ok epubDir false
                  (jsonTmpFile_of tmpdir now_json) err st) as [_ ->].
      by apply cleanupTmpFile_other.
    + destruct (run_on_close_ok epubDir false
                  (jsonTmpFile_of tmpdir now_json) None None code st)
        as (st1' & Hc & _ & _ & Hfs).
      rewrite Hc in H1. injection H1 as <-. rewrite Hfs by done.
      by apply cleanupTmpFile_other.
Qed.

(** X9. A validation-only run ([save] false) whose tool writes nothing
    but the result file changes no other path of the file system. *)
Theorem run_validation_only_frame spawn tmpdir epubDir now_json
    now_protect fs o fs' :
  Forall (writes_only (jsonTmpFile_of tmpdir now_json))
    (run_child spawn tmpdir cfg epubDir false now_json) →
  run JSON_parse spawn tmpdir cfg epubDir false now_json now_protect fs
    = Some (o, fs') →
  ∀ x, x ≠ jsonTmpFile_of tmpdir now_json →
       files fs' !! x = files fs !! x.
Proof.
  intros Hall. rewrite run_unfold. unfold run_deliver, run_protect.
  destruct (deliver _ _ _ _) as [st'|] eqn:Hd; [|done].
  cbn [mbind option_bind]. intros [= _ <-] x Hx.
  by rewrite (run_deliver_frame tmpdir epubDir now_json _ _ _ Hall Hd x Hx).
Qed.

End Run.

Lemma run_outcome_shape_witness :
  ∃ r, outcome (run Demo.parse (Demo.child Demo.reports_errors) Demo.tmpdir
                  Demo.cfg Demo.project true Demo.t0 Demo.t0
                  Demo.fs_original) = Some r
     ∧ run_shaped Demo.project true r.
Proof.
  eexists. split; [vm_compute; reflexivity|].
  eapply (run_outcome_shape Demo.parse Demo.cfg
            (Demo.child Demo.reports_errors) Demo.tmpdir Demo.project true
            Demo.t0 Demo.t0 Demo.fs_original).
  vm_compute. reflexivity.
Defined.

Lemma generateOnly_outcome_shape_witness :
  ∃ r, outcome (generateOnly (Demo.child (Demo.silent 1)) Demo.cfg
                  Demo.project Demo.t0 Demo.fs_original) = Some r
     ∧ generate_shaped Demo.project r.
Proof.
  eexists. split; [vm_compute; reflexivity|].
  eapply (generateOnly_outcome_shape Demo.cfg (Demo.child (Demo.silent 1))
            Demo.project Demo.t0 Demo.fs_original).
  vm_compute. reflexivity.
Defined.

Lemma run_first_resolution_wins_witness :
  ∃ r, outcome (run Demo.parse (Demo.child (Demo.packs_inside 0)) Demo.tmpdir
                  Demo.cfg Demo.project true Demo.t0 Demo.t0
                  Demo.fs_original) = Some r
     ∧ outcome (run Demo.parse
                  (Demo.child
                     (Demo.packs_inside 0
                      ++ [ErrorEvent (mkSpawnError None true "killed")])%list)
                  Demo.tmpdir Demo.cfg Demo.project true Demo.t0 Demo.t0
                  Demo.fs_original) = Some r.
Proof.
  eexists. split; [vm_compute; reflexivity|].
  eapply (run_first_resolution_wins Demo.parse Demo.cfg
            (Demo.child (Demo.packs_inside 0))).
  - reflexivity.
  - vm_compute. reflexivity.
Defined.

Lemma run_validation_only_frame_witness :
  ∃ o fs',
    run Demo.parse
      (Demo.child [ToolStep (Demo.write Demo.json "{clean}");
                   CloseEvent (Some 0)])
      Demo.tmpdir Demo.cfg Demo.project false Demo.t0 Demo.t0
      Demo.fs_original = Some (o, fs')
    ∧ ∀ x, x ≠ jsonTmpFile_of Demo.tmpdir Demo.t0 →
           files fs' !! x = files Demo.fs_original !! x.
Proof.
  eexists _, _. split; [vm_compute; reflexivity|].
  eapply (run_validation_only_frame Demo.parse Demo.cfg
            (Demo.child [ToolStep (Demo.write Demo.json "{clean}");
                         CloseEvent (Some 0)])
            Demo.tmpdir Demo.project Demo.t0 Demo.t0 Demo.fs_original).
  - repeat constructor. intros fs x Hx. simpl. by apply lookup_insert_ne.
  - vm_compute. reflexivity.
Defined.

End OutcomeFacts.

(** * Properties of [updateDiagnostics] *)

Module CollectionFacts.
Import DiagnosticsProvider DiagnosticsCollection DiagnosticsSpec
  DiagnosticsFacts CollectionSpec.

(** ** The insertion-ordered map *)

Section JsMapFacts.
Context {V : Type}.
Implicit Types (m : JsMap.t V) (k : string) (v : V).

Lemma get_set_eq m k v : JsMap.get (JsMap.set m k v) k = Some v.
Proof.
  induction m as [|[k' v'] m IH]; simpl.
  - by rewrite String.eqb_refl.
  - destruct (String.eqb_spec k' k) as [->|Hne]; simpl.
    + by rewrite String.eqb_refl.
    + by apply String.eqb_neq in Hne as ->.
Qed.

Lemma get_set_ne m k k' v :
  k ≠ k' → JsMap.get (JsMap.set m k v) k' = JsMap.get m k'.
Proof.
  intros Hne. induction m as [|[k0 v0] m IH]; simpl.
  - by apply String.eqb_neq in Hne as ->.
  - destruct (String.eqb_spec k0 k) as [->|Hk]; simpl.
    + by apply String.eqb_neq in Hne as ->.
    + by rewrite IH.
Qed.

Lemma get_None_keys m k : JsMap.get m k = None ↔ k ∉ keys m.
Proof.
  induction m as [|[k' v'] m IH]; simpl.
  - split; [intros _; apply not_elem_of_nil|done].
  - rewrite not_elem_of_cons, <- IH.
    destruct (String.eqb_spec k' k) as [->|Hne].
    + split; [done|]. by intros [? _].
    + split; [intros ?; split; [congruence|done]|by intros [_ ?]].
Qed.

Lemma has_get m k : JsMap.has m k = true ↔ is_Some (JsMap.get m k).
Proof.
  unfold JsMap.has. destruct (JsMap.get m k); split; try done; eauto.
Qed.

Lemma set_fresh m k v : k ∉ keys m → JsMap.set m k v = (m ++ [(k, v)])%list.
Proof.
  induction m as [|[k' v'] m IH]; simpl; [done|].
  intros [Hne Hm]%not_elem_of_cons.
  destruct (String.eqb_spec k' k) as [->|_]; [done|]. by rewrite IH.
Qed.

Lemma keys_set_present m k v :
  is_Some (JsMap.get m k) → keys (JsMap.set m k v) = keys m.
Proof.
  induction m as [|[k' v'] m IH]; simpl; [by intros [??]|].
  destruct (String.eqb_spec k' k) as [->|_]; simpl; [done|].
  intros Hs. by rewrite IH.
Qed.

Lemma NoDup_keys_set m k v : NoDup (keys m) → NoDup (keys (JsMap.set m k v)).
Proof.
  intros Hnd. destruct (JsMap.get m k) eqn:Hg.
  - by rewrite keys_set_present by eauto.
  - apply get_None_keys in Hg. rewrite set_fresh by done.
    unfold keys. rewrite map_app. simpl.
    apply NoDup_app. split; [done|]. split; [|apply NoDup_singleton].
    intros x Hx ->%list_elem_of_singleton. done.
Qed.

(** Setting the entries of a map with distinct keys, one after the
    other, into an empty map rebuilds it. *)
Lemma fold_set_rebuilds m (acc : JsMap.t V) :
  NoDup (keys acc ++ keys m) →
  fold_left (λ c entry, JsMap.set c entry.1 entry.2) m acc = (acc ++ m)%list.
Proof.
  revert acc. induction m as [|[k v] m IH]; intros acc Hnd; simpl.
  - by rewrite app_nil_r.
  - assert (Hk : k ∉ keys acc).
    { apply NoDup_app in Hnd as (_ & Hdisj & _).
      intros Hin. apply (Hdisj k Hin). simpl. left. }
    rewrite set_fresh by done. rewrite IH.
    + by rewrite <- app_assoc.
    + unfold keys in *. rewrite map_app. simpl.
      rewrite <- app_assoc. done.
Qed.

End JsMapFacts.

Lemma all_diagnostics_set_push (m : JsMap.t (list Diagnostic)) k ds d :
  JsMap.get m k = Some ds →
  all_diagnostics (JsMap.set m k (ds ++ [d])%list)
  ≡ₚ (all_diagnostics m ++ [d])%list.
Proof.
  unfold all_diagnostics.
  induction m as [|[k' v'] m IH]; simpl; [done|].
  destruct (String.eqb_spec k' k) as [->|_]; simpl.
  - intros [= ->]. rewrite <- !app_assoc. apply Permutation_app_head.
    apply Permutation_app_comm.
  - intros Hg. rewrite IH by done. by rewrite app_assoc.
Qed.

Lemma all_diagnostics_set_empty (m : JsMap.t (list Diagnostic)) k :
  JsMap.get m k = None →
  all_diagnostics (JsMap.set m k []) = all_diagnostics m.
Proof.
  intros Hg%get_None_keys. rewrite set_fresh by done.
  unfold all_diagnostics. rewrite map_app, concat_app. simpl.
  by rewrite app_nil_r.
Qed.

(** ** The loops *)

Section Pass.
Variable uri_of_file : string → string.
Variable fs : FS.

Local Abbreviation visit := (visit_entries uri_of_file fs).
Local Abbreviation uri_of := (λ e : Entry, uri_of_file (filePath_of e)).

Lemma visit_entries_app (a b : list Entry) st :
  visit (a ++ b)%list st = st' ← visit a st; visit b st'.
Proof.
  revert st. induction a as [|e a IH]; intros st; [done|].
  simpl. destruct (visit_location _ _ _ _ _ st); [|done].
  simpl. apply IH.
Qed.

Lemma visit_locations_entries epubDir m locs st :
  visit_locations uri_of_file fs epubDir m locs st
  = visit (map (λ l, (epubDir, m, l)) locs) st.
Proof.
  revert st. induction locs as [|l locs IH]; intros st; [done|].
  simpl. destruct (visit_location _ _ _ _ _ st); [|done].
  simpl. apply IH.
Qed.

Lemma visit_messages_entries epubDir msgs st :
  visit_messages uri_of_file fs epubDir msgs st
  = visit (flat_map (λ m, map (λ l, (epubDir, m, l)) (msg_locations m)) msgs)
      st.
Proof.
  revert st. induction msgs as [|m msgs IH]; intros st; [done|].
  simpl. rewrite visit_entries_app, visit_locations_entries.
  destruct (visit _ st); [|done]. simpl. apply IH.
Qed.

Lemma visit_results_entries results st :
  visit_results uri_of_file fs results st = visit (entries results) st.
Proof.
  revert st. induction results as [|r results IH]; intros st; [done|].
  simpl. rewrite visit_entries_app.
  destruct (epubCheckResult r) as [checked|]; simpl; [|apply IH].
  rewrite visit_messages_entries.
  destruct (visit _ st); [|done]. simpl. apply IH.
Qed.

Lemma expected_is_Some e : integral e.2 → is_Some (expected fs e).
Proof.
  intros (l & c & Hl & Hc & Hloc). unfold expected. rewrite Hloc at 1.
  destruct (createDiagnostic_closed_form e.1.2 (loc_path e.2) l c
              (loc_context e.2) (readFileLines fs (filePath_of e)) Hl Hc)
    as (d & -> & _).
  eauto.
Qed.

Lemma at_uri_snoc uri (done : list Entry) e :
  at_uri uri_of_file uri (done ++ [e])
  = (at_uri uri_of_file uri done
     ++ if decide (uri_of e = uri) then [e] else [])%list.
Proof.
  unfold at_uri. rewrite filter_app. f_equal.
Qed.

(** One turn of the innermost loop keeps the invariant. *)
Lemma visit_location_invariant done e st :
  integral e.2 →
  pass_invariant uri_of_file fs done st →
  ∃ st', visit_location uri_of_file fs e.1.1 e.1.2 e.2 st = Ok st'
       ∧ pass_invariant uri_of_file fs (done ++ [e]) st'.
Proof.
  intros Hint (Hnd & Hget & Hin & Hcache & Hlen).
  unfold visit_location.
  change (Path.join e.1.1 (loc_path e.2)) with (filePath_of e).
  set (filePath := filePath_of e). set (uri := uri_of_file filePath).
  set (dmap := if negb (JsMap.has (diagnosticsMap st) uri)
               then JsMap.set (diagnosticsMap st) uri []
               else diagnosticsMap st).
  set (cache := if negb (JsMap.has (fileLinesCache st) filePath)
                then JsMap.set (fileLinesCache st) filePath
                       (readFileLines fs filePath)
                else fileLinesCache st).
  (* the cache is transparent *)
  assert (Hcache' : ∀ p v, JsMap.get cache p = Some v → v = readFileLines fs p).
  { intros p v. unfold cache.
    destruct (JsMap.has (fileLinesCache st) filePath); cbn [negb]; [apply Hcache|].
    destruct (decide (filePath = p)) as [<-|Hne].
    - rewrite get_set_eq. congruence.
    - rewrite get_set_ne by done. apply Hcache. }
  assert (Hlines : match JsMap.get cache filePath with
                   | Some lines => lines
                   | None => None
                   end = readFileLines fs filePath).
  { destruct (JsMap.get cache filePath) as [v|] eqn:Hg; [by apply Hcache'|].
    unfold cache in Hg.
    destruct (JsMap.has (fileLinesCache st) filePath) eqn:Hhas; cbn [negb] in Hg.
    - apply has_get in Hhas as [? Hs]. congruence.
    - by rewrite get_set_eq in Hg. }
  rewrite Hlines.
  destruct (expected_is_Some e Hint) as [d Hd]. unfold expected in Hd.
  fold filePath in Hd.
  destruct (createDiagnostic e.1.2 e.2 (readFileLines fs filePath))
    as [d'|] eqn:Hcreate; [|done].
  injection Hd as ->. cbn [mbind try_bind].
  (* the list found under the URI *)
  assert (Hfound : ∃ ds0,
    JsMap.get dmap uri = Some ds0
    ∧ ds0 = omap (expected fs) (at_uri uri_of_file uri done)
    ∧ NoDup (keys dmap)
    ∧ (∀ uri', uri ≠ uri' →
         JsMap.get dmap uri' = JsMap.get (diagnosticsMap st) uri')
    ∧ all_diagnostics dmap ≡ₚ omap (expected fs) done).
  { unfold dmap.
    destruct (JsMap.get (diagnosticsMap st) uri) as [ds|] eqn:Hg.
    - assert (JsMap.has (diagnosticsMap st) uri = true) as ->
        by (apply has_get; eauto).
      cbn [negb]. exists ds. destruct (Hget _ _ Hg) as [-> _]. by rewrite Hg.
    - assert (JsMap.has (diagnosticsMap st) uri = false) as ->.
      { unfold JsMap.has. by rewrite Hg. }
      cbn [negb]. exists []. rewrite get_set_eq. split; [done|].
      split; [|split; [by apply NoDup_keys_set|split]].
      + assert (at_uri uri_of_file uri done = []) as ->; [|done].
        destruct (at_uri uri_of_file uri done) as [|e' l] eqn:Hf; [done|].
        assert (He' : e' ∈ at_uri uri_of_file uri done)
          by (rewrite Hf; left).
        apply list_elem_of_filter in He' as [Hu He'].
        destruct (Hin e' He') as [? Hs]. congruence.
      + intros uri' Hne. by apply get_set_ne.
      + by rewrite all_diagnostics_set_empty. }
  destruct Hfound as (ds0 & Hg0 & -> & Hnd' & Hother & Hlen').
  rewrite Hg0. eexists. split; [reflexivity|].
  assert (Hexp : expected fs e = Some d).
  { unfold expected. fold filePath. by rewrite Hcreate. }
  unfold pass_invariant. cbn [diagnosticsMap fileLinesCache].
  split; [by apply NoDup_keys_set|]. split; [|split; [|split]].
  - intros uri' ds. rewrite at_uri_snoc.
    destruct (decide (uri = uri')) as [<-|Hne].
    + rewrite get_set_eq. intros [= <-].
      rewrite decide_True by done. rewrite omap_app. simpl. rewrite Hexp.
      split; [done|]. by destruct (at_uri uri_of_file uri done).
    + rewrite get_set_ne, Hother by done. intros Hg.
      rewrite decide_False by done. rewrite app_nil_r. by apply Hget.
  - intros e' [He'|He']%elem_of_app;
      [|apply list_elem_of_singleton in He' as ->].
    + destruct (decide (uri = uri_of_file (filePath_of e'))) as [<-|Hne].
      * rewrite get_set_eq. eauto.
      * rewrite get_set_ne, Hother by done. by apply Hin.
    + fold filePath uri. rewrite get_set_eq. eauto.
  - done.
  - rewrite (all_diagnostics_set_push _ _ _ _ Hg0), Hlen', omap_app.
    simpl. by rewrite Hexp.
Qed.

Lemma visit_entries_invariant rest done st :
  Forall (λ e : Entry, integral e.2) rest →
  pass_invariant uri_of_file fs done st →
  ∃ st', visit rest st = Ok st'
       ∧ pass_invariant uri_of_file fs (done ++ rest) st'.
Proof.
  revert done st. induction rest as [|e rest IH]; intros done st Hint Hinv.
  - exists st. by rewrite app_nil_r.
  - apply Forall_cons in Hint as [He Hint].
    destruct (visit_location_invariant done e st He Hinv)
      as (st1 & H1 & Hinv1).
    destruct (IH _ _ Hint Hinv1) as (st2 & H2 & Hinv2).
    exists st2. simpl. rewrite H1. cbn [mbind try_bind].
    split; [done|]. by rewrite <- app_assoc in Hinv2.
Qed.

Lemma pass_invariant_start : pass_invariant uri_of_file fs [] (mkPass [] []).
Proof.
  split; [apply NoDup_nil_2|]. split; [done|]. split; [|done].
  intros e He. by apply elem_of_nil in He.
Qed.

(** [updateDiagnostics] ends with the map its loops built. *)
Lemma updateDiagnostics_invariant results old :
  integral_results results →
  ∃ coll, updateDiagnostics uri_of_file fs results old = Ok coll
        ∧ pass_invariant uri_of_file fs (entries results) (mkPass coll []).
Proof.
  intros Hint. unfold updateDiagnostics. rewrite visit_results_entries.
  destruct (visit_entries_invariant (entries results) [] _ Hint
              pass_invariant_start) as (st & -> & Hinv).
  cbn [mbind try_bind]. rewrite fold_set_rebuilds.
  - simpl. exists (diagnosticsMap st). split; [done|].
    destruct Hinv as (H1 & H2 & H3 & _ & H5).
    split; [done|]. split; [done|]. split; [done|]. split; [done|]. done.
  - simpl. by destruct Hinv.
Qed.

End Pass.

End CollectionFacts.

(** * Properties of the diagnostics of a batch and of its summary *)

Module BatchFacts.
Import JsNumber NumberSpec JsNumberFacts DiagnosticsProvider
  DiagnosticsCollection DiagnosticsSpec DiagnosticsFacts CollectionSpec
  CollectionFacts EpubCheckRunner Extension OutcomeSpec BatchSpec.

Lemma elem_of_jsmap_get {V : Type} (m : JsMap.t V) k v :
  NoDup (keys m) → (k, v) ∈ m → JsMap.get m k = Some v.
Proof.
  induction m as [|[k' v'] m IH]; simpl; [by intros _ ?%elem_of_nil|].
  intros [Hk Hnd]%NoDup_cons [[= -> ->]|Hin]%elem_of_cons.
  - by rewrite String.eqb_refl.
  - destruct (String.eqb_spec k' k) as [->|_]; [|by apply IH].
    exfalso. apply Hk. apply list_elem_of_fmap. by exists (k, v).
Qed.

Lemma integral_location_at path (l c : Z) ctx :
  safe_integer l → safe_integer c → integral (location_at path l c ctx).
Proof. intros Hl Hc. by exists l, c. Qed.

Lemma expected_closed_form fs e d :
  integral e.2 → expected fs e = Some d →
  non_empty d = true
  ∧ ltb (pos_line (rng_start (diag_range d))) zero = false
  ∧ ltb (startColumn_of d) zero = false
  ∧ diag_severity d = mapSeverity (msg_severity e.1.2)
  ∧ diag_code d = msg_ID e.1.2.
Proof.
  intros (l & c & Hl & Hc & Hloc). unfold expected. rewrite Hloc at 1.
  destruct (createDiagnostic_closed_form e.1.2 (loc_path e.2) l c
              (loc_context e.2) (readFileLines fs (filePath_of e)) Hl Hc)
    as (d' & -> & Hr & Hs & Hcode).
  intros [= <-]. unfold non_empty, startColumn_of, endColumn_of.
  rewrite Hr. cbn [rng_start rng_end pos_line pos_character].
  unfold safe_integer in *.
  pose proof (widened_gt (Z.max 0 (c - 1))
                (observed_length (readFileLines fs (filePath_of e))
                   (Z.max 0 (l - 1)))) as Hgt.
  split; [|by rewrite !of_Z_not_negative by lia].
  destruct (ltb_of_Z (Z.max 0 (c - 1))
              (widened (Z.max 0 (c - 1))
                 (observed_length (readFileLines fs (filePath_of e))
                    (Z.max 0 (l - 1))))) as (-> & _);
    [split; lia|lia|lia|].
  by apply bool_decide_eq_true_2.
Qed.

Lemma length_omap_expected fs (es : list Entry) :
  Forall (λ e : Entry, integral e.2) es →
  List.length (omap (expected fs) es) = List.length es.
Proof.
  induction 1 as [|e es He _ IH]; [done|].
  destruct (expected_is_Some fs e He) as [d Hd].
  change (omap (expected fs) (e :: es))
    with (match expected fs e with
          | Some y => y :: omap (expected fs) es
          | None => omap (expected fs) es
          end).
  rewrite Hd. cbn [List.length]. by rewrite IH.
Qed.

(** X10. When the lines and columns of the locations are safe integers,
    [updateDiagnostics] does not throw and does not depend on what the
    collection held. Its collection has one key per URI that some
    location refers to, and under each URI the diagnostics of exactly the
    locations with that URI, in the order the loops visit them; each is
    the diagnostic [createDiagnostic] gives when the file is read afresh,
    so the cache of file lines changes nothing. *)
Theorem updateDiagnostics_groups uri_of_file fs results old :
  integral_results results →
  ∃ coll,
    updateDiagnostics uri_of_file fs results old = Ok coll
    ∧ NoDup (keys coll)
    ∧ (∀ uri, default [] (JsMap.get coll uri)
              = omap (expected fs) (at_uri uri_of_file uri (entries results)))
    ∧ (∀ uri, is_Some (JsMap.get coll uri)
              ↔ ∃ e, e ∈ entries results ∧ uri_of_file (filePath_of e) = uri)
    ∧ (∀ uri, JsMap.get coll uri ≠ Some []).
Proof.
  intros Hint.
  destruct (updateDiagnostics_invariant uri_of_file fs results old Hint)
    as (coll & Hupd & Hnd & Hget & Hin & _ & _).
  simpl in *. exists coll. split; [done|]. split; [done|].
  assert (Hnone : ∀ uri, JsMap.get coll uri = None →
                         at_uri uri_of_file uri (entries results) = []).
  { intros uri Hg.
    destruct (at_uri uri_of_file uri (entries results)) as [|e l] eqn:Hf;
      [done|].
    assert (He : e ∈ at_uri uri_of_file uri (entries results))
      by (rewrite Hf; left).
    apply list_elem_of_filter in He as [Hu He].
    destruct (Hin e He) as [? Hs]. congruence. }
  split; [|split].
  - intros uri. destruct (JsMap.get coll uri) as [ds|] eqn:Hg; simpl.
    + by destruct (Hget _ _ Hg).
    + by rewrite Hnone.
  - intros uri. split.
    + intros [ds Hg]. destruct (Hget _ _ Hg) as [_ Hne].
      destruct (at_uri uri_of_file uri (entries results)) as [|e l] eqn:Hf;
        [done|].
      assert (He : e ∈ at_uri uri_of_file uri (entries results))
        by (rewrite Hf; left).
      apply list_elem_of_filter in He as [Hu He]. eauto.
    + intros (e & He & <-). by apply Hin.
  - intros uri Hg. destruct (Hget _ _ Hg) as [Hds Hne].
    apply (f_equal List.length) in Hds.
    rewrite length_omap_expected in Hds.
    + by destruct (at_uri uri_of_file uri (entries results)).
    + apply Forall_forall. intros e [_ He]%list_elem_of_filter.
      revert e He. by apply Forall_forall.
Qed.

Lemma updateDiagnostics_groups_witness :
  ∃ coll,
    updateDiagnostics (λ p, "file://" +:+ p) Demo.fs_empty sample_results []
      = Ok coll
    ∧ NoDup (keys coll).
Proof.
  destruct (updateDiagnostics_groups (λ p, "file://" +:+ p) Demo.fs_empty
              sample_results [])
    as (coll & Hupd & Hnd & _).
  - unfold integral_results, entries, sample_results.
    cbn [flat_map map epubCheckResult res_messages msg_locations app
         epubDir_of].
    repeat (apply List.Forall_cons;
            [apply integral_location_at; unfold safe_integer; lia|]).
    apply List.Forall_nil.
  - exists coll. split; [exact Hupd|exact Hnd].
Defined.

Lemma flat_map_cons {A B : Type} (f : A → list B) x l :
  flat_map f (x :: l) = (f x ++ flat_map f l)%list.
Proof. reflexivity. Qed.

Lemma length_entries results :
  List.length (entries results)
  = sum_list_with
      (λ r, match epubCheckResult r with
            | None => 0%nat
            | Some checked =>
                sum_list_with (λ m, List.length (msg_locations m))
                  (res_messages checked)
            end)
      results.
Proof.
  unfold entries. induction results as [|r results IH]; [done|].
  rewrite flat_map_cons, length_app. cbn [sum_list_with].
  f_equal; [|exact IH].
  destruct (epubCheckResult r) as [checked|]; [|done].
  induction (res_messages checked) as [|m msgs IHm]; [done|].
  rewrite flat_map_cons, length_app, length_map. cbn [sum_list_with].
  f_equal. exact IHm.
Qed.

(** X11. When the lines and columns of the locations are safe integers,
    [updateDiagnostics] produces one diagnostic per location: a result
    without a parsed result and a message without locations give none.
    Every diagnostic it produces has a range that starts at a line and a
    column that are not negative, and ends after its start. *)
Theorem updateDiagnostics_one_per_location uri_of_file fs results old :
  integral_results results →
  ∃ coll,
    updateDiagnostics uri_of_file fs results old = Ok coll
    ∧ List.length (all_diagnostics coll)
      = sum_list_with
          (λ r, match epubCheckResult r with
                | None => 0%nat
                | Some checked =>
                    sum_list_with (λ m, List.length (msg_locations m))
                      (res_messages checked)
                end)
          results
    ∧ (∀ d, d ∈ all_diagnostics coll →
            non_empty d = true
            ∧ ltb (pos_line (rng_start (diag_range d))) zero = false
            ∧ ltb (startColumn_of d) zero = false).
Proof.
  intros Hint.
  destruct (updateDiagnostics_invariant uri_of_file fs results old Hint)
    as (coll & Hupd & _ & _ & _ & _ & Hperm).
  simpl in *. exists coll. split; [done|]. split.
  - by rewrite Hperm, length_omap_expected, length_entries.
  - intros d Hd. rewrite Hperm in Hd.
    apply list_elem_of_omap in Hd as (e & Hin & He).
    assert (Hie : integral e.2)
      by (clear He; revert e Hin; by apply Forall_forall).
    destruct (expected_closed_form fs e d Hie He) as (? & ? & ? & _). done.
Qed.

Lemma updateDiagnostics_one_per_location_witness :
  ∃ coll,
    updateDiagnostics (λ p, "file://" +:+ p) Demo.fs_empty sample_results []
      = Ok coll
    ∧ List.length (all_diagnostics coll) = 3%nat.
Proof.
  destruct (updateDiagnostics_one_per_location (λ p, "file://" +:+ p)
              Demo.fs_empty sample_results [])
    as (coll & Hupd & Hlen & _).
  - unfold integral_results, entries, sample_results.
    cbn [flat_map map epubCheckResult res_messages msg_locations app
         epubDir_of].
    repeat (apply List.Forall_cons;
            [apply integral_location_at; unfold safe_integer; lia|]).
    apply List.Forall_nil.
  - exists coll. split; [exact Hupd|]. rewrite Hlen. reflexivity.
Defined.

(** ** Counting *)

Lemma weighted_app q w (a b : list EpubCheckMessage) :
  weighted q w (a ++ b)%list = (weighted q w a + weighted q w b)%nat.
Proof. unfold weighted. apply sum_list_with_app. Qed.

Lemma weighted_cons q w m (msgs : list EpubCheckMessage) :
  weighted q w (m :: msgs)
  = ((if q m then w m else 0) + weighted q w msgs)%nat.
Proof. reflexivity. Qed.

Lemma warning_is_not_error m :
  isWarningSeverity m = true → isErrorSeverity m = false.
Proof.
  unfold isWarningSeverity, isErrorSeverity.
  intros ->%String.eqb_eq. reflexivity.
Qed.

Lemma fold_count_message msgs acc :
  fold_left count_message msgs acc
  = mkCounts (totalErrors acc + weighted isErrorSeverity locationCount msgs)
      (totalWarnings acc + weighted isWarningSeverity locationCount msgs)
      (hasExecutionError acc).
Proof.
  revert acc. induction msgs as [|m msgs IH]; intros [e w x].
  - simpl. unfold weighted. simpl. f_equal; lia.
  - cbn [fold_left]. rewrite IH, !weighted_cons. unfold count_message.
    fold (isErrorSeverity m). fold (isWarningSeverity m).
    fold (locationCount m).
    destruct (isErrorSeverity m) eqn:He.
    + destruct (isWarningSeverity m) eqn:Hw.
      * apply warning_is_not_error in Hw. congruence.
      * simpl. f_equal; lia.
    + destruct (isWarningSeverity m); simpl; f_equal; lia.
Qed.

Lemma fold_count_result results acc :
  fold_left count_result results acc
  = mkCounts
      (totalErrors acc
       + weighted isErrorSeverity locationCount (messages_of results))
      (totalWarnings acc
       + weighted isWarningSeverity locationCount (messages_of results))
      (hasExecutionError acc || existsb execution_failed results).
Proof.
  revert acc. induction results as [|r results IH]; intros [e w x].
  - simpl. unfold weighted. simpl. rewrite orb_false_r. f_equal; lia.
  - cbn [fold_left]. rewrite IH. unfold messages_of.
    rewrite flat_map_cons, !weighted_app. fold (messages_of results).
    unfold count_result, execution_failed. cbn [existsb].
    destruct (epubCheckResult r) as [checked|].
    + rewrite fold_count_message. simpl. f_equal; lia.
    + destruct (negb (falsy (error r))); simpl;
        rewrite ?orb_true_r; f_equal; lia.
Qed.

(** [countMessages] in closed form. *)
Lemma countMessages_sums results :
  countMessages results
  = mkCounts (weighted isErrorSeverity locationCount (messages_of results))
      (weighted isWarningSeverity locationCount (messages_of results))
      (existsb execution_failed results).
Proof. unfold countMessages. by rewrite fold_count_result. Qed.

Lemma locationCount_split m :
  locationCount m = (located_weight m + unlocated_weight m)%nat.
Proof.
  unfold locationCount, located_weight, unlocated_weight.
  case_bool_decide as Hl; [by rewrite Hl|].
  destruct (msg_locations m); [done|]. cbn [List.length]. lia.
Qed.

Lemma weighted_split q (msgs : list EpubCheckMessage) :
  weighted q locationCount msgs
  = (weighted q located_weight msgs + weighted q unlocated_weight msgs)%nat.
Proof.
  induction msgs as [|m msgs IH]; [done|].
  rewrite !weighted_cons, IH, locationCount_split.
  destruct (q m); lia.
Qed.

(** The entries of the messages that satisfy [q]. *)
Lemma count_entries (q : EpubCheckMessage → bool) results :
  List.length (filter (λ e : Entry, q e.1.2 = true) (entries results))
  = weighted q located_weight (messages_of results).
Proof.
  unfold entries, messages_of.
  induction results as [|r results IH]; [done|].
  rewrite !flat_map_cons, filter_app, length_app, weighted_app.
  f_equal; [|exact IH].
  destruct (epubCheckResult r) as [checked|]; [|done].
  induction (res_messages checked) as [|m msgs IHm]; [done|].
  rewrite flat_map_cons, filter_app, length_app, weighted_cons.
  f_equal; [|exact IHm].
  unfold located_weight.
  destruct (q m) eqn:Hq.
  - induction (msg_locations m) as [|l locs IHl]; [done|].
    cbn [map]. rewrite filter_cons_True by (cbn [fst snd]; done).
    cbn [List.length]. by rewrite IHl.
  - induction (msg_locations m) as [|l locs IHl]; [done|].
    cbn [map]. rewrite filter_cons_False by (cbn [fst snd]; congruence).
    exact IHl.
Qed.

Lemma count_severity_expected fs s (es : list Entry) :
  Forall (λ e : Entry, integral e.2) es →
  count_severity s (omap (expected fs) es)
  = List.length
      (filter (λ e : Entry, has_level s e.1.2 = true) es).
Proof.
  unfold count_severity. induction 1 as [|e es He _ IH]; [done|].
  destruct (expected_is_Some fs e He) as [d Hd].
  change (omap (expected fs) (e :: es))
    with (match expected fs e with
          | Some y => y :: omap (expected fs) es
          | None => omap (expected fs) es
          end).
  rewrite Hd.
  destruct (expected_closed_form fs e d He Hd) as (_ & _ & _ & Hs & _).
  rewrite !filter_cons, Hs.
  destruct (decide (mapSeverity (msg_severity e.1.2) = s)) as [Heq|Hne].
  - rewrite decide_True by (by apply bool_decide_eq_true_2).
    cbn [List.length]. by rewrite IH.
  - rewrite decide_False
      by (unfold has_level; by rewrite bool_decide_eq_false_2).
    exact IH.
Qed.

Lemma weighted_ext q1 q2 w (msgs : list EpubCheckMessage) :
  (∀ m, q1 m = q2 m) → weighted q1 w msgs = weighted q2 w msgs.
Proof.
  intros Hq. induction msgs as [|m msgs IH]; [done|].
  by rewrite !weighted_cons, Hq, IH.
Qed.

Lemma mapSeverity_warning m :
  has_level SevWarning m = isWarningSeverity m.
Proof.
  unfold has_level, mapSeverity, isWarningSeverity.
  repeat (case_string_eqb; [subst; try rewrite e; try done|]); try done.
  all: try (rewrite e; done).
Qed.

Lemma mapSeverity_error m :
  has_level SevError m = isErrorSeverity m || isUnrecognisedSeverity m.
Proof.
  unfold has_level, isErrorSeverity, isUnrecognisedSeverity,
    isRecognisedSeverity.
  destruct (decide (msg_severity m
                    ∈ ["FATAL"; "ERROR"; "WARNING"; "USAGE"; "INFO"]))
    as [Hin|Hout].
  - rewrite (bool_decide_eq_true_2 _ Hin). cbn [negb]. rewrite orb_false_r.
    repeat (apply elem_of_cons in Hin as [->|Hin]; [reflexivity|]).
    by apply elem_of_nil in Hin.
  - rewrite (bool_decide_eq_false_2 _ Hout). cbn [negb]. rewrite orb_true_r.
    apply bool_decide_eq_true_2. by apply mapSeverity_unrecognised.
Qed.

Lemma weighted_orb q1 q2 w (msgs : list EpubCheckMessage) :
  (∀ m, q1 m = true → q2 m = false) →
  weighted (λ m, q1 m || q2 m) w msgs
  = (weighted q1 w msgs + weighted q2 w msgs)%nat.
Proof.
  intros Hdisj. induction msgs as [|m msgs IH]; [done|].
  rewrite !weighted_cons, IH.
  destruct (q1 m) eqn:H1; [rewrite (Hdisj m H1)|destruct (q2 m)]; simpl; lia.
Qed.

Lemma error_is_recognised m :
  isErrorSeverity m = true → isUnrecognisedSeverity m = false.
Proof.
  unfold isErrorSeverity, isUnrecognisedSeverity, isRecognisedSeverity.
  intros [->%String.eqb_eq| ->%String.eqb_eq]%orb_true_iff; reflexivity.
Qed.

Lemma weighted_zero q w (msgs : list EpubCheckMessage) :
  (∀ m, m ∈ msgs → q m = true → w m = 0%nat) → weighted q w msgs = 0%nat.
Proof.
  induction msgs as [|m msgs IH]; intros Hall; [done|].
  rewrite weighted_cons, IH.
  - destruct (q m) eqn:Hq; [|done]. rewrite (Hall m); [done|left|done].
  - intros m' Hm'. apply Hall. by right.
Qed.

(** X12. The counts of [countMessages] against the diagnostics of
    [updateDiagnostics] on the same results, when the lines and columns
    of the locations are safe integers. The warning count is the
    number of Warning diagnostics plus one for every WARNING message
    without a location. The error count is the number of Error
    diagnostics, less those of messages with an unrecognised severity,
    plus one for every FATAL or ERROR message without a location. So when
    every message has a location and a recognised severity, the two
    counts are the numbers of Error and Warning diagnostics. *)
Theorem countMessages_and_diagnostics uri_of_file fs results old :
  integral_results results →
  let msgs := messages_of results in
  ∃ coll,
    updateDiagnostics uri_of_file fs results old = Ok coll
    ∧ totalWarnings (countMessages results)
      = (count_severity SevWarning (all_diagnostics coll)
         + weighted isWarningSeverity unlocated_weight msgs)%nat
    ∧ (totalErrors (countMessages results)
       + weighted isUnrecognisedSeverity located_weight msgs)%nat
      = (count_severity SevError (all_diagnostics coll)
         + weighted isErrorSeverity unlocated_weight msgs)%nat
    ∧ ((∀ m, m ∈ msgs →
             msg_locations m ≠ [] ∧ isRecognisedSeverity m = true) →
       totalErrors (countMessages results)
         = count_severity SevError (all_diagnostics coll)
       ∧ totalWarnings (countMessages results)
         = count_severity SevWarning (all_diagnostics coll)).
Proof.
  intros Hint msgs.
  destruct (updateDiagnostics_invariant uri_of_file fs results old Hint)
    as (coll & Hupd & _ & _ & _ & _ & Hperm).
  simpl in Hperm. exists coll. split; [done|].
  assert (Hcount : ∀ s, count_severity s (all_diagnostics coll)
    = weighted (has_level s) located_weight msgs).
  { intros s. unfold count_severity. rewrite Hperm.
    fold (count_severity s (omap (expected fs) (entries results))).
    rewrite count_severity_expected by done.
    apply (count_entries (has_level s)). }
  assert (Hw : totalWarnings (countMessages results)
    = (count_severity SevWarning (all_diagnostics coll)
       + weighted isWarningSeverity unlocated_weight msgs)%nat).
  { rewrite countMessages_sums, Hcount. cbn [totalWarnings].
    fold msgs. rewrite weighted_split.
    by rewrite (weighted_ext _ isWarningSeverity _ _ mapSeverity_warning). }
  assert (He : (totalErrors (countMessages results)
       + weighted isUnrecognisedSeverity located_weight msgs)%nat
    = (count_severity SevError (all_diagnostics coll)
       + weighted isErrorSeverity unlocated_weight msgs)%nat).
  { rewrite countMessages_sums, Hcount. cbn [totalErrors].
    fold msgs. rewrite weighted_split.
    rewrite (weighted_ext _ _ _ _ mapSeverity_error).
    rewrite (weighted_orb _ _ _ _ error_is_recognised). lia. }
  split; [done|]. split; [done|].
  intros Hall.
  assert (weighted isWarningSeverity unlocated_weight msgs = 0%nat) as Hw0.
  { apply weighted_zero. intros m Hm _. unfold unlocated_weight.
    destruct (Hall m Hm) as [Hl _]. by rewrite bool_decide_eq_false_2. }
  assert (weighted isErrorSeverity unlocated_weight msgs = 0%nat) as He0.
  { apply weighted_zero. intros m Hm _. unfold unlocated_weight.
    destruct (Hall m Hm) as [Hl _]. by rewrite bool_decide_eq_false_2. }
  assert (weighted isUnrecognisedSeverity located_weight msgs = 0%nat) as Hu0.
  { apply weighted_zero. intros m Hm Hu. unfold isUnrecognisedSeverity in Hu.
    destruct (Hall m Hm) as [_ Hr]. by rewrite Hr in Hu. }
  lia.
Qed.

Lemma countMessages_and_diagnostics_witness :
  ∃ coll,
    updateDiagnostics (λ p, "file://" +:+ p) Demo.fs_empty sample_results []
      = Ok coll
    ∧ totalWarnings (countMessages sample_results)
      = (count_severity SevWarning (all_diagnostics coll)
         + weighted isWarningSeverity unlocated_weight
             (messages_of sample_results))%nat.
Proof.
  destruct (countMessages_and_diagnostics (λ p, "file://" +:+ p)
              Demo.fs_empty sample_results [])
    as (coll & Hupd & Hw & _).
  - unfold integral_results, entries, sample_results.
    cbn [flat_map map epubCheckResult res_messages msg_locations app
         epubDir_of].
    repeat (apply List.Forall_cons;
            [apply integral_location_at; unfold safe_integer; lia|]).
    apply List.Forall_nil.
  - exists coll. split; [exact Hupd|exact Hw].
Defined.

Example countMessages_sample :
  countMessages sample_results = mkCounts 2 1 true.
Proof. reflexivity. Qed.

(** A line that is not an integer makes [updateDiagnostics] throw, once
    the file has that many lines. *)
Example updateDiagnostics_fractional_line :
  updateDiagnostics (λ p, "file://" +:+ p)
    (Demo.dir_with [("/books/my-book/OEBPS/ch1.xhtml", "<html>" +:+ nl +:+ "</html>")])
    [ mkValidation false "/books/my-book"
        (Some (mkResult (mkChecker "epubcheck" None None)
                 [ mkMessage "RSC-005" "ERROR" "Error while parsing file" 0
                     [ mkLocation "OEBPS/ch1.xhtml" one_and_a_half (of_Z 1)
                         None ] None ]))
        None None ] []
  = Threw "TypeError".
Proof. vm_compute. reflexivity. Qed.

End BatchFacts.

(** * Properties of what is shown after a batch *)

Module SummaryFacts.
Import EpubCheckRunner Extension OutcomeSpec BatchSpec BatchFacts.

Lemma locationCount_pos m : (1 ≤ locationCount m)%nat.
Proof. unfold locationCount. lia. Qed.

Lemma weighted_none q (msgs : list EpubCheckMessage) :
  weighted q locationCount msgs = 0%nat ↔ existsb q msgs = false.
Proof.
  induction msgs as [|m msgs IH]; [done|].
  rewrite weighted_cons. cbn [existsb]. rewrite orb_false_iff, <- IH.
  pose proof (locationCount_pos m).
  destruct (q m); split; try lia; try (intros [??]; done).
Qed.

Lemma messages_of_cons r results :
  messages_of (r :: results)
  = (match epubCheckResult r with
     | None => []
     | Some checked => res_messages checked
     end ++ messages_of results)%list.
Proof. reflexivity. Qed.

(** For outcomes of [run]: nothing failed to execute and no error was
    counted, exactly when every run succeeded. *)
Lemma clean_batch_iff results :
  Forall (λ r, ∃ epubDir save, run_shaped epubDir save r) results →
  (existsb execution_failed results = false
   ∧ weighted isErrorSeverity locationCount (messages_of results) = 0%nat)
  ↔ forallb success results = true.
Proof.
  induction 1 as [|r results (epubDir & save & _ & Hr) _ IH]; [done|].
  rewrite messages_of_cons, weighted_app. cbn [existsb forallb].
  rewrite orb_false_iff, andb_true_iff, <- IH.
  unfold execution_failed.
  destruct (epubCheckResult r) as [checked|].
  - destruct Hr as (_ & -> & _).
    rewrite negb_true_iff, <- weighted_none. split.
    + intros ([_ ?] & ?). split; [lia|]. split; [done|lia].
    + intros (? & ? & ?). split; [done|lia].
  - destruct Hr as (-> & _ & e & -> & He).
    apply String.eqb_neq in He. simpl. rewrite He. simpl.
    split; [by intros [[? _] _]|by intros [? _]].
Qed.

(** X13. On a batch of outcomes of [run], [updateStatusBar] shows the
    success item, with the number of results, when every run succeeded,
    and an item with the error background otherwise. *)
Theorem updateStatusBar_reflects_success results :
  Forall (λ r, ∃ epubDir save, run_shaped epubDir save r) results →
  StatusBar.errorBackground (updateStatusBar results)
    = negb (forallb success results)
  ∧ (forallb success results = true →
     updateStatusBar results = StatusBar.setSuccess (List.length results)).
Proof.
  intros Hshaped. pose proof (clean_batch_iff results Hshaped) as Hiff.
  unfold updateStatusBar. rewrite countMessages_sums.
  cbn [hasExecutionError totalErrors totalWarnings].
  destruct (forallb success results) eqn:Hall.
  - destruct Hiff as [_ Hback]. destruct (Hback eq_refl) as [-> ->].
    by rewrite bool_decide_eq_true_2.
  - assert (negb (existsb execution_failed results)
            && bool_decide
                 (weighted isErrorSeverity locationCount (messages_of results)
                  = 0%nat) = false) as ->; [|done].
    apply not_true_iff_false. intros [Hf Hz]%andb_true_iff.
    apply negb_true_iff in Hf. apply bool_decide_eq_true in Hz.
    destruct Hiff as [Hfwd _]. by discriminate Hfwd.
Qed.

Lemma updateStatusBar_reflects_success_witness :
  StatusBar.errorBackground (updateStatusBar sample_results) = true.
Proof.
  apply (updateStatusBar_reflects_success sample_results).
  repeat constructor.
  - exists "/books/my-book", true. split; [done|]. simpl. done.
  - exists "/books/other", true. split; [done|]. simpl.
    split; [done|]. split; [done|]. eexists. split; [done|]. discriminate.
Defined.

Lemma messages_of_unparsed results :
  (∀ r, r ∈ results → epubCheckResult r = None) → messages_of results = [].
Proof.
  induction results as [|r results IH]; intros Hnone; [done|].
  rewrite messages_of_cons, (Hnone r) by left.
  apply IH. intros r' ?. apply Hnone. by right.
Qed.

(** X14. [showSummary] shows the information message that validation
    passed exactly when no message of a parsed result is FATAL, ERROR or
    WARNING; results that failed to execute do not count, so a batch in
    which no run produced a result is reported as passed. *)
Theorem showSummary_passed results :
  (showSummary results = ShowInformation passed_text
   ↔ ∀ m, m ∈ messages_of results →
          isErrorSeverity m = false ∧ isWarningSeverity m = false)
  ∧ ((∀ r, r ∈ results → epubCheckResult r = None) →
     showSummary results = ShowInformation passed_text).
Proof.
  assert (Hiff : showSummary results = ShowInformation passed_text
    ↔ ∀ m, m ∈ messages_of results →
           isErrorSeverity m = false ∧ isWarningSeverity m = false).
  { unfold showSummary. rewrite countMessages_sums.
    cbn [totalErrors totalWarnings].
    assert (Hno : ∀ q, existsb q (messages_of results) = false
                       ↔ ∀ m, m ∈ messages_of results → q m = false).
    { intros q. induction (messages_of results) as [|m msgs IH].
      - split; [|done]. intros _ m Hm. by apply elem_of_nil in Hm.
      - cbn [existsb]. rewrite orb_false_iff, IH. split.
        + intros [? Hrest] m' [->|?]%elem_of_cons; auto.
        + intros Hall. split; [apply Hall; left|].
          intros m' ?. apply Hall. by right. }
    destruct (bool_decide (weighted isErrorSeverity locationCount
                             (messages_of results) = 0%nat)) eqn:He;
      destruct (bool_decide (weighted isWarningSeverity locationCount
                               (messages_of results) = 0%nat)) eqn:Hw;
      cbn [andb];
      try apply bool_decide_eq_true in He;
      try apply bool_decide_eq_true in Hw;
      try apply bool_decide_eq_false in He;
      try apply bool_decide_eq_false in Hw;
      rewrite ?weighted_none in He; rewrite ?weighted_none in Hw.
    - split; [|done]. intros _ m Hm.
      split; [by apply (Hno isErrorSeverity)|by apply (Hno isWarningSeverity)].
    - split; [done|]. intros Hall. exfalso. apply Hw.
      apply Hno. intros m Hm. by apply Hall.
    - split; [done|]. intros Hall. exfalso. apply He.
      apply Hno. intros m Hm. by apply Hall.
    - split; [done|]. intros Hall. exfalso. apply He.
      apply Hno. intros m Hm. by apply Hall. }
  split; [exact Hiff|].
  intros Hnone. apply Hiff.
  rewrite (messages_of_unparsed results Hnone).
  intros m Hm. by apply elem_of_nil in Hm.
Qed.

End SummaryFacts.

(** * Properties of the detector and of the extractor *)

Module DetectorFacts.
Import EpubDetector TextSpec UniquePathFacts.

(** ** [trim] *)

Lemma string_app_nil_r (s : string) : s +:+ "" = s.
Proof. induction s as [|a s IH]; [done|]. by rewrite string_app_cons, IH. Qed.

Lemma string_app_assoc (a b c : string) : (a +:+ b) +:+ c = a +:+ (b +:+ c).
Proof.
  induction a as [|x a IH]; [done|]. by rewrite !string_app_cons, IH.
Qed.

Lemma rev_app_app (s t1 t2 : string) :
  String.rev_app s (t1 +:+ t2) = String.rev_app s t1 +:+ t2.
Proof.
  revert t1. induction s as [|a s IH]; intros t1; [done|].
  simpl. by rewrite <- IH.
Qed.

Lemma rev_app_rev (s t : string) : String.rev_app s t = String.rev s +:+ t.
Proof. unfold String.rev. by rewrite <- rev_app_app. Qed.

Lemma rev_app_string (a b acc : string) :
  String.rev_app (a +:+ b) acc = String.rev_app b (String.rev_app a acc).
Proof.
  revert acc. induction a as [|x a IH]; intros acc; [done|].
  rewrite string_app_cons. simpl. apply IH.
Qed.

Lemma rev_string_app (a b : string) :
  String.rev (a +:+ b) = String.rev b +:+ String.rev a.
Proof. unfold String.rev at 1. by rewrite rev_app_string, rev_app_rev. Qed.

Lemma rev_app_involutive (s t u : string) :
  String.rev_app (String.rev_app s t) u = String.rev_app t (s +:+ u).
Proof.
  revert t. induction s as [|a s IH]; intros t; [done|].
  simpl. rewrite IH. by rewrite string_app_cons.
Qed.

Lemma rev_involutive (s : string) : String.rev (String.rev s) = s.
Proof.
  unfold String.rev. rewrite rev_app_involutive. simpl.
  apply string_app_nil_r.
Qed.

Lemma blank_app (a b : string) : blank (a +:+ b) = blank a && blank b.
Proof.
  induction a as [|x a IH]; [done|].
  rewrite string_app_cons. simpl. by rewrite IH, andb_assoc.
Qed.

Lemma blank_rev (s : string) : blank (String.rev s) = blank s.
Proof.
  induction s as [|a s IH]; [done|].
  change (String.rev (String a s)) with (String.rev_app s (String a "")).
  rewrite rev_app_rev, blank_app, IH. simpl.
  rewrite andb_true_r. apply andb_comm.
Qed.

Lemma trimStart_blank (ws s : string) :
  blank ws = true → trimStart (ws +:+ s) = trimStart s.
Proof.
  induction ws as [|a ws IH]; [done|].
  cbn [blank]. intros [Ha Hws]%andb_true_iff.
  rewrite string_app_cons. cbn [trimStart]. rewrite Ha. by apply IH.
Qed.

Lemma trimStart_solid (s : string) : starts_solid s = true → trimStart s = s.
Proof. destruct s as [|a s]; [done|]. simpl. by intros ->%negb_true_iff. Qed.

Lemma starts_solid_app (s t : string) :
  starts_solid s = true → starts_solid (s +:+ t) = true.
Proof. by destruct s. Qed.

(** [trim] removes the white space around a text that begins and ends
    with other characters, and nothing else. *)
Lemma trim_surrounded (ws1 s ws2 : string) :
  blank ws1 = true → blank ws2 = true →
  starts_solid s = true → ends_solid s = true →
  trim (ws1 +:+ s +:+ ws2) = s.
Proof.
  intros H1 H2 Hs He. unfold trim.
  rewrite (trimStart_blank ws1) by done.
  rewrite (trimStart_solid (s +:+ ws2)) by by apply starts_solid_app.
  rewrite rev_string_app.
  rewrite (trimStart_blank (String.rev ws2)) by by rewrite blank_rev.
  rewrite (trimStart_solid (String.rev s)) by done. apply rev_involutive.
Qed.

(** X15. [isEpubDirectory] accepts a directory whose [mimetype] file
    holds the EPUB media type with any white space around it, and rejects
    a directory without that file. *)
Theorem isEpubDirectory_tolerates_white_space fs dirPath ws1 ws2 :
  blank ws1 = true → blank ws2 = true →
  files fs !! Path.join dirPath "mimetype"
    = Some (ws1 +:+ "application/epub+zip" +:+ ws2) →
  isEpubDirectory fs dirPath = true
  ∧ ∀ fs', files fs' !! Path.join dirPath "mimetype" = None →
           isEpubDirectory fs' dirPath = false.
Proof.
  intros H1 H2 Hfile. split.
  - unfold isEpubDirectory, readFileSync.
    assert (existsSync fs (Path.join dirPath "mimetype") = true) as ->
      by (apply existsSync_true; eauto).
    rewrite Hfile. cbn [negb].
    by rewrite (trim_surrounded ws1 "application/epub+zip" ws2).
  - intros fs' Hnone. unfold isEpubDirectory.
    by assert (existsSync fs' (Path.join dirPath "mimetype") = false) as ->
      by (by apply existsSync_false).
Qed.

Lemma isEpubDirectory_tolerates_white_space_witness :
  isEpubDirectory
    (mkFS {[ "/tmp/t/mimetype" := "  application/epub+zip  " +:+ nl ]} ∅ ∅)
    "/tmp/t" = true.
Proof.
  apply (isEpubDirectory_tolerates_white_space _ "/tmp/t" "  " ("  " +:+ nl)).
  - reflexivity.
  - reflexivity.
  - vm_compute. reflexivity.
Defined.

(** ** [detectEpubDirectories] *)

Lemma split_last_app c (d t : string) :
  Path.split_last c t = None →
  Path.split_last c (d +:+ String c t) = Some (d, t).
Proof.
  intros Ht. induction d as [|a d IH].
  - simpl. rewrite Ht. by rewrite Ascii.eqb_refl.
  - rewrite string_app_cons. simpl. by rewrite IH.
Qed.

Lemma dirname_mimetype d :
  d ≠ "" → d ≠ "." → Path.dirname (Path.join d "mimetype") = d.
Proof.
  intros Hd Hdot. unfold Path.join.
  destruct (String.eqb_spec d "/") as [->|Hroot]; [done|].
  apply String.eqb_neq in Hd as Hd'. apply String.eqb_neq in Hdot as Hdot'.
  rewrite Hd', Hdot'. cbn [orb].
  unfold Path.dirname.
  change (d +:+ "/" +:+ "mimetype") with (d +:+ String "/"%char "mimetype").
  rewrite split_last_app by done. by destruct d.
Qed.

Lemma detect_fold fs (files_found acc : list string) :
  fold_left
    (λ epubDirs fsPath,
       match readFileSync fs fsPath with
       | Ok content =>
           if String.eqb (trim content) epubMimetype
           then (epubDirs ++ [Path.dirname fsPath])%list
           else epubDirs
       | Threw _ => epubDirs
       end)
    files_found acc
  = (acc ++ detectEpubDirectories fs files_found)%list.
Proof.
  unfold detectEpubDirectories.
  revert acc. induction files_found as [|p ps IH]; intros acc.
  - by rewrite app_nil_r.
  - cbn [fold_left]. rewrite IH. rewrite (IH (match _ with Ok _ => _ | Threw _ => _ end)).
    destruct (readFileSync fs p) as [content|]; [|done].
    destruct (String.eqb (trim content) epubMimetype); [|done].
    by rewrite <- app_assoc.
Qed.

Lemma isEpubDirectory_read fs d :
  isEpubDirectory fs d
  = match readFileSync fs (Path.join d "mimetype") with
    | Ok content => String.eqb (trim content) epubMimetype
    | Threw _ => false
    end.
Proof.
  unfold isEpubDirectory, readFileSync, existsSync.
  destruct (files fs !! Path.join d "mimetype") eqn:Hf.
  - by rewrite bool_decide_eq_true_2 by eauto.
  - rewrite bool_decide_eq_false_2; [done|]. by intros [??].
Qed.

(** X16. Given the [mimetype] files of a list of directories,
    [detectEpubDirectories] returns, in order, exactly the directories
    that [isEpubDirectory] accepts; an unreadable file is skipped. *)
Theorem detectEpubDirectories_agrees fs (dirs : list string) :
  Forall (λ d, d ≠ "" ∧ d ≠ ".") dirs →
  detectEpubDirectories fs (mimetype_files dirs)
  = filter (λ d, isEpubDirectory fs d = true) dirs.
Proof.
  induction 1 as [|d dirs [Hd Hdot] _ IH]; [done|].
  unfold detectEpubDirectories, mimetype_files. cbn [map fold_left].
  rewrite detect_fold. fold (mimetype_files dirs). rewrite IH.
  rewrite filter_cons, isEpubDirectory_read.
  destruct (readFileSync fs (Path.join d "mimetype")) as [content|].
  - destruct (String.eqb (trim content) epubMimetype).
    + rewrite decide_True by done. by rewrite dirname_mimetype.
    + by rewrite decide_False by done.
  - by rewrite decide_False by done.
Qed.

Lemma detectEpubDirectories_agrees_witness :
  detectEpubDirectories
    (mkFS {[ "/w/a/mimetype" := "application/epub+zip";
             "/w/b/mimetype" := "text/plain" ]} ∅ ∅)
    (mimetype_files ["/w/a"; "/w/b"; "/w/c"])
  = filter (λ d, isEpubDirectory
                   (mkFS {[ "/w/a/mimetype" := "application/epub+zip";
                            "/w/b/mimetype" := "text/plain" ]} ∅ ∅) d = true)
      ["/w/a"; "/w/b"; "/w/c"].
Proof.
  apply (detectEpubDirectories_agrees _ ["/w/a"; "/w/b"; "/w/c"]).
  repeat constructor; discriminate.
Defined.

(** ** [selectEpubDirectories] *)

Lemma omap_description_dirs (epubDirs : list string)
    (selected : list QuickPickItem) :
  selected ⊆ quickPickItems epubDirs →
  existsb (λ s, String.eqb (label s) "All EPUB Projects") selected = false →
  omap description selected ⊆ epubDirs
  ∧ List.length (omap description selected) = List.length selected.
Proof.
  induction selected as [|s selected IH]; intros Hsub Hall.
  - split; [|done]. by intros x Hx%elem_of_nil.
  - cbn [existsb] in Hall. apply orb_false_iff in Hall as [Hs Hall].
    assert (Hin : s ∈ quickPickItems epubDirs) by (apply Hsub; left).
    destruct IH as [IH1 IH2]; [|done|].
    { intros x Hx. apply Hsub. by right. }
    unfold quickPickItems in Hin.
    apply elem_of_cons in Hin as [->|Hin]; [done|].
    apply list_elem_of_fmap in Hin as (dir & -> & Hdir).
    cbn [omap list_omap description]. split.
    + intros x [->|Hx]%elem_of_cons; [done|by apply IH1].
    + cbn [List.length]. by rewrite IH2.
Qed.

(** X17. When the pick returns items it was offered, the directories
    [selectEpubDirectories] returns are among the directories found, and
    there is at least one; it shows a warning exactly when no directory
    was found, and then returns nothing. *)
Theorem selectEpubDirectories_selects showQuickPick (epubDirs : list string) :
  (∀ items selected, showQuickPick items = Some selected → selected ⊆ items) →
  (∀ dirs notes,
     selectEpubDirectories showQuickPick epubDirs = (Some dirs, notes) →
     dirs ≠ [] ∧ dirs ⊆ epubDirs ∧ notes = [])
  ∧ ((selectEpubDirectories showQuickPick epubDirs).2 ≠ [] ↔ epubDirs = [])
  ∧ (epubDirs = [] → (selectEpubDirectories showQuickPick epubDirs).1 = None).
Proof.
  intros Hoffered. unfold selectEpubDirectories.
  destruct epubDirs as [|d1 [|d2 dirs']].
  - split; [by intros dirs notes [=]|]. split; [|done].
    cbn [bool_decide List.length snd]. split; [done|]. intros _.
    rewrite bool_decide_eq_true_2 by done. done.
  - rewrite bool_decide_eq_false_2 by done.
    rewrite bool_decide_eq_true_2 by done.
    split; [|split; [split; [by intros H|done]|done]].
    intros dirs notes [= <- <-]. done.
  - rewrite !bool_decide_eq_false_2 by done.
    set (epubDirs := d1 :: d2 :: dirs').
    destruct (showQuickPick (quickPickItems epubDirs)) as [selected|] eqn:Hpick.
    + case_bool_decide as Hlen; [by repeat split; try intros ?|].
      destruct (existsb _ selected) eqn:Hall.
      * split; [|split; [split; [by intros H|done]|done]].
        intros dirs notes [= <- <-]. done.
      * destruct (omap_description_dirs epubDirs selected) as [Hsub Hl];
          [by apply Hoffered|done|].
        split; [|split; [split; [by intros H|done]|done]].
        intros dirs notes [= <- <-]. split; [|done].
        intros Hnil. rewrite Hnil in Hl. by rewrite <- Hl in Hlen.
    + by repeat split; try intros ?.
Qed.

Lemma selectEpubDirectories_selects_witness :
  (selectEpubDirectories (λ items, Some (drop 1 items)) ["/w/a"; "/w/b"]).1
  ≠ Some [].
Proof.
  destruct (selectEpubDirectories_selects (λ items, Some (drop 1 items))
              ["/w/a"; "/w/b"]) as (Hsel & _).
  - intros items selected [= <-]. apply subseteq_drop.
  - destruct (selectEpubDirectories _ _) as [[dirs|] notes] eqn:Hs; [|done].
    destruct (Hsel dirs notes eq_refl) as (Hne & _).
    cbn [fst]. congruence.
Defined.

End DetectorFacts.

(** * Properties of the extractor: the name of the output directory *)

Module ExtractorFacts.
Import EpubCheckRunner EpubExtractor UniquePathFacts.

(** The candidates of [getUniqueDirPath] are those of [getUniquePath] for
    a name without directory and without extension. *)
Lemma dirCandidate_candidate dirPath n :
  candidate "" dirPath "" n = dirCandidate dirPath n.
Proof. reflexivity. Qed.

Lemma getUniqueDirPath_loop_candidates fs dirPath fuel c :
  getUniqueDirPath_loop fs dirPath fuel c
  = getUniquePath_loop fs "" dirPath "" fuel c.
Proof.
  revert c. induction fuel as [|fuel IH]; intros c; [done|].
  cbn [getUniqueDirPath_loop getUniquePath_loop].
  rewrite dirCandidate_candidate. by rewrite IH.
Qed.

(** X18. [getUniqueDirPath p] always returns. It returns [p] when nothing
    exists at [p]; otherwise the first of the names [p (2)], [p (3)], ...
    at which nothing exists. What it returns never exists. *)
Theorem getUniqueDirPath_first_free (fs : FS) (p : string) :
  ∃ q, getUniqueDirPath fs p = Some q
     ∧ existsSync fs q = false
     ∧ (existsSync fs p = false → q = p)
     ∧ (existsSync fs p = true →
          ∃ n : nat, (2 ≤ n)%nat ∧ q = p +:+ " (" +:+ pretty n +:+ ")"
            ∧ ∀ k : nat, (2 ≤ k < n)%nat →
                existsSync fs (p +:+ " (" +:+ pretty k +:+ ")") = true).
Proof.
  unfold getUniqueDirPath. destruct (existsSync fs p) eqn:Hp; cbn [negb].
  - rewrite getUniqueDirPath_loop_candidates.
    destruct (loop_enough_fuel fs "" p "" (S (size (files fs))) 2)
      as [q Hq]; [lia|].
    destruct (loop_returns _ _ _ _ _ _ _ Hq) as (n & Hn & Hqn & Hfree & Hbelow).
    exists q. split; [done|]. split; [done|]. split; [done|].
    intros _. exists n. split; [lia|]. split; [done|].
    intros k Hk. apply (Hbelow k). lia.
  - exists p. split; [done|]. split; [done|]. split; [done|]. done.
Qed.

Example getUniqueDirPath_third :
  getUniqueDirPath
    (Demo.dir_with [("/tmp/t/book", ""); ("/tmp/t/book (2)", "")])
    "/tmp/t/book"
  = Some "/tmp/t/book (3)".
Proof. vm_compute. reflexivity. Qed.

End ExtractorFacts.
